(** * CAGED chord voicings: a shallow embedding of the voicing core

    The development follows the TypeScript sources module by module:

    - [MusicTheory]         src/utils/musicTheory.ts
    - [CagedShapes]         src/utils/cagedShapes.ts
    - [ChordDatabase]       src/utils/chordDatabase.ts
    - [CagedSystemEnhanced] src/utils/cagedSystemEnhanced.ts
    - [CagedSystem]         src/utils/cagedSystem.ts

    JavaScript numbers that the code only ever uses as integers are [Z],
    arrays are lists, [undefined] read from an array past its end is [None],
    and a function that can [throw] returns a [result].

    Two npm packages are used by the code but are not part of it: tonal (note
    names, transposition, chord dictionary) and chords-db (the curated voicing
    table).  They are interfaces here, [Tonal] and [ChordsDb]; [TonalModel]
    and [SampleDb] are small instances on which statements can be run. *)

From Stdlib Require Import ZArith List Bool String Ascii Lia Sorting.Sorted Permutation.
From Stdlib Require Import DecimalString.
Import ListNotations.
Local Open Scope string_scope.
Local Open Scope list_scope.
Local Open Scope Z_scope.

(* ------------------------------------------------------------------ *)
(** ** JavaScript helpers *)

(** The outcome of a call that may [throw new Error(msg)]. *)
Inductive result (X : Type) : Type :=
| Ok (x : X)
| Throw (msg : string).
Arguments Ok {X} x.
Arguments Throw {X} msg.

(** [Array.prototype.indexOf] on an array of strings: first index, or -1. *)
Fixpoint indexOf_from (i : Z) (x : string) (l : list string) : Z :=
  match l with
  | [] => -1
  | y :: l' => if String.eqb y x then i else indexOf_from (i + 1) x l'
  end.

Definition indexOf (l : list string) (x : string) : Z := indexOf_from 0 x l.

(** [arr.map((x, i) => f(x, i))]. *)
Fixpoint mapi_from {X Y : Type} (i : nat) (f : X -> nat -> Y) (l : list X) : list Y :=
  match l with
  | [] => []
  | x :: l' => f x i :: mapi_from (S i) f l'
  end.

Definition mapi {X Y : Type} (f : X -> nat -> Y) (l : list X) : list Y :=
  mapi_from 0 f l.

(** [arr[i] = v] on an array of frets.  Past the end JavaScript grows the
    array and leaves holes; every reader of such an array here skips holes
    exactly as it skips -1, so the holes are written as -1. *)
Fixpoint array_set (l : list Z) (i : nat) (v : Z) : list Z :=
  match l, i with
  | [], O => [v]
  | [], S i' => -1 :: array_set [] i' v
  | _ :: l', O => v :: l'
  | x :: l', S i' => x :: array_set l' i' v
  end.

(** Comparisons against a value read from an array: every comparison with
    [undefined] is false. *)
Definition js_eq (a : option Z) (b : Z) : bool :=
  match a with Some x => x =? b | None => false end.
Definition js_ge (a : option Z) (b : Z) : bool :=
  match a with Some x => x >=? b | None => false end.
Definition js_gt (a : option Z) (b : Z) : bool :=
  match a with Some x => x >? b | None => false end.
Definition js_lt2 (a b : option Z) : bool :=
  match a, b with Some x, Some y => x <? y | _, _ => false end.

(** [===] on the result of [Note.chroma], a number or [undefined]. *)
Definition chroma_eqb (a b : option Z) : bool :=
  match a, b with
  | Some x, Some y => x =? y
  | None, None => true
  | _, _ => false
  end.

(** [Math.min(...l)] and [Math.max(...l)] of a non-empty list given as head
    and tail. *)
Definition Math_min (x : Z) (l : list Z) : Z := fold_left Z.min l x.
Definition Math_max (x : Z) (l : list Z) : Z := fold_left Z.max l x.

(** [arr.slice(0, n)]: a negative [n] counts from the end. *)
Definition slice0 {X : Type} (l : list X) (n : Z) : list X :=
  if n <? 0 then firstn (Z.to_nat (Z.of_nat (List.length l) + n)) l
  else firstn (Z.to_nat n) l.

(** [Array.prototype.sort(cmp)] is specified to be stable; for a consistent
    comparator the stable sorted permutation is unique, and this insertion
    sort computes it.  [cmp a b <= 0] keeps [a] in front of [b]. *)
Fixpoint sort_insert {X : Type} (cmp : X -> X -> Z) (x : X) (l : list X) : list X :=
  match l with
  | [] => [x]
  | y :: l' => if cmp x y <=? 0 then x :: y :: l' else y :: sort_insert cmp x l'
  end.

Definition Array_sort {X : Type} (cmp : X -> X -> Z) (l : list X) : list X :=
  fold_right (sort_insert cmp) [] l.

(* ------------------------------------------------------------------ *)
(** ** The two external packages *)

(** What [Chord.get(name)] returns, as far as the code reads it. *)
Record Chord : Type := mkChord {
  Chord_empty : bool;
  Chord_notes : list string
}.

(** The part of tonal that the code calls.  [Note_transpose] receives [None]
    when the open-string note is [undefined] (a fret array longer than the
    tuning). *)
Class Tonal : Type := {
  IntervalName : Type;
  Note_chroma : string -> option Z;
  Interval_fromSemitones : Z -> IntervalName;
  Note_transpose : option string -> IntervalName -> string;
  Chord_get : string -> Chord
}.

(** chords-db: [ChordPosition] and [ChordData] as declared in
    chordDatabase.ts, and the [guitar.chords] object. *)
Record ChordPosition : Type := mkChordPosition {
  frets : list Z;
  fingers : list Z;
  barres : list Z;
  baseFret : Z;
  midi : list Z
}.

Record ChordData : Type := mkChordData {
  key : string;
  suffix : string;
  positions : list ChordPosition
}.

Class ChordsDb : Type := {
  guitar_chords : string -> option (list ChordData)
}.

(** The five shape labels and the two template qualities. *)
Inductive ShapeType : Type := ShC | ShA | ShG | ShE | ShD.
Inductive Quality : Type := major | minor.
Inductive Difficulty : Type := beginner | intermediate | advanced.

Definition ShapeType_eqb (a b : ShapeType) : bool :=
  match a, b with
  | ShC, ShC | ShA, ShA | ShG, ShG | ShE, ShE | ShD, ShD => true
  | _, _ => false
  end.

Definition shapeName (s : ShapeType) : string :=
  match s with
  | ShC => "C" | ShA => "A" | ShG => "G" | ShE => "E" | ShD => "D"
  end.

Definition qualityName (q : Quality) : string :=
  match q with major => "major" | minor => "minor" end.

(* ------------------------------------------------------------------ *)
(** ** musicTheory.ts *)

Module MusicTheory.

Definition STANDARD_TUNING : list string := ["E"; "A"; "D"; "G"; "B"; "E"]%string.

Definition qualityMap (quality : string) : option string :=
  let named s := String.eqb quality s in
  if named "major" then Some ""
  else if named "minor" then Some "m"
  else if named "maj7" then Some "maj7"
  else if named "m7" then Some "m7"
  else if named "7" then Some "7"
  else if named "sus2" then Some "sus2"
  else if named "sus4" then Some "sus4"
  else if named "dim" then Some "dim"
  else if named "aug" then Some "aug"
  else if named "add9" then Some "add9"
  else if named "6" then Some "6"
  else if named "9" then Some "9"
  else if named "m6" then Some "m6"
  else if named "dim7" then Some "dim7"
  else if named "m7b5" then Some "m7b5"
  else None.

Section WithTonal.
Context {T : Tonal}.

(** [fretsToNotes]: the muted strings are dropped, every other string gives
    the open note moved up by the fret. *)
Definition fretsToNotes (frets : list Z) (tuning : list string) : list string :=
  List.concat
    (mapi (fun fret stringIndex =>
             if fret =? -1 then []
             else [Note_transpose (nth_error tuning stringIndex)
                                  (Interval_fromSemitones fret)])
          frets).

Definition getChordNotes (root quality : string) : list string :=
  let mappedQuality :=
    match qualityMap quality with Some m => m | None => quality end in
  let chord := Chord_get (root ++ mappedQuality)%string in
  if negb (Chord_empty chord) then Chord_notes chord
  else
    let fallbackChord := Chord_get (root ++ quality)%string in
    if Chord_empty fallbackChord then [] else Chord_notes fallbackChord.

Definition validateChordVoicing
    (frets : list Z) (expectedNotes : list string) (tuning : list string) : bool :=
  if (List.length expectedNotes =? 0)%nat then false
  else
    let playedNotes := fretsToNotes frets tuning in
    forallb
      (fun expectedNote =>
         let expectedChroma := Note_chroma expectedNote in
         existsb (fun playedNote => chroma_eqb (Note_chroma playedNote) expectedChroma)
                 playedNotes)
      expectedNotes.

End WithTonal.
End MusicTheory.

(* ------------------------------------------------------------------ *)
(** ** cagedShapes.ts *)

Module CagedShapes.

Record CAGEDShapeTemplate : Type := mkTemplate {
  t_frets : list Z;
  rootString : nat;
  rootFret : Z;
  t_fingers : list Z
}.

Definition CAGED_SHAPES (shapeType : ShapeType) (quality : Quality) : CAGEDShapeTemplate :=
  match shapeType, quality with
  | ShE, major => mkTemplate [0; 2; 2; 1; 0; 0] 0 0 [0; 2; 3; 1; 0; 0]
  | ShE, minor => mkTemplate [0; 2; 2; 0; 0; 0] 0 0 [0; 2; 3; 0; 0; 0]
  | ShA, major => mkTemplate [-1; 0; 2; 2; 2; 0] 1 0 [0; 0; 2; 3; 4; 0]
  | ShA, minor => mkTemplate [-1; 0; 2; 2; 1; 0] 1 0 [0; 0; 2; 3; 1; 0]
  | ShD, major => mkTemplate [-1; -1; 0; 2; 3; 2] 2 0 [0; 0; 0; 1; 3; 2]
  | ShD, minor => mkTemplate [-1; -1; 0; 2; 3; 1] 2 0 [0; 0; 0; 2; 3; 1]
  | ShG, major => mkTemplate [3; 2; 0; 0; 0; 3] 0 3 [3; 2; 0; 0; 0; 4]
  | ShG, minor => mkTemplate [3; 1; 0; 0; 3; 3] 0 3 [3; 1; 0; 0; 4; 4]
  | ShC, major => mkTemplate [-1; 3; 2; 0; 1; 0] 1 3 [0; 3; 2; 0; 1; 0]
  | ShC, minor => mkTemplate [-1; 3; 1; 0; 1; 3] 1 3 [0; 4; 2; 0; 1; 3]
  end.

(** [flatToSharp[note] || note].  A property inherited from
    [Object.prototype] would give a non-string here; such a value is found in
    no note table, exactly like the unchanged name. *)
Definition normalizeNoteName (note : string) : string :=
  let named s := String.eqb note s in
  if named "Db" then "C#"
  else if named "Eb" then "D#"
  else if named "Gb" then "F#"
  else if named "Ab" then "G#"
  else if named "Bb" then "A#"
  else note.

Definition stringTuning : list string := ["E"; "A"; "D"; "G"; "B"; "E"]%string.

Definition chromatic : list string :=
  ["C"; "C#"; "D"; "D#"; "E"; "F"; "F#"; "G"; "G#"; "A"; "A#"; "B"]%string.

Definition getNoteOnString (note : string) (stringIndex : nat) : result Z :=
  let normalizedNote := normalizeNoteName note in
  let openNote := nth_error stringTuning stringIndex in
  let openNoteIndex :=
    match openNote with Some o => indexOf chromatic o | None => -1 end in
  let targetNoteIndex := indexOf chromatic normalizedNote in
  if (openNoteIndex =? -1) || (targetNoteIndex =? -1) then
    Throw ("Invalid note: " ++ note ++ " or string tuning: "
           ++ match openNote with Some o => o | None => "undefined" end)%string
  else
    let fret := Z.rem (targetNoteIndex - openNoteIndex + 12) 12 in
    Ok fret.

Section WithTonal.
Context {T : Tonal}.

(** Step 5 of [transposeShape] for one string. *)
Definition validateString
    (theoreticalNotes : list string) (fret : Z) (stringIndex : nat) : Z :=
  if fret =? -1 then -1
  else if fret <? 0 then -1
  else
    let singleStringFrets := array_set (repeat (-1) 6) stringIndex fret in
    let notes := MusicTheory.fretsToNotes singleStringFrets MusicTheory.STANDARD_TUNING in
    match notes with
    | [] => -1
    | noteAtFret :: _ =>
        let noteChroma := Note_chroma noteAtFret in
        let isValidNote :=
          existsb (fun theoreticalNote =>
                     chroma_eqb (Note_chroma theoreticalNote) noteChroma)
                  theoreticalNotes in
        if negb isValidNote then -1 else fret
    end.

(** [transposeShape(rootNote, shapeType, quality, { validate })]; the option
    defaults to [true]. *)
Definition transposeShape
    (rootNote : string) (shapeType : ShapeType) (quality : Quality)
    (validate : bool) : result (list Z) :=
  let template := CAGED_SHAPES shapeType quality in
  match getNoteOnString rootNote (rootString template) with
  | Throw msg => Throw msg
  | Ok targetRootFret =>
      let offset := targetRootFret - rootFret template in
      let transposed :=
        map (fun fret => if fret =? -1 then -1 else fret + offset) (t_frets template) in
      if validate then
        let theoreticalNotes := MusicTheory.getChordNotes rootNote (qualityName quality) in
        if (List.length theoreticalNotes =? 0)%nat then Ok transposed
        else
          let validated := mapi (validateString theoreticalNotes) transposed in
          Ok validated
      else Ok transposed
  end.

End WithTonal.
End CagedShapes.

(* ------------------------------------------------------------------ *)
(** ** chordDatabase.ts *)

Module ChordDatabase.

(** [mapping[quality] || quality]; every mapped value is a non-empty string. *)
Definition mapQualityToSuffix (quality : string) : string :=
  let named s := String.eqb quality s in
  if named "" then "major"
  else if named "major" then "major"
  else if named "minor" then "minor"
  else if named "m" then "minor"
  else if named "7" then "7"
  else if named "maj7" then "maj7"
  else if named "M7" then "maj7"
  else if named "m7" then "m7"
  else if named "min7" then "m7"
  else if named "sus2" then "sus2"
  else if named "sus4" then "sus4"
  else if named "dim" then "dim"
  else if named "aug" then "aug"
  else if named "add9" then "add9"
  else if named "6" then "6"
  else if named "9" then "9"
  else if named "m6" then "m6"
  else if named "dim7" then "dim7"
  else if named "m7b5" then "m7b5"
  else if named "11" then "11"
  else if named "13" then "13"
  else if named "sus" then "sus4"
  else if named "dom7" then "7"
  else quality.

Definition normalizeNoteForDB (note : string) : string :=
  let normalized :=
    if String.eqb note "Db" then "C#"
    else if String.eqb note "Eb" then "Eb"
    else if String.eqb note "Gb" then "F#"
    else if String.eqb note "Ab" then "Ab"
    else if String.eqb note "Bb" then "Bb"
    else note in
  if String.eqb normalized "C#" then "Csharp"
  else if String.eqb normalized "F#" then "Fsharp"
  else normalized.

Definition getChordVoicingsFromDB {D : ChordsDb} (note quality : string)
  : list ChordPosition :=
  let suffix' := mapQualityToSuffix quality in
  let keyName := normalizeNoteForDB note in
  match guitar_chords keyName with
  | None => []
  | Some chordsForKey =>
      match find (fun c => String.eqb (suffix c) suffix') chordsForKey with
      | None => []
      | Some chord => positions chord
      end
  end.

Definition toAbsoluteFrets (position : ChordPosition) : list Z :=
  if baseFret position <=? 1 then frets position
  else
    map (fun fret =>
           if fret =? -1 then -1
           else if fret =? 0 then 0
           else baseFret position + fret - 1)
        (frets position).

Definition filterVoicingsByPosition
    (voicings : list ChordPosition) (minFret maxFret : Z) : list ChordPosition :=
  filter
    (fun v =>
       let activeFrets := filter (fun f => f >? 0) (frets v) in
       match activeFrets with
       | [] => true
       | f :: rest =>
           let maxFretInVoicing := Math_max f rest in
           (maxFretInVoicing >=? minFret) && (maxFretInVoicing <=? maxFret)
       end)
    voicings.

(** The comparator of [sortByDifficulty]. *)
Definition difficultyCompare (a b : ChordPosition) : Z :=
  let aHasOpen := existsb (fun f => f =? 0) (frets a) in
  let bHasOpen := existsb (fun f => f =? 0) (frets b) in
  if aHasOpen && negb bHasOpen then -1
  else if negb aHasOpen && bHasOpen then 1
  else if negb (List.length (barres a) =? List.length (barres b))%nat then
    Z.of_nat (List.length (barres a)) - Z.of_nat (List.length (barres b))
  else baseFret a - baseFret b.

Definition sortByDifficulty (voicings : list ChordPosition) : list ChordPosition :=
  Array_sort difficultyCompare voicings.

Definition filterVoicingsByBarres
    (voicings : list ChordPosition) (maxBarres : Z) : list ChordPosition :=
  filter (fun v => Z.of_nat (List.length (barres v)) <=? maxBarres) voicings.

Definition getOpenVoicings (voicings : list ChordPosition) : list ChordPosition :=
  filter (fun v => existsb (fun f => f =? 0) (frets v)) voicings.

Definition getBarreVoicings (voicings : list ChordPosition) : list ChordPosition :=
  filter (fun v => (0 <? List.length (barres v))%nat) voicings.

Definition chordExistsInDB {D : ChordsDb} (note quality : string) : bool :=
  let voicings := getChordVoicingsFromDB note quality in
  (0 <? List.length voicings)%nat.

Definition getVoicingCount {D : ChordsDb} (note quality : string) : nat :=
  List.length (getChordVoicingsFromDB note quality).

End ChordDatabase.

(* ------------------------------------------------------------------ *)
(** ** cagedSystemEnhanced.ts *)

Module CagedSystemEnhanced.
Import ChordDatabase.

Record EnhancedChordVoicing : Type := mkEnhanced {
  ev_name : string;
  ev_frets : list Z;
  ev_baseFret : Z;
  ev_fingers : list Z;
  ev_position : Z;
  ev_cagedShape : ShapeType;
  ev_difficulty : Difficulty;
  ev_barrePositions : list Z;
  ev_midi : list Z;
  ev_validated : bool;
  ev_theoreticalNotes : list string
}.

(** The absolute frets that [determineCAGEDShape] analyses. *)
Definition normalizeFrets (frets : list Z) (baseFret : Z) : list Z :=
  if baseFret >? 1 then
    map (fun f => if f =? -1 then -1 else if f =? 0 then 0 else baseFret + f - 1) frets
  else frets.

(** The played strings with their index, lowest string first. *)
Definition playedStringsOf (absoluteFrets : list Z) : list (nat * Z) :=
  List.concat (mapi (fun fret idx => if fret >=? 0 then [(idx, fret)] else []) absoluteFrets).

Definition determineCAGEDShape (frets : list Z) (baseFret : Z) : ShapeType :=
  let absoluteFrets := normalizeFrets frets baseFret in
  let playedStrings := playedStringsOf absoluteFrets in
  match playedStrings with
  | [] => ShE
  | first :: _ =>
      let lowestString := fst first in
      let highestString := fst (last playedStrings first) in
      let hasOpenStrings := existsb (fun f => f =? 0) absoluteFrets in
      let stringCount := List.length playedStrings in
      let at_ i := nth_error absoluteFrets i in
      if js_eq (at_ 0%nat) (-1) && js_eq (at_ 1%nat) (-1) && js_ge (at_ 2%nat) 0 then ShD
      else if (lowestString =? 0)%nat && (4 <=? stringCount)%nat then
        if (stringCount =? 6)%nat && hasOpenStrings && js_gt (at_ 5%nat) 0 then ShG
        else ShE
      else if (lowestString =? 1)%nat then
        if js_eq (at_ 0%nat) (-1) && hasOpenStrings && js_lt2 (at_ 2%nat) (at_ 1%nat)
        then ShC
        else ShA
      else if (5 <=? stringCount)%nat && (lowestString =? 0)%nat && (highestString =? 5)%nat
      then ShG
      else if js_eq (at_ 0%nat) (-1) && js_gt (at_ 1%nat) 0 then
        if hasOpenStrings then ShC else ShA
      else if (lowestString =? 0)%nat then ShE
      else if (lowestString =? 1)%nat then ShA
      else if (lowestString =? 2)%nat then ShD
      else ShE
  end.

Definition calculateDifficulty (position : ChordPosition) (baseFret : Z) : Difficulty :=
  let hasBarres := (0 <? List.length (barres position))%nat in
  let hasOpenStrings := existsb (fun f => f =? 0) (frets position) in
  if (baseFret >? 12) || (1 <? List.length (barres position))%nat then advanced
  else if hasOpenStrings && negb hasBarres then beginner
  else intermediate.

(** [fretCounts.set(fret, (fretCounts.get(fret) || 0) + 1)] on a [Map], kept
    in insertion order as [Map.prototype.forEach] visits it. *)
Fixpoint countFret (fretCounts : list (Z * Z)) (fret : Z) : list (Z * Z) :=
  match fretCounts with
  | [] => [(fret, 1)]
  | (k, c) :: rest =>
      if k =? fret then (k, c + 1) :: rest else (k, c) :: countFret rest fret
  end.

Definition absoluteFretsToChordPosition
    (absoluteFrets : list Z) (shape : ShapeType) (quality : Quality) : ChordPosition :=
  let playedFrets := filter (fun f => f >? 0) absoluteFrets in
  let baseFret :=
    match playedFrets with
    | [] => 1
    | f :: rest => Math_min f rest
    end in
  let relativeFrets :=
    map (fun fret =>
           if fret =? -1 then -1
           else if fret =? 0 then 0
           else if baseFret =? 1 then fret
           else fret - baseFret + 1)
        absoluteFrets in
  let fretCounts :=
    fold_left (fun m fret => if fret >? 0 then countFret m fret else m)
              relativeFrets [] in
  let barres :=
    List.concat
      (map (fun '(fret, count) =>
              if count >=? 2 then
                [if baseFret =? 1 then fret else baseFret + fret - 1]
              else [])
           fretCounts) in
  let template := CagedShapes.CAGED_SHAPES shape quality in
  let fingers := CagedShapes.t_fingers template in
  mkChordPosition relativeFrets fingers barres baseFret [].

Record Options : Type := mkOptions {
  maxVoicings : Z;
  minFret : Z;
  maxFret : Z;
  onlyValidated : bool
}.

Definition defaultOptions : Options := mkOptions 10 0 15 true.

Definition allShapes : list ShapeType := [ShC; ShA; ShG; ShE; ShD].

Section WithLibraries.
Context {T : Tonal} {D : ChordsDb}.

(** One round of [allShapes.forEach]: the voicing of a missing shape is
    pushed onto [dbVoicings]; a [throw] of [transposeShape] is caught. *)
Definition addMissingShape
    (root : string) (qualityMapped : Quality) (minFret maxFret : Z)
    (presentShapes : list ShapeType)
    (dbVoicings : list ChordPosition) (shape : ShapeType) : list ChordPosition :=
  if existsb (ShapeType_eqb shape) presentShapes then dbVoicings
  else
    match CagedShapes.transposeShape root shape qualityMapped true with
    | Throw _ => dbVoicings
    | Ok absoluteFrets =>
        let hasInvalidFrets := existsb (fun fret => fret <? -1) absoluteFrets in
        if hasInvalidFrets then dbVoicings
        else
          let chordPosition :=
            absoluteFretsToChordPosition absoluteFrets shape qualityMapped in
          let hasInvalidRelativeFrets :=
            existsb (fun fret => fret <? -1) (frets chordPosition) in
          if hasInvalidRelativeFrets then dbVoicings
          else if (baseFret chordPosition >=? minFret)
                  && (baseFret chordPosition <=? maxFret)
          then dbVoicings ++ [chordPosition]
          else dbVoicings
    end.

Definition qualityMappedOf (quality : string) : option Quality :=
  if String.eqb quality "" || String.eqb quality "major" then Some major
  else if String.eqb quality "m" || String.eqb quality "minor" then Some minor
  else None.

(** Steps 2 to 4.5: the positions that are turned into voicings. *)
Definition collectPositions
    (root quality : string) (minFret maxFret : Z) (dbVoicings0 : list ChordPosition)
  : list ChordPosition :=
  let dbVoicings := filterVoicingsByPosition dbVoicings0 minFret maxFret in
  let dbVoicings := sortByDifficulty dbVoicings in
  match qualityMappedOf quality with
  | Some qualityMapped =>
      let presentShapes :=
        map (fun voicing => determineCAGEDShape (frets voicing) (baseFret voicing))
            dbVoicings in
      fold_left (addMissingShape root qualityMapped minFret maxFret presentShapes)
                allShapes dbVoicings
  | None => dbVoicings
  end.

(** Step 5 for one position. *)
Definition enhance (root quality : string) (theoreticalNotes : list string)
    (pos : ChordPosition) : EnhancedChordVoicing :=
  let absoluteFrets := toAbsoluteFrets pos in
  let cagedShape := determineCAGEDShape (frets pos) (baseFret pos) in
  let difficulty := calculateDifficulty pos (baseFret pos) in
  let isValid :=
    MusicTheory.validateChordVoicing absoluteFrets theoreticalNotes
                                     MusicTheory.STANDARD_TUNING in
  mkEnhanced
    (root ++ quality ++ " (" ++ shapeName cagedShape ++ " Shape)")%string
    (frets pos) (baseFret pos) (fingers pos) (baseFret pos)
    cagedShape difficulty (barres pos) (midi pos) isValid theoreticalNotes.

Definition getValidatedCAGEDVoicings
    (root quality : string) (options : Options) : list EnhancedChordVoicing :=
  let theoreticalNotes := MusicTheory.getChordNotes root quality in
  if (List.length theoreticalNotes =? 0)%nat then []
  else
    let dbVoicings := getChordVoicingsFromDB root quality in
    if (List.length dbVoicings =? 0)%nat then []
    else
      let dbVoicings :=
        collectPositions root quality (minFret options) (maxFret options) dbVoicings in
      let enhancedVoicings := map (enhance root quality theoreticalNotes) dbVoicings in
      let filteredVoicings :=
        if onlyValidated options
        then filter ev_validated enhancedVoicings
        else enhancedVoicings in
      slice0 filteredVoicings (maxVoicings options).

(** The value [getVoicingsByShape] returns: one array per shape label. *)
Record VoicingsByShape : Type := mkByShape {
  grp_C : list EnhancedChordVoicing;
  grp_A : list EnhancedChordVoicing;
  grp_G : list EnhancedChordVoicing;
  grp_E : list EnhancedChordVoicing;
  grp_D : list EnhancedChordVoicing
}.

(** [grouped[voicing.cagedShape].push(voicing)]. *)
Definition pushByShape (grouped : VoicingsByShape) (voicing : EnhancedChordVoicing)
  : VoicingsByShape :=
  match ev_cagedShape voicing with
  | ShC => mkByShape (grp_C grouped ++ [voicing]) (grp_A grouped) (grp_G grouped)
                     (grp_E grouped) (grp_D grouped)
  | ShA => mkByShape (grp_C grouped) (grp_A grouped ++ [voicing]) (grp_G grouped)
                     (grp_E grouped) (grp_D grouped)
  | ShG => mkByShape (grp_C grouped) (grp_A grouped) (grp_G grouped ++ [voicing])
                     (grp_E grouped) (grp_D grouped)
  | ShE => mkByShape (grp_C grouped) (grp_A grouped) (grp_G grouped)
                     (grp_E grouped ++ [voicing]) (grp_D grouped)
  | ShD => mkByShape (grp_C grouped) (grp_A grouped) (grp_G grouped)
                     (grp_E grouped) (grp_D grouped ++ [voicing])
  end.

Definition getVoicingsByShape (root quality : string) : VoicingsByShape :=
  let allVoicings :=
    getValidatedCAGEDVoicings root quality (mkOptions 50 0 15 true) in
  fold_left pushByShape allVoicings (mkByShape [] [] [] [] []).

(** [null] is [None]. *)
Definition getCommonVoicing (root quality : string) : option EnhancedChordVoicing :=
  let voicings := getValidatedCAGEDVoicings root quality (mkOptions 1 0 15 true) in
  match voicings with
  | v :: _ => Some v
  | [] => None
  end.

Record CustomValidation : Type := mkCustomValidation {
  isValid : bool;
  cv_theoreticalNotes : list string;
  message : string
}.

Definition validateCustomVoicing (frets : list Z) (root quality : string)
  : CustomValidation :=
  let theoreticalNotes := MusicTheory.getChordNotes root quality in
  if (List.length theoreticalNotes =? 0)%nat then
    mkCustomValidation false [] ("Unknown chord: " ++ root ++ quality)%string
  else
    let isValid :=
      MusicTheory.validateChordVoicing frets theoreticalNotes MusicTheory.STANDARD_TUNING in
    mkCustomValidation isValid theoreticalNotes
      (if isValid
       then ("✅ Valid " ++ root ++ quality ++ " voicing")%string
       else ("❌ Invalid " ++ root ++ quality ++ " voicing. Expected notes: "
             ++ String.concat ", " theoreticalNotes)%string).

End WithLibraries.
End CagedSystemEnhanced.

(* ------------------------------------------------------------------ *)
(** ** cagedSystem.ts *)

Module CagedSystem.

Record ChordVoicing : Type := mkVoicing {
  cv_name : string;
  cv_frets : list Z;
  cv_position : Z;
  cv_cagedShape : ShapeType;
  cv_difficulty : Difficulty;
  cv_barrePositions : option (list Z)
}.

Definition noteNames : list string :=
  ["C"; "C#"; "D"; "D#"; "E"; "F"; "F#"; "G"; "G#"; "A"; "A#"; "B"]%string.

Definition flatToSharp (note : string) : option string :=
  if String.eqb note "Db" then Some "C#"
  else if String.eqb note "Eb" then Some "D#"
  else if String.eqb note "Gb" then Some "F#"
  else if String.eqb note "Ab" then Some "G#"
  else if String.eqb note "Bb" then Some "A#"
  else None.

(** [flatToSharp[note] || note], then [indexOf]; a value inherited from
    [Object.prototype] is in [noteNames] no more than the name itself. *)
Definition getNoteIndex (note : string) : Z :=
  let normalizedNote := match flatToSharp note with Some n => n | None => note end in
  indexOf noteNames normalizedNote.

Record BaseShape : Type := mkBase {
  b_frets : list Z;
  b_rootString : Z;
  b_rootFret : Z;
  movable : bool
}.

Definition baseMajorShapes (shape : ShapeType) : BaseShape :=
  match shape with
  | ShC => mkBase [-1; 3; 2; 0; 1; 0] 5 3 false
  | ShA => mkBase [-1; 0; 2; 2; 2; 0] 5 0 true
  | ShG => mkBase [3; 2; 0; 0; 0; 3] 6 3 true
  | ShE => mkBase [0; 2; 2; 1; 0; 0] 6 0 true
  | ShD => mkBase [-1; -1; 0; 2; 3; 2] 4 0 true
  end.

Definition baseMinorShapes (shape : ShapeType) : BaseShape :=
  match shape with
  | ShA => mkBase [-1; 0; 2; 2; 1; 0] 5 0 true
  | ShG => mkBase [3; 1; 0; 0; 3; 3] 6 3 true
  | ShE => mkBase [0; 2; 2; 0; 0; 0] 6 0 true
  | ShD => mkBase [-1; -1; 0; 2; 3; 1] 4 0 true
  | ShC => mkBase [-1; 3; 1; 0; 1; 3] 5 3 true
  end.

Definition baseMaj7Shapes (shape : ShapeType) : BaseShape :=
  match shape with
  | ShC => mkBase [-1; 3; 2; 0; 0; 0] 5 3 true
  | ShA => mkBase [-1; 0; 2; 1; 2; 0] 5 0 true
  | ShG => mkBase [3; 2; 0; 0; 0; 2] 6 3 true
  | ShE => mkBase [0; 2; 1; 1; 0; 0] 6 0 true
  | ShD => mkBase [-1; -1; 0; 2; 2; 2] 4 0 true
  end.

Definition baseMin7Shapes (shape : ShapeType) : BaseShape :=
  match shape with
  | ShA => mkBase [-1; 0; 2; 0; 1; 0] 5 0 true
  | ShG => mkBase [3; 5; 3; 3; 3; 3] 6 3 true
  | ShE => mkBase [0; 2; 0; 0; 0; 0] 6 0 true
  | ShD => mkBase [-1; -1; 0; 2; 1; 1] 4 0 true
  | ShC => mkBase [-1; 3; 1; 3; 4; 3] 5 3 true
  end.

Definition baseDom7Shapes (shape : ShapeType) : BaseShape :=
  match shape with
  | ShC => mkBase [-1; 3; 2; 3; 1; 0] 5 3 true
  | ShA => mkBase [-1; 0; 2; 0; 2; 0] 5 0 true
  | ShG => mkBase [3; 2; 0; 0; 0; 1] 6 3 true
  | ShE => mkBase [0; 2; 0; 1; 0; 0] 6 0 true
  | ShD => mkBase [-1; -1; 0; 2; 1; 2] 4 0 true
  end.

Definition baseSus2Shapes (shape : ShapeType) : BaseShape :=
  match shape with
  | ShC => mkBase [-1; 3; 0; 0; 3; 3] 5 3 true
  | ShA => mkBase [-1; 0; 2; 2; 0; 0] 5 0 true
  | ShG => mkBase [3; 0; 0; 0; 3; 3] 6 3 true
  | ShE => mkBase [0; 2; 4; 4; 0; 0] 6 0 true
  | ShD => mkBase [-1; -1; 0; 2; 3; 0] 4 0 true
  end.

Definition baseSus4Shapes (shape : ShapeType) : BaseShape :=
  match shape with
  | ShC => mkBase [-1; 3; 3; 0; 1; 1] 5 3 true
  | ShA => mkBase [-1; 0; 2; 2; 3; 0] 5 0 true
  | ShG => mkBase [3; 3; 0; 0; 1; 3] 6 3 true
  | ShE => mkBase [0; 2; 2; 2; 0; 0] 6 0 true
  | ShD => mkBase [-1; -1; 0; 2; 3; 3] 4 0 true
  end.

Definition cagedOrderMajor : list ShapeType := [ShC; ShA; ShG; ShE; ShD].
Definition cagedOrderMinor : list ShapeType := [ShA; ShG; ShE; ShD; ShC].

Record Transposed : Type := mkTransposed {
  tr_frets : list Z;
  tr_position : Z;
  tr_barrePositions : option (list Z)
}.

(** This module's own [transposeShape]: a base shape moved up by
    [semitones]. *)
Definition transposeShape
    (baseShape : list Z) (semitones : Z) (rootString rootFret : Z) : Transposed :=
  let hasOpenStrings := existsb (fun f => f =? 0) baseShape in
  let '(newFrets, barrePositions) :=
    if hasOpenStrings && (semitones >? 0) then
      let newFrets := map (fun f => if f >=? 0 then f + semitones else f) baseShape in
      (* [minFret] is [Infinity] on an empty filter, which is not 0 *)
      let minFretIsZero :=
        match filter (fun f => f >=? 0) baseShape with
        | [] => false
        | f :: rest => Math_min f rest =? 0
        end in
      (newFrets, if minFretIsZero then [semitones] else [])
    else
      (map (fun f => if f >? 0 then f + semitones else f) baseShape, [])
  in
  let position := rootFret + semitones in
  mkTransposed newFrets position
    (if (0 <? List.length barrePositions)%nat then Some barrePositions else None).

Definition string_of_Z (z : Z) : string := NilZero.string_of_int (Z.to_int z).

(** The body of the [for (const shape of cagedOrder)] loop, with its
    [continue] and its [break]. *)
Fixpoint voicingLoop
    (baseShapes : ShapeType -> BaseShape) (rootIndex : Z)
    (cagedOrder : list ShapeType) (voicings : list ChordVoicing) : list ChordVoicing :=
  match cagedOrder with
  | [] => voicings
  | shape :: rest =>
      let base := baseShapes shape in
      let baseNoteIndex := getNoteIndex (shapeName shape) in
      let semitones := Z.rem (rootIndex - baseNoteIndex + 12) 12 in
      let t := transposeShape (b_frets base) semitones (b_rootString base) (b_rootFret base) in
      let frets := tr_frets t in
      let position := tr_position t in
      let barrePositions := tr_barrePositions t in
      (* [Math.max] of nothing is [-Infinity], never above 15 *)
      let tooHigh :=
        match filter (fun f => f >? 0) frets with
        | [] => false
        | f :: more => Math_max f more >? 15
        end in
      if tooHigh then voicingLoop baseShapes rootIndex rest voicings
      else
        let difficulty :=
          match barrePositions with
          | Some (b0 :: _) => if b0 >? 5 then advanced else intermediate
          | _ => if position >? 7 then intermediate else beginner
          end in
        let positionName :=
          if position =? 0 then "Open"
          else (string_of_Z position ++ "th Position")%string in
        let voicingName := (shapeName shape ++ " Shape (" ++ positionName ++ ")")%string in
        let voicings' :=
          voicings ++ [mkVoicing voicingName frets position shape difficulty barrePositions] in
        if (5 <=? List.length voicings')%nat then voicings'
        else voicingLoop baseShapes rootIndex rest voicings'
  end.

Definition generateCAGEDVoicings (rootNote quality : string) : result (list ChordVoicing) :=
  let rootIndex := getNoteIndex rootNote in
  if rootIndex =? -1 then Throw ("Invalid note: " ++ rootNote)%string
  else
    let '(baseShapes, cagedOrder) :=
      if String.eqb quality "maj7" then (baseMaj7Shapes, cagedOrderMajor)
      else if String.eqb quality "m7" || String.eqb quality "min7"
      then (baseMin7Shapes, cagedOrderMinor)
      else if String.eqb quality "7" then (baseDom7Shapes, cagedOrderMajor)
      else if String.eqb quality "sus2" then (baseSus2Shapes, cagedOrderMajor)
      else if String.eqb quality "sus4" then (baseSus4Shapes, cagedOrderMajor)
      else
        let isMinor :=
          String.eqb quality "m" || String.eqb quality "min" || String.eqb quality "minor" in
        (if isMinor then baseMinorShapes else baseMajorShapes,
         if isMinor then cagedOrderMinor else cagedOrderMajor)
    in
    Ok (voicingLoop baseShapes rootIndex cagedOrder []).

Definition getChordShape (rootNote quality : string) : list Z :=
  match generateCAGEDVoicings rootNote quality with
  | Ok voicings =>
      match voicings with
      | v :: _ => cv_frets v
      | [] => [0; 0; 0; 0; 0; 0]
      end
  | Throw _ => [0; 0; 0; 0; 0; 0]
  end.

End CagedSystem.

(* ------------------------------------------------------------------ *)
(** ** What the code relies on from tonal *)

(** The only fact about tonal that the fret arithmetic needs: an open string
    of the standard tuning, raised by a non-negative number of semitones,
    sounds the pitch class that many steps above the open string's own.  The
    open string's pitch class is its index in the chromatic table of
    cagedShapes.ts. *)
Definition OpenStringsSound (T : Tonal) : Prop :=
  forall (i : nat) (openNote : string) (fret : Z),
    nth_error MusicTheory.STANDARD_TUNING i = Some openNote ->
    0 <= fret ->
    Note_chroma (Note_transpose (Some openNote) (Interval_fromSemitones fret))
    = Some ((indexOf CagedShapes.chromatic openNote + fret) mod 12).

(* ------------------------------------------------------------------ *)
(** ** The vocabulary of the specification *)

Module Spec.

(** [tuningPitchClass[stringIndex]] of the standard tuning E A D G B E. *)
Definition tuningPitchClass (stringIndex : nat) : Z :=
  nth stringIndex [4; 9; 2; 7; 11; 4] 0.

(** [pitchClassOf]: flats are turned into sharps, then the name is looked up
    in the 12-tone table; [None] is the spec's [InvalidNote]. *)
Definition pitchClassOf (noteName : string) : option Z :=
  let i := indexOf CagedShapes.chromatic (CagedShapes.normalizeNoteName noteName) in
  if i =? -1 then None else Some i.

Definition fretPitchClass (stringIndex : nat) (fret : Z) : Z :=
  (tuningPitchClass stringIndex + fret) mod 12.

Definition findFretForPitchClass (targetPitchClass : Z) (stringIndex : nat) : Z :=
  (targetPitchClass - tuningPitchClass stringIndex + 12) mod 12.

(** Steps 1 to 4 of the Shape Transposer as the specification words them. *)
Definition transposeBySpec (pc : Z) (shape : ShapeType) (quality : Quality) : list Z :=
  let template := CagedShapes.CAGED_SHAPES shape quality in
  let targetRootFret := findFretForPitchClass pc (CagedShapes.rootString template) in
  let offset := targetRootFret - CagedShapes.rootFret template in
  map (fun f => if f =? -1 then -1 else f + offset) (CagedShapes.t_frets template).

(** The pitch-class set of a chord: the chromas of the oracle's notes. *)
Definition chordTones {T : Tonal} (root quality : string) : list (option Z) :=
  map Note_chroma (MusicTheory.getChordNotes root quality).

(** Every non-muted string of an absolute fret pattern sounds a chord tone. *)
Definition onlyChordTones (tones : list (option Z)) (absoluteFrets : list Z) : Prop :=
  forall (i : nat) (fret : Z),
    nth_error absoluteFrets i = Some fret -> fret <> -1 ->
    In (Some (fretPitchClass i fret)) tones.

(** The absolute fret pattern of a returned voicing, as step 5 of
    [getValidatedCAGEDVoicings] computes it from the position. *)
Definition absoluteFretsOf (v : CagedSystemEnhanced.EnhancedChordVoicing) : list Z :=
  ChordDatabase.toAbsoluteFrets
    (mkChordPosition (CagedSystemEnhanced.ev_frets v) (CagedSystemEnhanced.ev_fingers v)
                     (CagedSystemEnhanced.ev_barrePositions v)
                     (CagedSystemEnhanced.ev_baseFret v) (CagedSystemEnhanced.ev_midi v)).

(** Some non-muted string of the pattern sounds the pitch class of [note]. *)
Definition soundsNote {T : Tonal} (absoluteFrets : list Z) (note : string) : Prop :=
  exists (i : nat) (fret : Z),
    nth_error absoluteFrets i = Some fret /\ fret <> -1 /\
    Note_chroma (Note_transpose (nth_error MusicTheory.STANDARD_TUNING i)
                                (Interval_fromSemitones fret))
    = Note_chroma note.

(** A fret array as the data model has it: six values, each in [-1, 24]. *)
Definition wellFormedFrets (frets : list Z) : Prop :=
  List.length frets = 6%nat /\ Forall (fun f => -1 <= f <= 24) frets.


End Spec.

(* ------------------------------------------------------------------ *)
(** ** A model of tonal on pitch-class names

    Notes are kept as their position on the line of fifths
    (... Bb F C G D A E B F# ...), on which transposing adds the interval's
    own position and the chroma is seven times the position modulo 12.  Only
    upper-case pitch-class names (no octave) and nine chord types are
    covered; any other name is unknown to the model. *)

Module TonalModel.

Definition letterFifths (c : ascii) : option Z :=
  if Ascii.eqb c "F" then Some (-1)
  else if Ascii.eqb c "C" then Some 0
  else if Ascii.eqb c "G" then Some 1
  else if Ascii.eqb c "D" then Some 2
  else if Ascii.eqb c "A" then Some 3
  else if Ascii.eqb c "E" then Some 4
  else if Ascii.eqb c "B" then Some 5
  else None.

(** Length of the leading run of [c] in [s], and what follows it. *)
Fixpoint leadingRun (c : ascii) (s : string) : Z * string :=
  match s with
  | String c' rest =>
      if Ascii.eqb c' c then
        let '(n, r) := leadingRun c rest in (n + 1, r)
      else (0, s)
  | EmptyString => (0, s)
  end.

(** A name split into the tonic's position on the line of fifths and the
    text after the accidentals. *)
Definition tokenize (name : string) : option (Z * string) :=
  match name with
  | EmptyString => None
  | String c rest =>
      match letterFifths c with
      | None => None
      | Some f =>
          let '(sharps, afterSharps) := leadingRun "#" rest in
          if sharps >? 0 then Some (f + 7 * sharps, afterSharps)
          else
            let '(flats, afterFlats) := leadingRun "b" rest in
            Some (f - 7 * flats, afterFlats)
      end
  end.

Definition noteFifths (name : string) : option Z :=
  match tokenize name with
  | Some (f, EmptyString) => Some f
  | _ => None
  end.

Fixpoint repeatChar (c : ascii) (n : nat) : string :=
  match n with
  | O => EmptyString
  | S n' => String c (repeatChar c n')
  end.

Definition nameOfFifths (f : Z) : string :=
  let letter := nth (Z.to_nat ((f + 1) mod 7)) ["F"; "C"; "G"; "D"; "A"; "E"; "B"]%char "C"%char in
  let alt := (f + 1) / 7 in
  String letter
    (if alt >=? 0 then repeatChar "#" (Z.to_nat alt) else repeatChar "b" (Z.to_nat (- alt))).

(** Position on the line of fifths of the interval of [c] semitones:
    P1 m2 M2 m3 M3 P4 d5 P5 m6 M6 m7 M7. *)
Definition intervalFifths (c : Z) : Z :=
  nth (Z.to_nat c) [0; -5; 2; -3; 4; -1; -6; 1; -4; 3; -2; 5] 0.

Definition fromSemitones (semitones : Z) : Z :=
  let d := if semitones <? 0 then -1 else 1 in
  d * intervalFifths (Z.abs semitones mod 12).

Definition transpose (note : option string) (interval : Z) : string :=
  match note with
  | Some n =>
      match noteFifths n with
      | Some f => nameOfFifths (f + interval)
      | None => ""
      end
  | None => ""
  end.

Definition chroma (name : string) : option Z :=
  match noteFifths name with
  | Some f => Some ((7 * f) mod 12)
  | None => None
  end.

Definition chordType (name : string) : option (list Z) :=
  let named s := String.eqb name s in
  if named "" then Some [0; 4; 1]
  else if named "m" then Some [0; -3; 1]
  else if named "7" then Some [0; 4; 1; -2]
  else if named "maj7" then Some [0; 4; 1; 5]
  else if named "m7" then Some [0; -3; 1; -2]
  else if named "sus2" then Some [0; 2; 1]
  else if named "sus4" then Some [0; -1; 1]
  else if named "dim" then Some [0; -3; -6]
  else if named "aug" then Some [0; 4; 8]
  else None.

Definition chordGet (name : string) : Chord :=
  match tokenize name with
  | Some (f, type) =>
      match chordType type with
      | Some intervals => mkChord false (map (fun i => nameOfFifths (f + i)) intervals)
      | None => mkChord true []
      end
  | None => mkChord true []
  end.

Definition tonal : Tonal := {|
  IntervalName := Z;
  Note_chroma := chroma;
  Interval_fromSemitones := fromSemitones;
  Note_transpose := transpose;
  Chord_get := chordGet
|}.

End TonalModel.

(* ------------------------------------------------------------------ *)
(** ** Sample voicing tables in the chords-db format *)

Module SampleDb.

Definition C_open : ChordPosition :=
  mkChordPosition [-1; 3; 2; 0; 1; 0] [0; 3; 2; 0; 1; 0] [] 1 [48; 52; 55; 60; 64].

Definition C_barre8 : ChordPosition :=
  mkChordPosition [1; 3; 3; 2; 1; 1] [1; 3; 4; 2; 1; 1] [1] 8 [48; 55; 60; 64; 67; 72].

Definition Fsharp_m_barre2 : ChordPosition :=
  mkChordPosition [1; 3; 3; 1; 1; 1] [1; 3; 4; 1; 1; 1] [1] 2 [42; 49; 54; 57; 61; 66].

(** Open C with the first fret of the high E string pressed: C E G C F. *)
Definition C_with_F : ChordPosition :=
  mkChordPosition [-1; 3; 2; 0; 1; 1] [0; 3; 2; 0; 1; 1] [1] 1 [48; 52; 55; 60; 65].

Definition chords (keyName : string) : option (list ChordData) :=
  if String.eqb keyName "C" then
    Some [mkChordData "C" "major" [C_open; C_barre8]]
  else if String.eqb keyName "Fsharp" then
    Some [mkChordData "F#" "minor" [Fsharp_m_barre2]]
  else None.

Definition db : ChordsDb := {| guitar_chords := chords |}.

(** A table whose C major entry carries a tone foreign to the chord. *)
Definition foreignChords (keyName : string) : option (list ChordData) :=
  if String.eqb keyName "C" then
    Some [mkChordData "C" "major" [C_with_F]]
  else None.

Definition foreignDb : ChordsDb := {| guitar_chords := foreignChords |}.

(** Open C written for five strings only: the high E string is left out. *)
Definition C_five_values : ChordPosition :=
  mkChordPosition [-1; 3; 2; 0; 1] [0; 3; 2; 0; 1] [] 1 [48; 52; 55; 60].

(** A table whose C major entry has five fret values. *)
Definition shortChords (keyName : string) : option (list ChordData) :=
  if String.eqb keyName "C" then
    Some [mkChordData "C" "major" [C_five_values]]
  else None.

Definition shortDb : ChordsDb := {| guitar_chords := shortChords |}.

End SampleDb.

(* ------------------------------------------------------------------ *)
(** ** Chord tones as semitones above the root *)

Module Harmony.

(** The tones of the triads the templates of cagedShapes.ts are drawn for. *)
Definition triad (quality : Quality) : list Z :=
  match quality with
  | major => [0; 4; 7]
  | minor => [0; 3; 7]
  end.

(** The tones of the chord a quality name asks for, in semitones above the
    root, for the names of the seven chord types cagedSystem.ts has base
    shapes for.  Every other name (dim, aug, 9, ...) asks for a chord that
    has no base shapes and gets [None]. *)
Definition chordTypeIntervals (quality : string) : option (list Z) :=
  if String.eqb quality "maj7" then Some [0; 4; 7; 11]
  else if String.eqb quality "m7" || String.eqb quality "min7" then Some [0; 3; 7; 10]
  else if String.eqb quality "7" then Some [0; 4; 7; 10]
  else if String.eqb quality "sus2" then Some [0; 2; 7]
  else if String.eqb quality "sus4" then Some [0; 5; 7]
  else if String.eqb quality "m" || String.eqb quality "min" || String.eqb quality "minor"
  then Some [0; 3; 7]
  else if String.eqb quality "" || String.eqb quality "major"
          || String.eqb quality "maj" || String.eqb quality "M"
  then Some [0; 4; 7]
  else None.

(** Every played string of [frets] sounds one of [intervals] above [rootPc]. *)
Definition soundsOnly (intervals : list Z) (rootPc : Z) (frets : list Z) : Prop :=
  forall (i : nat) (fret : Z),
    nth_error frets i = Some fret -> 0 <= fret ->
    In ((Spec.fretPitchClass i fret - rootPc) mod 12) intervals.

Definition soundsOnlyb (intervals : list Z) (rootPc : Z) (frets : list Z) : bool :=
  forallb (fun ok => ok)
    (mapi (fun fret i =>
             (fret <? 0)
             || existsb (Z.eqb ((Spec.fretPitchClass i fret - rootPc) mod 12)) intervals)
          frets).

(** The array index of the guitar string numbered [rootString] in
    cagedSystem.ts (6 is the low E string, 1 the high E string). *)
Definition stringIndex (rootString : Z) : nat := Z.to_nat (6 - rootString).

(** The shape labels [generateCAGEDVoicings] returns, in order: the CAGED
    order the code picks for the quality, without the G shape for F# m7,
    whose barre form reaches fret 16. *)
Definition expectedLabels (quality : string) (rootIndex : Z) : list ShapeType :=
  if String.eqb quality "m7" || String.eqb quality "min7" then
    if rootIndex =? 6 then [ShA; ShE; ShD; ShC] else CagedSystem.cagedOrderMinor
  else if String.eqb quality "m" || String.eqb quality "min" || String.eqb quality "minor"
  then CagedSystem.cagedOrderMinor
  else CagedSystem.cagedOrderMajor.

Fixpoint labels_eqb (a b : list ShapeType) : bool :=
  match a, b with
  | [], [] => true
  | x :: a', y :: b' => ShapeType_eqb x y && labels_eqb a' b'
  | _, _ => false
  end.

(** The array index of the root string of a shape; the seven tables of
    cagedSystem.ts give a shape the same root string. *)
Definition rootStringIndex (shape : ShapeType) : nat :=
  stringIndex (CagedSystem.b_rootString (CagedSystem.baseMajorShapes shape)).

(** What is checked of one generated voicing: only tones of the requested
    chord sound (of the major triad, when the quality names a chord without
    base shapes), the root string is fretted at [position] and sounds the
    root, and some string is fretted. *)
Definition voicingFacts (quality : string) (rootIndex : Z)
    (v : CagedSystem.ChordVoicing) : bool :=
  soundsOnlyb match chordTypeIntervals quality with
              | Some intervals => intervals
              | None => triad major
              end
              rootIndex (CagedSystem.cv_frets v)
  && match nth_error (CagedSystem.cv_frets v) (rootStringIndex (CagedSystem.cv_cagedShape v)) with
     | Some fret =>
         (fret =? CagedSystem.cv_position v)
         && (Spec.fretPitchClass (rootStringIndex (CagedSystem.cv_cagedShape v)) fret
             =? rootIndex)
     | None => false
     end
  && existsb (fun f => f >? 0) (CagedSystem.cv_frets v).

Definition generatorFacts (quality : string) (rootIndex : Z)
    (voicings : list CagedSystem.ChordVoicing) : bool :=
  forallb (voicingFacts quality rootIndex) voicings
  && labels_eqb (map CagedSystem.cv_cagedShape voicings) (expectedLabels quality rootIndex).

(** [fretCounts.get(fret) || 0] on the insertion-ordered map. *)
Fixpoint fretCount (fretCounts : list (Z * Z)) (fret : Z) : Z :=
  match fretCounts with
  | [] => 0
  | (k, c) :: rest => if k =? fret then c else fretCount rest fret
  end.

(** The lowest played string of an absolute fret pattern, as
    [determineCAGEDShape] reads it from [playedStrings[0]]. *)
Definition lowestPlayedString (absoluteFrets : list Z) : option nat :=
  match CagedSystemEnhanced.playedStringsOf absoluteFrets with
  | [] => None
  | first :: _ => Some (fst first)
  end.

End Harmony.

(* ================================================================== *)
(** * Properties *)

(** Case analysis on the first integer test of the goal. *)
Ltac case_Ztest :=
  match goal with
  | |- context [?a =? ?b] => destruct (Z.eqb_spec a b)
  | |- context [?a <? ?b] => destruct (Z.ltb_spec a b)
  | |- context [?a <=? ?b] => destruct (Z.leb_spec a b)
  | |- context [?a >? ?b] => rewrite (Z.gtb_ltb a b); destruct (Z.ltb_spec b a)
  | |- context [?a >=? ?b] => rewrite (Z.geb_leb a b); destruct (Z.leb_spec b a)
  end.

(* ------------------------------------------------------------------ *)
(** ** Arrays *)

Lemma indexOf_from_range (x : string) (l : list string) :
  forall i, indexOf_from i x l = -1 \/
            i <= indexOf_from i x l < i + Z.of_nat (List.length l).
Proof.
  induction l as [|y l IH]; intros i; simpl.
  - now left.
  - destruct (String.eqb y x).
    + right. lia.
    + destruct (IH (i + 1)) as [H|H]; [now left | right; lia].
Qed.

Lemma mapi_from_length {X Y : Type} (f : X -> nat -> Y) (l : list X) :
  forall k, List.length (mapi_from k f l) = List.length l.
Proof.
  induction l as [|x l IH]; intros k; simpl; [reflexivity | now rewrite IH].
Qed.

Lemma mapi_length {X Y : Type} (f : X -> nat -> Y) (l : list X) :
  List.length (mapi f l) = List.length l.
Proof. apply mapi_from_length. Qed.

Lemma mapi_from_nth_error {X Y : Type} (f : X -> nat -> Y) (l : list X) :
  forall k i, nth_error (mapi_from k f l) i
              = option_map (fun x => f x (k + i)%nat) (nth_error l i).
Proof.
  induction l as [|x l IH]; intros k [|i]; simpl; try reflexivity.
  - now rewrite Nat.add_0_r.
  - rewrite IH. now rewrite Nat.add_succ_r.
Qed.

Lemma mapi_nth_error {X Y : Type} (f : X -> nat -> Y) (l : list X) (i : nat) :
  nth_error (mapi f l) i = option_map (fun x => f x i) (nth_error l i).
Proof. unfold mapi. now rewrite mapi_from_nth_error. Qed.

Lemma Forall_nth_error {X : Type} (P : X -> Prop) (l : list X) :
  (forall i x, nth_error l i = Some x -> P x) -> Forall P l.
Proof.
  intros H. apply Forall_forall. intros x Hx.
  destruct (In_nth_error _ _ Hx) as [i Hi]. eauto.
Qed.

Lemma chroma_eqb_Some (a : option Z) (c : Z) :
  chroma_eqb a (Some c) = true -> a = Some c.
Proof.
  destruct a as [x|]; simpl; [|discriminate].
  intros H. apply Z.eqb_eq in H. now subst.
Qed.

(* ------------------------------------------------------------------ *)
(** ** Note arithmetic of cagedShapes.ts *)

Lemma pitchClassOf_range (root : string) (pc : Z) :
  Spec.pitchClassOf root = Some pc -> 0 <= pc < 12.
Proof.
  unfold Spec.pitchClassOf, indexOf.
  destruct (indexOf_from_range (CagedShapes.normalizeNoteName root) CagedShapes.chromatic 0)
    as [H|H].
  - rewrite H. discriminate.
  - destruct (_ =? -1); [discriminate|].
    intros E. injection E as <-. simpl in H. lia.
Qed.

Lemma findFret_range (pc : Z) (i : nat) :
  0 <= Spec.findFretForPitchClass pc i <= 11.
Proof.
  unfold Spec.findFretForPitchClass.
  pose proof (Z.mod_pos_bound (pc - Spec.tuningPitchClass i + 12) 12). lia.
Qed.

Lemma getNoteOnString_spec (root : string) (pc : Z) (i : nat) :
  Spec.pitchClassOf root = Some pc -> (i < 6)%nat ->
  CagedShapes.getNoteOnString root i = Ok (Spec.findFretForPitchClass pc i).
Proof.
  intros Hpc Hi. pose proof (pitchClassOf_range _ _ Hpc) as Hr.
  unfold Spec.pitchClassOf in Hpc. unfold CagedShapes.getNoteOnString.
  destruct (indexOf CagedShapes.chromatic (CagedShapes.normalizeNoteName root) =? -1) eqn:E;
    [discriminate|].
  injection Hpc as Hpc. rewrite Hpc.
  assert (Hne : (pc =? -1) = false) by (apply Z.eqb_neq; lia).
  unfold Spec.findFretForPitchClass.
  do 6 (destruct i as [|i];
        [ unfold CagedShapes.stringTuning, Spec.tuningPitchClass;
          simpl nth_error; simpl nth; cbv iota;
          change (indexOf CagedShapes.chromatic "E") with 4;
          change (indexOf CagedShapes.chromatic "A") with 9;
          change (indexOf CagedShapes.chromatic "D") with 2;
          change (indexOf CagedShapes.chromatic "G") with 7;
          change (indexOf CagedShapes.chromatic "B") with 11;
          simpl orb; cbv iota; f_equal; apply Z.rem_mod_nonneg; lia | ]).
  lia.
Qed.

Lemma getNoteOnString_inv (root : string) (i : nat) (fret : Z) :
  CagedShapes.getNoteOnString root i = Ok fret ->
  exists pc, Spec.pitchClassOf root = Some pc.
Proof.
  unfold CagedShapes.getNoteOnString, Spec.pitchClassOf.
  destruct (indexOf CagedShapes.chromatic (CagedShapes.normalizeNoteName root) =? -1).
  - rewrite orb_true_r. discriminate.
  - eauto.
Qed.

Lemma rootString_lt_6 (shape : ShapeType) (quality : Quality) :
  (CagedShapes.rootString (CagedShapes.CAGED_SHAPES shape quality) < 6)%nat.
Proof. destruct shape, quality; simpl; lia. Qed.

(** Without validation the code is the specification's steps 1 to 4. *)
Lemma transposeShape_unvalidated {T : Tonal} (root : string) (pc : Z)
    (shape : ShapeType) (quality : Quality) :
  Spec.pitchClassOf root = Some pc ->
  CagedShapes.transposeShape root shape quality false
  = Ok (Spec.transposeBySpec pc shape quality).
Proof.
  intros Hpc. unfold CagedShapes.transposeShape.
  rewrite (getNoteOnString_spec _ _ _ Hpc (rootString_lt_6 shape quality)).
  reflexivity.
Qed.

(** With validation the output is the unvalidated array, passed string by
    string through [validateString] when the oracle knows the chord. *)
Lemma transposeShape_validated {T : Tonal} (root : string) (pc : Z)
    (shape : ShapeType) (quality : Quality) :
  Spec.pitchClassOf root = Some pc ->
  let notes := MusicTheory.getChordNotes root (qualityName quality) in
  CagedShapes.transposeShape root shape quality true
  = Ok (if (List.length notes =? 0)%nat then Spec.transposeBySpec pc shape quality
        else mapi (CagedShapes.validateString notes) (Spec.transposeBySpec pc shape quality)).
Proof.
  intros Hpc notes. unfold CagedShapes.transposeShape.
  rewrite (getNoteOnString_spec _ _ _ Hpc (rootString_lt_6 shape quality)).
  fold notes. destruct (List.length notes =? 0)%nat; reflexivity.
Qed.

Lemma transposeShape_Ok_root {T : Tonal} root shape quality validate out :
  CagedShapes.transposeShape root shape quality validate = Ok out ->
  exists pc, Spec.pitchClassOf root = Some pc.
Proof.
  unfold CagedShapes.transposeShape.
  destruct (CagedShapes.getNoteOnString root _) as [fret|msg] eqn:E; [|discriminate].
  intros _. eapply getNoteOnString_inv; eauto.
Qed.

Lemma transposeBySpec_length (pc : Z) (shape : ShapeType) (quality : Quality) :
  List.length (Spec.transposeBySpec pc shape quality) = 6%nat.
Proof.
  unfold Spec.transposeBySpec. rewrite length_map. destruct shape, quality; reflexivity.
Qed.

Lemma transposeBySpec_bounds (pc : Z) (shape : ShapeType) (quality : Quality) :
  Forall (fun f => -4 <= f <= 14) (Spec.transposeBySpec pc shape quality).
Proof.
  unfold Spec.transposeBySpec.
  pose proof (findFret_range pc
                (CagedShapes.rootString (CagedShapes.CAGED_SHAPES shape quality))) as H.
  revert H.
  generalize (Spec.findFretForPitchClass pc
                (CagedShapes.rootString (CagedShapes.CAGED_SHAPES shape quality))).
  intros t Ht. rewrite Forall_map.
  destruct shape, quality;
    cbn [CagedShapes.CAGED_SHAPES CagedShapes.t_frets CagedShapes.rootFret].
  all: repeat (apply Forall_cons; [cbv beta; case_Ztest; lia|]); apply Forall_nil.
Qed.

(* ------------------------------------------------------------------ *)
(** ** The validation pass *)

Section Validation.
Context {T : Tonal}.
Hypothesis sound : OpenStringsSound T.

(** A string is either muted by the pass or kept unchanged, and a kept
    string sounds a note of the chord. *)
Lemma validateString_cases (notes : list string) (fret : Z) (i : nat) :
  (i < 6)%nat ->
  CagedShapes.validateString notes fret i = -1 \/
  (CagedShapes.validateString notes fret i = fret /\ 0 <= fret /\
   In (Some (Spec.fretPitchClass i fret)) (map Note_chroma notes)).
Proof.
  intros Hi. unfold CagedShapes.validateString.
  destruct (fret =? -1) eqn:E1; [now left|].
  destruct (fret <? 0) eqn:E2; [now left|].
  apply Z.ltb_ge in E2.
  assert (Hnotes :
    exists openNote,
      nth_error MusicTheory.STANDARD_TUNING i = Some openNote /\
      Spec.tuningPitchClass i = indexOf CagedShapes.chromatic openNote /\
      MusicTheory.fretsToNotes (array_set (repeat (-1) 6) i fret)
                               MusicTheory.STANDARD_TUNING
      = [Note_transpose (Some openNote) (Interval_fromSemitones fret)]).
  { do 6 (destruct i as [|i];
          [eexists; split; [reflexivity|]; split; [reflexivity|];
           cbn; rewrite E1; reflexivity|]).
    lia. }
  destruct Hnotes as (openNote & Hopen & Hpc & ->).
  rewrite (sound i openNote fret Hopen E2).
  destruct (existsb _ notes) eqn:Ex; simpl; [right | now left].
  split; [reflexivity|]. split; [assumption|].
  apply existsb_exists in Ex. destruct Ex as (t & Hin & Heq).
  apply chroma_eqb_Some in Heq.
  unfold Spec.fretPitchClass. rewrite Hpc, <- Heq. now apply in_map.
Qed.

Lemma validated_only_chord_tones (notes : list string) (l : list Z) :
  List.length l = 6%nat ->
  Spec.onlyChordTones (map Note_chroma notes) (mapi (CagedShapes.validateString notes) l).
Proof.
  intros Hlen i fret Hnth Hne.
  assert (Hi : (i < 6)%nat).
  { rewrite <- Hlen, <- (mapi_length (CagedShapes.validateString notes)).
    apply nth_error_Some. congruence. }
  rewrite mapi_nth_error in Hnth.
  destruct (nth_error l i) as [f|]; [|discriminate]. simpl in Hnth.
  injection Hnth as Hf.
  destruct (validateString_cases notes f i Hi) as [H|(H1 & H2 & H3)].
  - congruence.
  - rewrite H1 in Hf. now subst.
Qed.

End Validation.

(** Whatever tonal answers, the pass returns -1 or the fret it was given,
    and never a negative fret other than -1. *)
Lemma validateString_muted_or_kept {T : Tonal} (notes : list string) (fret : Z) (i : nat) :
  CagedShapes.validateString notes fret i = -1 \/
  (CagedShapes.validateString notes fret i = fret /\ 0 <= fret).
Proof.
  unfold CagedShapes.validateString.
  destruct (fret =? -1) eqn:E1; [now left|].
  destruct (fret <? 0) eqn:E2; [now left|].
  apply Z.ltb_ge in E2.
  destruct (MusicTheory.fretsToNotes _ _); [now left|].
  destruct (negb _); [now left | now right].
Qed.

Lemma validateString_negative {T : Tonal} (notes : list string) (fret : Z) (i : nat) :
  fret < 0 -> CagedShapes.validateString notes fret i = -1.
Proof.
  intros H. unfold CagedShapes.validateString.
  destruct (fret =? -1); [reflexivity|].
  destruct (fret <? 0) eqn:E; [reflexivity|]. apply Z.ltb_ge in E. lia.
Qed.

Lemma length_zero_iff_nil {X : Type} (l : list X) :
  (List.length l =? 0)%nat = false <-> l <> [].
Proof.
  destruct l; simpl; split; intros H; congruence.
Qed.

(* ------------------------------------------------------------------ *)
(** ** The model of tonal satisfies what the code relies on *)

Lemma leadingRun_repeat (c : ascii) (n : nat) :
  TonalModel.leadingRun c (TonalModel.repeatChar c n) = (Z.of_nat n, EmptyString).
Proof.
  induction n as [|n IH]; [reflexivity|].
  cbn [TonalModel.repeatChar TonalModel.leadingRun].
  rewrite Ascii.eqb_refl, IH. f_equal. lia.
Qed.

Lemma leadingRun_other (c d : ascii) (n : nat) :
  Ascii.eqb d c = false ->
  TonalModel.leadingRun c (TonalModel.repeatChar d n) = (0, TonalModel.repeatChar d n).
Proof.
  intros H. destruct n as [|n]; [reflexivity|].
  cbn [TonalModel.repeatChar TonalModel.leadingRun]. now rewrite H.
Qed.

Lemma noteFifths_nameOfFifths (g : Z) :
  TonalModel.noteFifths (TonalModel.nameOfFifths g) = Some g.
Proof.
  unfold TonalModel.noteFifths, TonalModel.nameOfFifths, TonalModel.tokenize.
  pose proof (Z.mod_pos_bound (g + 1) 7 ltac:(lia)) as Hm.
  pose proof (Z.div_mod (g + 1) 7 ltac:(lia)) as Hd.
  set (k := (g + 1) mod 7) in *. set (alt := (g + 1) / 7) in *.
  assert (Hletter :
    TonalModel.letterFifths
      (nth (Z.to_nat k) ["F"; "C"; "G"; "D"; "A"; "E"; "B"]%char "C"%char) = Some (k - 1)).
  { assert (Hk : k = 0 \/ k = 1 \/ k = 2 \/ k = 3 \/ k = 4 \/ k = 5 \/ k = 6) by lia.
    destruct Hk as [-> | [-> | [-> | [-> | [-> | [-> | ->]]]]]]; reflexivity. }
  rewrite Hletter.
  destruct (Z.geb_spec alt 0) as [Hge|Hlt].
  - rewrite leadingRun_repeat. rewrite Z2Nat.id by lia.
    destruct (Z.gtb_spec alt 0) as [Hpos|Hzero].
    + f_equal. lia.
    + assert (alt = 0) by lia. subst alt. replace ((g + 1) / 7) with 0 by lia.
      cbn. f_equal. lia.
  - rewrite leadingRun_other by reflexivity. cbn [Z.gtb Z.compare].
    rewrite leadingRun_repeat. rewrite Z2Nat.id by lia. f_equal. lia.
Qed.

Lemma intervalFifths_chroma (c : Z) :
  0 <= c < 12 -> (7 * TonalModel.intervalFifths c) mod 12 = c.
Proof.
  intros H.
  assert (Hc : c = 0 \/ c = 1 \/ c = 2 \/ c = 3 \/ c = 4 \/ c = 5 \/ c = 6 \/
               c = 7 \/ c = 8 \/ c = 9 \/ c = 10 \/ c = 11) by lia.
  repeat (destruct Hc as [-> | Hc]; [reflexivity|]). subst c. reflexivity.
Qed.

Lemma TonalModel_sound : OpenStringsSound TonalModel.tonal.
Proof.
  intros i openNote fret Hopen Hfret.
  cbn [Note_chroma Note_transpose Interval_fromSemitones TonalModel.tonal].
  assert (Hf : exists f, TonalModel.noteFifths openNote = Some f /\
                         (7 * f) mod 12 = indexOf CagedShapes.chromatic openNote).
  { do 6 (destruct i as [|i];
          [injection Hopen as <-; eexists; split; reflexivity|]).
    destruct i; discriminate. }
  destruct Hf as (f & Hnote & Hpc).
  unfold TonalModel.transpose, TonalModel.chroma. rewrite Hnote.
  rewrite noteFifths_nameOfFifths. f_equal.
  unfold TonalModel.fromSemitones.
  destruct (Z.ltb_spec fret 0) as [|_]; [lia|].
  rewrite Z.abs_eq by assumption.
  rewrite Z.mul_1_l, Z.mul_add_distr_l, Z.add_mod by lia.
  rewrite intervalFifths_chroma by (apply Z.mod_pos_bound; lia).
  rewrite Hpc. rewrite Z.add_mod_idemp_r by lia. reflexivity.
Qed.

(* ------------------------------------------------------------------ *)
(** ** The model against the repository's own tests *)

Example oracle_triads_and_sevenths :
  MusicTheory.getChordNotes (T := TonalModel.tonal) "C" "major" = ["C"; "E"; "G"] /\
  MusicTheory.getChordNotes (T := TonalModel.tonal) "A" "minor" = ["A"; "C"; "E"] /\
  MusicTheory.getChordNotes (T := TonalModel.tonal) "G" "7" = ["G"; "B"; "D"; "F"] /\
  MusicTheory.getChordNotes (T := TonalModel.tonal) "X" "invalid" = [].
Proof. repeat split. Qed.

Example open_strings_are_the_tuning :
  MusicTheory.fretsToNotes (T := TonalModel.tonal) [0; 0; 0; 0; 0; 0]
                           MusicTheory.STANDARD_TUNING
  = ["E"; "A"; "D"; "G"; "B"; "E"] /\
  List.length (MusicTheory.fretsToNotes (T := TonalModel.tonal) [-1; -1; 0; 2; 3; 2]
                                        MusicTheory.STANDARD_TUNING) = 4%nat.
Proof. split; reflexivity. Qed.

Example validateChordVoicing_tests :
  MusicTheory.validateChordVoicing (T := TonalModel.tonal) [-1; 3; 2; 0; 1; 0]
    ["C"; "E"; "G"] MusicTheory.STANDARD_TUNING = true /\
  MusicTheory.validateChordVoicing (T := TonalModel.tonal) [0; 2; 2; 1; 0; 0]
    ["E"; "G#"; "B"] MusicTheory.STANDARD_TUNING = true /\
  MusicTheory.validateChordVoicing (T := TonalModel.tonal) [-1; 3; 2; 0; 1; 0]
    ["D"; "F#"; "A"] MusicTheory.STANDARD_TUNING = false /\
  MusicTheory.validateChordVoicing (T := TonalModel.tonal) [-1; 3; 2; 0; 1; 0]
    [] MusicTheory.STANDARD_TUNING = false.
Proof. repeat split. Qed.

Example getNoteOnString_docstring :
  CagedShapes.getNoteOnString "C" 1 = Ok 3 /\
  CagedShapes.getNoteOnString "G" 0 = Ok 3 /\
  CagedShapes.getNoteOnString "F#" 0 = Ok 2.
Proof. repeat split. Qed.

Example toAbsoluteFrets_docstring :
  ChordDatabase.toAbsoluteFrets (mkChordPosition [1; 3; 3; 1; 1; 1] [] [1] 5 [])
  = [5; 7; 7; 5; 5; 5].
Proof. reflexivity. Qed.

(* ------------------------------------------------------------------ *)
(** ** Shape Transposer *)

(** C1.  For a root name that the note normalizer accepts, any shape and any
    of the two qualities, with validation on and a chord the oracle knows,
    [transposeShape] returns six values, each -1 or at least 0, and every
    non-muted value sounds, on its string in standard tuning, a pitch class
    of the chord.  Tonal is any implementation on which raising an open
    string by a fret raises its pitch class by as much. *)
Theorem transposeShape_sounds_only_chord_tones
    (T : Tonal) (sound : OpenStringsSound T)
    (root : string) (shape : ShapeType) (quality : Quality) (pc : Z) :
  Spec.pitchClassOf root = Some pc ->
  MusicTheory.getChordNotes root (qualityName quality) <> [] ->
  exists out,
    CagedShapes.transposeShape root shape quality true = Ok out /\
    List.length out = 6%nat /\
    Forall (fun fret => fret = -1 \/ 0 <= fret) out /\
    Spec.onlyChordTones (Spec.chordTones root (qualityName quality)) out.
Proof.
  intros Hpc Hnotes.
  rewrite (transposeShape_validated root pc shape quality Hpc).
  apply length_zero_iff_nil in Hnotes. rewrite Hnotes.
  eexists. split; [reflexivity|].
  split; [now rewrite mapi_length, transposeBySpec_length|].
  split.
  - apply Forall_nth_error. intros i x Hx. rewrite mapi_nth_error in Hx.
    destruct (nth_error _ i) as [f|]; [|discriminate]. injection Hx as <-.
    destruct (validateString_muted_or_kept
                (MusicTheory.getChordNotes root (qualityName quality)) f i)
      as [H|[H1 H2]]; [now left | right; lia].
  - apply validated_only_chord_tones; [assumption | apply transposeBySpec_length].
Qed.

Lemma transposeShape_sounds_only_chord_tones_witness :
  exists out,
    CagedShapes.transposeShape (T := TonalModel.tonal) "Bb" ShG minor true = Ok out /\
    List.length out = 6%nat /\
    Forall (fun fret => fret = -1 \/ 0 <= fret) out /\
    Spec.onlyChordTones (Spec.chordTones (T := TonalModel.tonal) "Bb" "minor") out.
Proof.
  apply (transposeShape_sounds_only_chord_tones
           TonalModel.tonal TonalModel_sound "Bb" ShG minor 10).
  - reflexivity.
  - vm_compute. discriminate.
Defined.

(** C3.  With validation disabled, [transposeShape] on an accepted root is
    the specification's algorithm: the target root fret is
    (pitch class of the root - pitch class of the root string's open note
    + 12) mod 12, a value from 0 to 11; the offset is that fret minus the
    template's root fret; a muted template entry stays -1 and every other
    entry is the template entry plus the offset. *)
Theorem transposeShape_unvalidated_is_spec_algorithm
    (T : Tonal) (root : string) (shape : ShapeType) (quality : Quality) (pc : Z) :
  Spec.pitchClassOf root = Some pc ->
  let template := CagedShapes.CAGED_SHAPES shape quality in
  let targetRootFret :=
    (pc - Spec.tuningPitchClass (CagedShapes.rootString template) + 12) mod 12 in
  let offset := targetRootFret - CagedShapes.rootFret template in
  0 <= targetRootFret <= 11 /\
  CagedShapes.getNoteOnString root (CagedShapes.rootString template) = Ok targetRootFret /\
  exists out,
    CagedShapes.transposeShape root shape quality false = Ok out /\
    List.length out = 6%nat /\
    forall (i : nat) (entry : Z),
      nth_error (CagedShapes.t_frets template) i = Some entry ->
      nth_error out i = Some (if entry =? -1 then -1 else entry + offset).
Proof.
  intros Hpc template targetRootFret offset.
  split; [apply findFret_range|].
  split; [apply getNoteOnString_spec; [assumption | apply rootString_lt_6]|].
  exists (Spec.transposeBySpec pc shape quality).
  split; [now apply transposeShape_unvalidated|].
  split; [apply transposeBySpec_length|].
  intros i entry Hentry. unfold Spec.transposeBySpec.
  rewrite nth_error_map. fold template. rewrite Hentry. reflexivity.
Qed.

Lemma transposeShape_unvalidated_is_spec_algorithm_witness :
  0 <= (6 - Spec.tuningPitchClass 0 + 12) mod 12 <= 11 /\
  CagedShapes.getNoteOnString "Gb" 0 = Ok ((6 - Spec.tuningPitchClass 0 + 12) mod 12) /\
  exists out,
    CagedShapes.transposeShape (T := TonalModel.tonal) "Gb" ShG major false = Ok out /\
    List.length out = 6%nat /\
    forall (i : nat) (entry : Z),
      nth_error [3; 2; 0; 0; 0; 3] i = Some entry ->
      nth_error out i
      = Some (if entry =? -1 then -1
              else entry + ((6 - Spec.tuningPitchClass 0 + 12) mod 12 - 3)).
Proof.
  apply (transposeShape_unvalidated_is_spec_algorithm TonalModel.tonal "Gb" ShG major 6).
  reflexivity.
Defined.

(** C4.  The four scenarios of the specification: C major in the C shape,
    C major in the A shape, G major in the E shape and D minor in the D
    shape.  Without validation the outputs do not depend on tonal at all;
    with validation (the default) they are the same on the model of tonal. *)
Theorem transposeShape_scenarios :
  (forall T : Tonal,
      CagedShapes.transposeShape "C" ShC major false = Ok [-1; 3; 2; 0; 1; 0] /\
      CagedShapes.transposeShape "C" ShA major false = Ok [-1; 3; 5; 5; 5; 3] /\
      CagedShapes.transposeShape "G" ShE major false = Ok [3; 5; 5; 4; 3; 3] /\
      CagedShapes.transposeShape "D" ShD minor false = Ok [-1; -1; 0; 2; 3; 1]) /\
  CagedShapes.transposeShape (T := TonalModel.tonal) "C" ShC major true
  = Ok [-1; 3; 2; 0; 1; 0] /\
  CagedShapes.transposeShape (T := TonalModel.tonal) "C" ShA major true
  = Ok [-1; 3; 5; 5; 5; 3] /\
  CagedShapes.transposeShape (T := TonalModel.tonal) "G" ShE major true
  = Ok [3; 5; 5; 4; 3; 3] /\
  CagedShapes.transposeShape (T := TonalModel.tonal) "D" ShD minor true
  = Ok [-1; -1; 0; 2; 3; 1].
Proof.
  split; [intros T|]; repeat split; reflexivity.
Qed.

(* ------------------------------------------------------------------ *)
(** ** From absolute frets to a position and back *)

Lemma Math_min_spec (l : list Z) :
  forall x, Math_min x l <= x /\ (forall y, In y l -> Math_min x l <= y) /\
            In (Math_min x l) (x :: l).
Proof.
  unfold Math_min. induction l as [|z l IH]; intros x; simpl.
  - split; [lia|]. split; [intros y []| now left].
  - destruct (IH (Z.min x z)) as (H1 & H2 & H3).
    split; [lia|]. split.
    + intros y [<-|Hy]; [lia | now apply H2].
    + destruct H3 as [H3|H3]; [|now right; right].
      rewrite <- H3. destruct (Z.min_spec x z) as [[_ ->]|[_ ->]]; [now left | now right; left].
Qed.

Lemma Math_max_spec (l : list Z) :
  forall x, x <= Math_max x l /\ (forall y, In y l -> y <= Math_max x l).
Proof.
  unfold Math_max. induction l as [|z l IH]; intros x; simpl.
  - split; [lia | intros y []].
  - destruct (IH (Z.max x z)) as (H1 & H2).
    split; [lia|]. intros y [<-|Hy]; [lia | now apply H2].
Qed.

Section Positions.
Import CagedSystemEnhanced ChordDatabase.
Variables (absoluteFrets : list Z) (shape : ShapeType) (quality : Quality).

Let position := absoluteFretsToChordPosition absoluteFrets shape quality.

(** [baseFret] is 1 or the lowest fretted position, so it is at least 1 and
    no fretted string lies below it. *)
Lemma position_baseFret :
  1 <= baseFret position /\
  forall f, In f absoluteFrets -> 0 < f -> baseFret position <= f.
Proof.
  subst position. unfold absoluteFretsToChordPosition. cbn [baseFret].
  destruct (filter (fun f => f >? 0) absoluteFrets) as [|p rest] eqn:E.
  - split; [lia|]. intros f Hf Hpos.
    assert (In f []) as []. rewrite <- E. apply filter_In.
    split; [assumption | now apply Z.gtb_lt].
  - destruct (Math_min_spec rest p) as (H1 & H2 & H3).
    assert (Hall : forall y, In y (p :: rest) -> 0 < y).
    { intros y Hy. rewrite <- E in Hy. apply filter_In in Hy.
      destruct Hy as [_ Hy]. now apply Z.gtb_lt in Hy. }
    split; [specialize (Hall _ H3); lia|].
    intros f Hf Hpos.
    assert (Hin : In f (p :: rest)).
    { rewrite <- E. apply filter_In. split; [assumption | now apply Z.gtb_lt]. }
    destruct Hin as [<-|Hin]; [assumption | now apply H2].
Qed.

Lemma position_frets :
  frets position
  = map (fun fret =>
           if fret =? -1 then -1
           else if fret =? 0 then 0
           else if baseFret position =? 1 then fret
           else fret - baseFret position + 1)
        absoluteFrets.
Proof. reflexivity. Qed.

(** A relative fret is -1 for a muted string, 0 for an open one, and between
    1 and the absolute fret for a fretted one. *)
Lemma position_frets_bounds (hi : Z) :
  Forall (fun f => -1 <= f <= hi) absoluteFrets ->
  Forall (fun r => -1 <= r <= hi) (frets position).
Proof.
  intros Habs. rewrite position_frets. apply Forall_map.
  destruct position_baseFret as [HB Hmin].
  rewrite Forall_forall in *. intros f Hf. specialize (Habs f Hf). cbv beta.
  repeat case_Ztest; try lia.
  specialize (Hmin f Hf). lia.
Qed.

Lemma position_roundtrip :
  Forall (fun f => -1 <= f) absoluteFrets ->
  toAbsoluteFrets position = absoluteFrets.
Proof.
  intros Habs. unfold toAbsoluteFrets. rewrite position_frets.
  destruct position_baseFret as [HB Hmin].
  rewrite Forall_forall in Habs.
  destruct (Z.leb_spec (baseFret position) 1) as [Hle|Hgt].
  - rewrite <- (map_id absoluteFrets) at 2. apply map_ext_in. intros f Hf.
    repeat case_Ztest; lia.
  - rewrite map_map. rewrite <- (map_id absoluteFrets) at 2. apply map_ext_in.
    intros f Hf. specialize (Habs f Hf). specialize (Hmin f Hf). cbv beta.
    destruct (Z.eqb_spec f (-1)) as [->|H1]; [reflexivity|].
    destruct (Z.eqb_spec f 0) as [->|H2]; [reflexivity|].
    destruct (Z.eqb_spec (baseFret position) 1); [lia|].
    repeat case_Ztest; lia.
Qed.

End Positions.

(* ------------------------------------------------------------------ *)
(** ** The output of the transposer, whatever the flag *)

Lemma existsb_below_false (l : list Z) :
  existsb (fun fret => fret <? -1) l = false <-> Forall (fun f => -1 <= f) l.
Proof.
  rewrite Forall_forall. split.
  - intros H f Hf. destruct (Z.ltb_spec f (-1)) as [Hlt|]; [|assumption].
    assert (existsb (fun fret => fret <? -1) l = true); [|congruence].
    apply existsb_exists. exists f. split; [assumption | now apply Z.ltb_lt].
  - intros H. destruct (existsb _ l) eqn:E; [|reflexivity].
    apply existsb_exists in E. destruct E as (f & Hf & Hlt).
    apply Z.ltb_lt in Hlt. specialize (H f Hf). lia.
Qed.

Lemma mapi_validateString_bounds {T : Tonal} (notes : list string) (l : list Z) (hi : Z) :
  Forall (fun f => f <= hi) l -> -1 <= hi ->
  Forall (fun f => -1 <= f <= hi) (mapi (CagedShapes.validateString notes) l).
Proof.
  intros Hl Hhi. apply Forall_nth_error. intros i x Hx.
  rewrite mapi_nth_error in Hx.
  destruct (nth_error l i) as [f|] eqn:E; [|discriminate]. injection Hx as <-.
  rewrite Forall_forall in Hl. specialize (Hl f (nth_error_In _ _ E)).
  destruct (validateString_muted_or_kept notes f i) as [->|[-> H]]; lia.
Qed.

(** Every array the transposer returns has six entries, none above 14 (a
    template entry is at most 3 and the offset at most 11). *)
Lemma transposeShape_shape {T : Tonal} root shape quality validate out :
  CagedShapes.transposeShape root shape quality validate = Ok out ->
  List.length out = 6%nat /\ Forall (fun f => f <= 14) out.
Proof.
  intros H. destruct (transposeShape_Ok_root _ _ _ _ _ H) as [pc Hpc].
  pose proof (transposeBySpec_bounds pc shape quality) as Hb.
  pose proof (transposeBySpec_length pc shape quality) as Hl.
  assert (Hb' : Forall (fun f => f <= 14) (Spec.transposeBySpec pc shape quality)).
  { eapply Forall_impl; [|exact Hb]. cbv beta. intros; lia. }
  destruct validate.
  - rewrite (transposeShape_validated _ _ _ _ Hpc) in H. injection H as <-.
    destruct (List.length _ =? 0)%nat; [now split|].
    split; [now rewrite mapi_length|].
    eapply Forall_impl; [|apply (mapi_validateString_bounds _ _ 14 Hb'); lia].
    cbv beta. intros; lia.
  - rewrite (transposeShape_unvalidated _ _ _ _ Hpc) in H. injection H as <-. now split.
Qed.

(* ------------------------------------------------------------------ *)
(** ** Template generation in the Voicing Assembler *)

Section Assembler.
Import CagedSystemEnhanced ChordDatabase.
Context {T : Tonal} {D : ChordsDb}.

(** A round of the loop only ever appends to [dbVoicings]. *)
Lemma addMissingShape_app root qm minF maxF present acc shape :
  addMissingShape root qm minF maxF present acc shape
  = acc ++ addMissingShape root qm minF maxF present [] shape.
Proof.
  unfold addMissingShape.
  repeat match goal with
         | |- context [if ?b then _ else _] => destruct b
         | |- context [match ?r with Ok _ => _ | Throw _ => _ end] => destruct r
         end; now rewrite ?app_nil_r.
Qed.

Lemma addMissingShape_fold root qm minF maxF present shapes :
  forall acc,
    fold_left (addMissingShape root qm minF maxF present) shapes acc
    = acc ++ flat_map (addMissingShape root qm minF maxF present []) shapes.
Proof.
  induction shapes as [|s shapes IH]; intros acc; simpl.
  - now rewrite app_nil_r.
  - rewrite IH, addMissingShape_app, app_assoc. reflexivity.
Qed.

(** What a round appends: nothing, or the position of the validated
    transposition of a shape that was missing. *)
Lemma addMissingShape_cases root qm minF maxF present shape :
  addMissingShape root qm minF maxF present [] shape = [] \/
  exists out,
    existsb (ShapeType_eqb shape) present = false /\
    CagedShapes.transposeShape root shape qm true = Ok out /\
    Forall (fun f => -1 <= f) out /\
    minF <= baseFret (absoluteFretsToChordPosition out shape qm) <= maxF /\
    addMissingShape root qm minF maxF present [] shape
    = [absoluteFretsToChordPosition out shape qm].
Proof.
  unfold addMissingShape.
  destruct (existsb (ShapeType_eqb shape) present) eqn:Ep; [now left|].
  destruct (CagedShapes.transposeShape root shape qm true) as [out|] eqn:Et; [|now left].
  destruct (existsb (fun fret => fret <? -1) out) eqn:E1; [now left|].
  destruct (existsb _ (frets _)) eqn:E2; [now left|].
  destruct (_ && _) eqn:E3; [|now left].
  right. exists out. apply andb_true_iff in E3. destruct E3 as [E3 E4].
  rewrite Z.geb_leb in E3. apply Z.leb_le in E3. apply Z.leb_le in E4.
  apply existsb_below_false in E1. repeat split; auto.
Qed.

Lemma addMissingShape_length root qm minF maxF present shapes :
  (List.length (flat_map (addMissingShape root qm minF maxF present []) shapes)
   <= List.length shapes)%nat.
Proof.
  induction shapes as [|s shapes IH]; simpl; [lia|].
  rewrite length_app.
  destruct (addMissingShape_cases root qm minF maxF present s) as [->|(out & _ & _ & _ & _ & ->)];
    simpl; lia.
Qed.

(** The rounds append in the order of the shapes they are run for: what the
    loop appends is one position for each shape of a selection of [shapes],
    in the order of [shapes]. *)
Lemma addMissingShape_in_order root qm minF maxF present shapes :
  exists keep,
    Forall2 (fun shape pos => addMissingShape root qm minF maxF present [] shape = [pos])
            (filter keep shapes)
            (flat_map (addMissingShape root qm minF maxF present []) shapes).
Proof.
  exists (fun shape =>
            negb (List.length (addMissingShape root qm minF maxF present [] shape) =? 0)%nat).
  induction shapes as [|s shapes IH]; cbn [filter flat_map]; [constructor|].
  destruct (addMissingShape_cases root qm minF maxF present s)
    as [E|(out & _ & _ & _ & _ & E)]; rewrite E; cbn [List.length Nat.eqb negb app].
  - exact IH.
  - constructor; [exact E | exact IH].
Qed.

End Assembler.

(** C5, as the code has it.  With validation on and a chord the oracle
    knows, a transposition whose offset drives playable template strings
    below the nut is not rejected: [transposeShape] returns an array in which
    those strings are muted (-1) and no value is below -1.  The Assembler's
    test for a fret below -1 therefore never fires, and a missing shape is
    left out at this point only when its baseFret is outside
    [minFret, maxFret]. *)
Theorem negative_frets_are_muted_not_rejected
    (T : Tonal) (root : string) (shape : ShapeType) (quality : Quality) (pc : Z) :
  Spec.pitchClassOf root = Some pc ->
  MusicTheory.getChordNotes root (qualityName quality) <> [] ->
  let template := CagedShapes.CAGED_SHAPES shape quality in
  let offset :=
    Spec.findFretForPitchClass pc (CagedShapes.rootString template)
    - CagedShapes.rootFret template in
  exists out,
    CagedShapes.transposeShape root shape quality true = Ok out /\
    existsb (fun fret => fret <? -1) out = false /\
    (forall (i : nat) (entry : Z),
        nth_error (CagedShapes.t_frets template) i = Some entry ->
        entry <> -1 -> entry + offset < 0 ->
        nth_error out i = Some (-1)) /\
    (forall (minFret maxFret : Z) (presentShapes : list ShapeType)
            (dbVoicings : list ChordPosition),
        existsb (ShapeType_eqb shape) presentShapes = false ->
        let chordPosition :=
          CagedSystemEnhanced.absoluteFretsToChordPosition out shape quality in
        CagedSystemEnhanced.addMissingShape root quality minFret maxFret
                                            presentShapes dbVoicings shape
        = if (baseFret chordPosition >=? minFret) && (baseFret chordPosition <=? maxFret)
          then dbVoicings ++ [chordPosition]
          else dbVoicings).
Proof.
  intros Hpc Hnotes template offset.
  pose proof (transposeShape_validated root pc shape quality Hpc) as Hout.
  cbv zeta in Hout. apply length_zero_iff_nil in Hnotes. rewrite Hnotes in Hout.
  set (notes := MusicTheory.getChordNotes root (qualityName quality)) in *.
  set (out := mapi (CagedShapes.validateString notes)
                   (Spec.transposeBySpec pc shape quality)) in *.
  assert (Hlow : Forall (fun f => -1 <= f) out).
  { pose proof (transposeBySpec_bounds pc shape quality) as Hb.
    assert (Hb' : Forall (fun f => f <= 14) (Spec.transposeBySpec pc shape quality)).
    { eapply Forall_impl; [|exact Hb]. cbv beta. intros; lia. }
    eapply Forall_impl; [|apply (mapi_validateString_bounds notes _ 14 Hb'); lia].
    cbv beta. intros; lia. }
  exists out. split; [assumption|].
  split; [now apply existsb_below_false|].
  split.
  - intros i entry Hentry Hplay Hneg. subst out.
    rewrite mapi_nth_error. unfold Spec.transposeBySpec.
    rewrite nth_error_map. fold template. rewrite Hentry. cbn [option_map].
    f_equal. destruct (Z.eqb_spec entry (-1)) as [|_]; [contradiction|].
    apply validateString_negative. exact Hneg.
  - intros minFret maxFret presentShapes dbVoicings Habsent chordPosition.
    unfold CagedSystemEnhanced.addMissingShape. rewrite Habsent, Hout.
    rewrite (proj2 (existsb_below_false out) Hlow).
    fold chordPosition.
    assert (Hrel : Forall (fun f => -1 <= f) (frets chordPosition)).
    { assert (Hhi : Forall (fun f => -1 <= f <= 14) out).
      { destruct (transposeShape_shape _ _ _ _ _ Hout) as [_ Hhi].
        rewrite Forall_forall in *. intros f Hf.
        specialize (Hlow f Hf). specialize (Hhi f Hf). lia. }
      pose proof (position_frets_bounds out shape quality 14 Hhi) as Hr.
      eapply Forall_impl; [|exact Hr]. cbv beta. intros; lia. }
    rewrite (proj2 (existsb_below_false _) Hrel). reflexivity.
Qed.

Lemma negative_frets_are_muted_not_rejected_witness :
  exists out,
    CagedShapes.transposeShape (T := TonalModel.tonal) "F" ShG major true = Ok out /\
    existsb (fun fret => fret <? -1) out = false /\
    (forall (i : nat) (entry : Z),
        nth_error [3; 2; 0; 0; 0; 3] i = Some entry ->
        entry <> -1 -> entry + (Spec.findFretForPitchClass 5 0 - 3) < 0 ->
        nth_error out i = Some (-1)) /\
    (forall (minFret maxFret : Z) (presentShapes : list ShapeType)
            (dbVoicings : list ChordPosition),
        existsb (ShapeType_eqb ShG) presentShapes = false ->
        let chordPosition :=
          CagedSystemEnhanced.absoluteFretsToChordPosition out ShG major in
        CagedSystemEnhanced.addMissingShape (T := TonalModel.tonal) "F" major minFret maxFret
                                            presentShapes dbVoicings ShG
        = if (baseFret chordPosition >=? minFret) && (baseFret chordPosition <=? maxFret)
          then dbVoicings ++ [chordPosition]
          else dbVoicings).
Proof.
  apply (negative_frets_are_muted_not_rejected TonalModel.tonal "F" ShG major 5).
  - reflexivity.
  - vm_compute. discriminate.
Defined.

(** C5 fails as stated.  F on the low E string is fret 1, two frets below
    the G template's root: the open D, G and B strings of the template would
    land on fret -2.  The call is not rejected; it returns the array with
    those three strings muted.  For F# minor the G template keeps all chord
    tones after its two open strings are driven to -1, and the Assembler
    returns that voicing. *)
Lemma G_shape_below_the_nut_is_returned :
  CagedShapes.getNoteOnString "F" 0 = Ok 1 /\
  CagedShapes.transposeShape (T := TonalModel.tonal) "F" ShG major false
  = Ok [1; 0; -2; -2; -2; 1] /\
  CagedShapes.transposeShape (T := TonalModel.tonal) "F" ShG major true
  = Ok [1; 0; -1; -1; -1; 1] /\
  CagedShapes.getNoteOnString "F#" 0 = Ok 2 /\
  CagedShapes.transposeShape (T := TonalModel.tonal) "F#" ShG minor true
  = Ok [2; 0; -1; -1; 2; 2] /\
  existsb (ShapeType_eqb ShG)
    (map (fun p => CagedSystemEnhanced.determineCAGEDShape (frets p) (baseFret p))
         (ChordDatabase.getChordVoicingsFromDB (D := SampleDb.db) "F#" "minor")) = false /\
  In (CagedSystemEnhanced.absoluteFretsToChordPosition [2; 0; -1; -1; 2; 2] ShG minor)
     (CagedSystemEnhanced.collectPositions (T := TonalModel.tonal) "F#" "minor" 0 15
        (ChordDatabase.getChordVoicingsFromDB (D := SampleDb.db) "F#" "minor")) /\
  In ([1; 0; -1; -1; 1; 1], 2)
     (map (fun v => (CagedSystemEnhanced.ev_frets v, CagedSystemEnhanced.ev_baseFret v))
          (CagedSystemEnhanced.getValidatedCAGEDVoicings
             (T := TonalModel.tonal) (D := SampleDb.db) "F#" "minor"
             CagedSystemEnhanced.defaultOptions)).
Proof.
  repeat split; try reflexivity.
  - vm_compute. do 3 right. now left.
  - vm_compute. do 3 right. now left.
Qed.

(* ------------------------------------------------------------------ *)
(** ** Sorting *)

Lemma sort_insert_perm {X : Type} (cmp : X -> X -> Z) (x : X) (l : list X) :
  Permutation (sort_insert cmp x l) (x :: l).
Proof.
  induction l as [|y l IH]; simpl; [reflexivity|].
  destruct (cmp x y <=? 0); [reflexivity|].
  rewrite IH. apply perm_swap.
Qed.

Lemma Array_sort_perm {X : Type} (cmp : X -> X -> Z) (l : list X) :
  Permutation (Array_sort cmp l) l.
Proof.
  unfold Array_sort. induction l as [|x l IH]; simpl; [reflexivity|].
  rewrite sort_insert_perm. now constructor.
Qed.

Section SortOrder.
Variables (X : Type) (cmp : X -> X -> Z).
Hypothesis cmp_total : forall a b, cmp a b <= 0 \/ cmp b a <= 0.
Hypothesis cmp_trans : forall a b c, cmp a b <= 0 -> cmp b c <= 0 -> cmp a c <= 0.

Let before (a b : X) : Prop := cmp a b <= 0.

Lemma sort_insert_sorted (x : X) (l : list X) :
  StronglySorted before l -> StronglySorted before (sort_insert cmp x l).
Proof.
  induction 1 as [|y l Hl IH Hy]; simpl.
  - constructor; constructor.
  - destruct (Z.leb_spec (cmp x y) 0) as [Hxy|Hxy].
    + constructor; [constructor; assumption|].
      constructor; [exact Hxy|].
      rewrite Forall_forall in *. intros z Hz.
      apply (cmp_trans x y z Hxy). now apply Hy.
    + constructor; [exact IH|].
      rewrite Forall_forall in *. intros z Hz.
      apply (Permutation_in _ (sort_insert_perm cmp x l)) in Hz.
      destruct Hz as [<-|Hz]; [|now apply Hy].
      destruct (cmp_total x y); [lia|assumption].
Qed.

Lemma Array_sort_sorted (l : list X) : StronglySorted before (Array_sort cmp l).
Proof.
  unfold Array_sort. induction l as [|x l IH]; simpl.
  - constructor.
  - now apply sort_insert_sorted.
Qed.

End SortOrder.

(** The comparator of [sortByDifficulty] is a lexicographic order: voicings
    with an open string first, then fewer barres, then the lower baseFret. *)
Lemma difficultyCompare_total (a b : ChordPosition) :
  ChordDatabase.difficultyCompare a b <= 0 \/ ChordDatabase.difficultyCompare b a <= 0.
Proof.
  unfold ChordDatabase.difficultyCompare.
  destruct (existsb _ (frets a)), (existsb _ (frets b)); simpl; try lia;
    destruct (Nat.eqb_spec (List.length (barres a)) (List.length (barres b))) as [E|E];
    simpl; try (rewrite E, Nat.eqb_refl; simpl; lia);
    destruct (Nat.eqb_spec (List.length (barres b)) (List.length (barres a)));
    simpl; try lia; congruence.
Qed.

Lemma difficultyCompare_trans (a b c : ChordPosition) :
  ChordDatabase.difficultyCompare a b <= 0 ->
  ChordDatabase.difficultyCompare b c <= 0 ->
  ChordDatabase.difficultyCompare a c <= 0.
Proof.
  unfold ChordDatabase.difficultyCompare.
  destruct (existsb _ (frets a)), (existsb _ (frets b)), (existsb _ (frets c));
    simpl; try lia;
    destruct (Nat.eqb_spec (List.length (barres a)) (List.length (barres b)));
    destruct (Nat.eqb_spec (List.length (barres b)) (List.length (barres c)));
    destruct (Nat.eqb_spec (List.length (barres a)) (List.length (barres c)));
    simpl; lia.
Qed.

Lemma sortByDifficulty_sorted (voicings : list ChordPosition) :
  StronglySorted (fun a b => ChordDatabase.difficultyCompare a b <= 0)
                 (ChordDatabase.sortByDifficulty voicings).
Proof.
  apply Array_sort_sorted.
  - apply difficultyCompare_total.
  - apply difficultyCompare_trans.
Qed.

Lemma slice0_length {X : Type} (l : list X) (n : Z) :
  0 <= n -> (List.length (slice0 l n) <= Z.to_nat n)%nat.
Proof.
  intros Hn. unfold slice0. destruct (Z.ltb_spec n 0); [lia|].
  rewrite length_firstn. lia.
Qed.

Lemma slice0_In {X : Type} (l : list X) (n : Z) (x : X) :
  In x (slice0 l n) -> In x l.
Proof.
  assert (Hfirst : forall k, In x (firstn k l) -> In x l).
  { intros k H. rewrite <- (firstn_skipn k l). apply in_or_app. now left. }
  unfold slice0. destruct (n <? 0); apply Hfirst.
Qed.

(* ------------------------------------------------------------------ *)
(** ** Voicing Assembler *)

Lemma chroma_eqb_eq (a b : option Z) : chroma_eqb a b = true -> a = b.
Proof.
  destruct a, b; simpl; try discriminate; try reflexivity.
  intros H. apply Z.eqb_eq in H. now subst.
Qed.

Lemma in_concat_mapi_from {X Y : Type} (g : X -> nat -> list Y) (y : Y) (l : list X) :
  forall k, In y (List.concat (mapi_from k g l)) ->
            exists i x, nth_error l i = Some x /\ In y (g x (k + i)%nat).
Proof.
  induction l as [|x l IH]; intros k; simpl; [intros []|].
  intros H. apply in_app_or in H. destruct H as [H|H].
  - exists 0%nat, x. rewrite Nat.add_0_r. now split.
  - destruct (IH _ H) as (i & x' & Hi & Hy).
    exists (S i), x'. rewrite Nat.add_succ_r. now split.
Qed.

Lemma fretsToNotes_In {T : Tonal} (frets : list Z) (tuning : list string) (n : string) :
  In n (MusicTheory.fretsToNotes frets tuning) ->
  exists i fret,
    nth_error frets i = Some fret /\ fret <> -1 /\
    n = Note_transpose (nth_error tuning i) (Interval_fromSemitones fret).
Proof.
  unfold MusicTheory.fretsToNotes, mapi. intros H.
  apply in_concat_mapi_from in H. destruct H as (i & fret & Hi & Hn).
  cbv beta in Hn. rewrite Nat.add_0_l in Hn.
  destruct (Z.eqb_spec fret (-1)); [destruct Hn|].
  destruct Hn as [<-|[]]. now exists i, fret.
Qed.

(** What [validateChordVoicing] checks: every expected note is sounded. *)
Lemma validateChordVoicing_true {T : Tonal} (frets : list Z) (expectedNotes : list string) :
  MusicTheory.validateChordVoicing frets expectedNotes MusicTheory.STANDARD_TUNING = true ->
  forall note, In note expectedNotes -> Spec.soundsNote frets note.
Proof.
  unfold MusicTheory.validateChordVoicing.
  destruct (List.length expectedNotes =? 0)%nat; [discriminate|].
  intros H note Hnote. rewrite forallb_forall in H. specialize (H note Hnote).
  apply existsb_exists in H. destruct H as (played & Hplayed & Heq).
  apply chroma_eqb_eq in Heq.
  apply fretsToNotes_In in Hplayed. destruct Hplayed as (i & fret & Hi & Hne & ->).
  now exists i, fret.
Qed.

(** For the two template qualities the transposer asks the oracle about the
    same chord as the Assembler did. *)
Lemma getChordNotes_mapped {T : Tonal} (root quality : string) (qm : Quality) :
  CagedSystemEnhanced.qualityMappedOf quality = Some qm ->
  MusicTheory.getChordNotes root quality <> [] ->
  MusicTheory.getChordNotes root (qualityName qm) = MusicTheory.getChordNotes root quality.
Proof.
  unfold CagedSystemEnhanced.qualityMappedOf.
  destruct (String.eqb_spec quality "") as [->|_].
  { intros [= <-]. unfold MusicTheory.getChordNotes, qualityName.
    change (MusicTheory.qualityMap "major") with (Some "").
    change (MusicTheory.qualityMap "") with (@None string). cbv beta zeta iota.
    destruct (Chord_empty (Chord_get (root ++ "")%string)); simpl; [congruence | reflexivity]. }
  destruct (String.eqb_spec quality "major") as [->|_]; [now intros [= <-]|].
  destruct (String.eqb_spec quality "m") as [->|_].
  { intros [= <-]. unfold MusicTheory.getChordNotes, qualityName.
    change (MusicTheory.qualityMap "minor") with (Some "m").
    change (MusicTheory.qualityMap "m") with (@None string). cbv beta zeta iota.
    destruct (Chord_empty (Chord_get (root ++ "m")%string)); simpl; [congruence | reflexivity]. }
  destruct (String.eqb_spec quality "minor") as [->|_]; [now intros [= <-]|].
  discriminate.
Qed.

Section AssemblerResults.
Import CagedSystemEnhanced ChordDatabase.
Context {T : Tonal} {D : ChordsDb}.
Variables (root quality : string).

(** The positions that become voicings: the library entries in the fret
    range, in [sortByDifficulty] order, then at most one template position
    per shape the library lacks, in the order C, A, G, E, D. *)
Lemma collectPositions_split (minF maxF : Z) (db0 : list ChordPosition) :
  let library := sortByDifficulty (filterVoicingsByPosition db0 minF maxF) in
  let present := map (fun p => determineCAGEDShape (frets p) (baseFret p)) library in
  exists generated,
    collectPositions root quality minF maxF db0 = library ++ generated /\
    (List.length generated <= 5)%nat /\
    forall pos, In pos generated ->
      exists qm shape out,
        qualityMappedOf quality = Some qm /\
        existsb (ShapeType_eqb shape) present = false /\
        CagedShapes.transposeShape root shape qm true = Ok out /\
        Forall (fun f => -1 <= f) out /\
        minF <= baseFret pos <= maxF /\
        pos = absoluteFretsToChordPosition out shape qm.
Proof.
  intros library present. unfold collectPositions. fold library. fold present.
  destruct (qualityMappedOf quality) as [qm|].
  - rewrite addMissingShape_fold. eexists. split; [reflexivity|].
    split; [apply (addMissingShape_length root qm minF maxF present allShapes)|].
    intros pos Hpos. apply in_flat_map in Hpos. destruct Hpos as (shape & _ & Hpos).
    destruct (addMissingShape_cases root qm minF maxF present shape)
      as [E|(out & H1 & H2 & H3 & H4 & E)]; rewrite E in Hpos; [destruct Hpos|].
    destruct Hpos as [<-|[]]. exists qm, shape, out. repeat split; tauto.
  - exists []. rewrite app_nil_r. split; [reflexivity|]. split; [simpl; lia|].
    intros pos [].
Qed.

(** The same split with the order made explicit: the template positions are
    those of a selection of [allShapes], one each, in the order of
    [allShapes]. *)
Lemma collectPositions_in_order (minF maxF : Z) (db0 : list ChordPosition) :
  let library := sortByDifficulty (filterVoicingsByPosition db0 minF maxF) in
  let present := map (fun p => determineCAGEDShape (frets p) (baseFret p)) library in
  exists generated keep,
    collectPositions root quality minF maxF db0 = library ++ generated /\
    Forall2 (fun shape pos =>
               existsb (ShapeType_eqb shape) present = false /\
               exists qm out,
                 qualityMappedOf quality = Some qm /\
                 CagedShapes.transposeShape root shape qm true = Ok out /\
                 pos = absoluteFretsToChordPosition out shape qm)
            (filter keep allShapes) generated.
Proof.
  intros library present. unfold collectPositions. fold library. fold present.
  destruct (qualityMappedOf quality) as [qm|].
  - rewrite addMissingShape_fold.
    destruct (addMissingShape_in_order root qm minF maxF present allShapes) as [keep Hkeep].
    eexists. exists keep. split; [reflexivity|].
    eapply Forall2_impl; [|exact Hkeep]. cbv beta. intros shape pos E.
    destruct (addMissingShape_cases root qm minF maxF present shape)
      as [E0|(out & H1 & H2 & _ & _ & E1)]; [congruence|].
    split; [exact H1|]. exists qm, out. split; [reflexivity|]. split; [exact H2|].
    congruence.
  - exists [], (fun _ => false). rewrite app_nil_r. split; [reflexivity|]. constructor.
Qed.

Lemma library_In (minF maxF : Z) (db0 : list ChordPosition) (pos : ChordPosition) :
  In pos (sortByDifficulty (filterVoicingsByPosition db0 minF maxF)) -> In pos db0.
Proof.
  intros H. apply (Permutation_in _ (Array_sort_perm _ _)) in H.
  unfold filterVoicingsByPosition in H. now apply filter_In in H.
Qed.

(** Every returned voicing is the enhancement of a collected position, and
    under [onlyValidated] it passed [validateChordVoicing]. *)
Lemma getValidatedCAGEDVoicings_In (options : Options) (v : EnhancedChordVoicing) :
  In v (getValidatedCAGEDVoicings root quality options) ->
  let notes := MusicTheory.getChordNotes root quality in
  notes <> [] /\
  exists pos,
    In pos (collectPositions root quality (minFret options) (maxFret options)
                             (getChordVoicingsFromDB root quality)) /\
    v = enhance root quality notes pos /\
    (onlyValidated options = true -> ev_validated v = true).
Proof.
  intros H notes. unfold getValidatedCAGEDVoicings in H. fold notes in H.
  destruct (List.length notes =? 0)%nat eqn:En; [destruct H|].
  apply length_zero_iff_nil in En. split; [assumption|].
  destruct (List.length (getChordVoicingsFromDB root quality) =? 0)%nat; [destruct H|].
  apply slice0_In in H.
  destruct (onlyValidated options).
  - apply filter_In in H. destruct H as [H Hv].
    apply in_map_iff in H. destruct H as (pos & <- & Hpos). now exists pos.
  - apply in_map_iff in H. destruct H as (pos & <- & Hpos).
    exists pos. repeat split; [assumption | discriminate].
Qed.

End AssemblerResults.

(** C2, as the code has it.  A voicing returned under [onlyValidated] sounds
    every note of the chord on some non-muted string of its absolute fret
    pattern.  It contains no foreign note when it was generated from a
    template; a library entry is passed through as it is, foreign notes
    included. *)
Theorem validated_voicings_cover_the_chord
    (T : Tonal) (D : ChordsDb) (sound : OpenStringsSound T)
    (root quality : string) (options : CagedSystemEnhanced.Options)
    (v : CagedSystemEnhanced.EnhancedChordVoicing) :
  CagedSystemEnhanced.onlyValidated options = true ->
  In v (CagedSystemEnhanced.getValidatedCAGEDVoicings root quality options) ->
  (forall note, In note (MusicTheory.getChordNotes root quality) ->
                Spec.soundsNote (Spec.absoluteFretsOf v) note) /\
  ((exists pos, In pos (ChordDatabase.getChordVoicingsFromDB root quality) /\
                CagedSystemEnhanced.ev_frets v = frets pos /\
                CagedSystemEnhanced.ev_baseFret v = baseFret pos) \/
   Spec.onlyChordTones (Spec.chordTones root quality) (Spec.absoluteFretsOf v)).
Proof.
  intros Honly Hin.
  destruct (getValidatedCAGEDVoicings_In root quality options v Hin)
    as (Hnotes & pos & Hpos & -> & Hvalid).
  specialize (Hvalid Honly).
  change (Spec.absoluteFretsOf (CagedSystemEnhanced.enhance root quality
            (MusicTheory.getChordNotes root quality) pos))
    with (ChordDatabase.toAbsoluteFrets pos).
  split.
  - now apply validateChordVoicing_true.
  - destruct (collectPositions_split root quality (CagedSystemEnhanced.minFret options)
                (CagedSystemEnhanced.maxFret options)
                (ChordDatabase.getChordVoicingsFromDB root quality))
      as (generated & Hsplit & _ & Hgen).
    rewrite Hsplit in Hpos. apply in_app_or in Hpos. destruct Hpos as [Hlib|Hg].
    + left. exists pos. split; [|now split]. eapply library_In; eassumption.
    + right. destruct (Hgen pos Hg) as (qm & shape & out & Hqm & _ & Hout & Hlow & _ & ->).
      rewrite position_roundtrip by assumption.
      destruct (transposeShape_Ok_root _ _ _ _ _ Hout) as [pc Hpc].
      rewrite (transposeShape_validated _ _ _ _ Hpc) in Hout.
      rewrite (getChordNotes_mapped root quality qm Hqm Hnotes) in Hout.
      rewrite (proj2 (length_zero_iff_nil _) Hnotes) in Hout.
      injection Hout as <-.
      apply validated_only_chord_tones; [assumption | apply transposeBySpec_length].
Qed.

Lemma validated_voicings_cover_the_chord_witness :
  let v := CagedSystemEnhanced.enhance (T := TonalModel.tonal) "C" "major"
             ["C"; "E"; "G"]%string SampleDb.C_barre8 in
  (forall note, In note (MusicTheory.getChordNotes (T := TonalModel.tonal) "C" "major") ->
                Spec.soundsNote (T := TonalModel.tonal) (Spec.absoluteFretsOf v) note) /\
  ((exists pos, In pos (ChordDatabase.getChordVoicingsFromDB (D := SampleDb.db) "C" "major") /\
                CagedSystemEnhanced.ev_frets v = frets pos /\
                CagedSystemEnhanced.ev_baseFret v = baseFret pos) \/
   Spec.onlyChordTones (Spec.chordTones (T := TonalModel.tonal) "C" "major")
                       (Spec.absoluteFretsOf v)).
Proof.
  apply (validated_voicings_cover_the_chord
           TonalModel.tonal SampleDb.db TonalModel_sound "C" "major"
           CagedSystemEnhanced.defaultOptions).
  - reflexivity.
  - vm_compute. right. left. reflexivity.
Defined.

(** C2 fails as stated.  [validateChordVoicing] asks whether every chord
    note is present, not whether every sounding note belongs to the chord:
    a library entry for C major that also frets F on the high E string is
    returned as validated. *)
Lemma library_voicing_with_foreign_note_is_returned :
  exists v,
    In v (CagedSystemEnhanced.getValidatedCAGEDVoicings
            (T := TonalModel.tonal) (D := SampleDb.foreignDb) "C" "major"
            CagedSystemEnhanced.defaultOptions) /\
    MusicTheory.getChordNotes (T := TonalModel.tonal) "C" "major" = ["C"; "E"; "G"]%string /\
    CagedSystemEnhanced.ev_validated v = true /\
    Spec.absoluteFretsOf v = [-1; 3; 2; 0; 1; 1] /\
    ~ Spec.onlyChordTones (Spec.chordTones (T := TonalModel.tonal) "C" "major")
                          (Spec.absoluteFretsOf v).
Proof.
  exists (CagedSystemEnhanced.enhance (T := TonalModel.tonal) "C" "major"
            ["C"; "E"; "G"]%string SampleDb.C_with_F).
  split; [vm_compute; left; reflexivity|].
  do 3 (split; [reflexivity|]).
  intros H. specialize (H 5%nat 1 eq_refl ltac:(lia)).
  vm_compute in H. destruct H as [H|[H|[H|[]]]]; discriminate.
Qed.

Lemma existsb_ShapeType_false (shape : ShapeType) (l : list ShapeType) :
  existsb (ShapeType_eqb shape) l = false -> ~ In shape l.
Proof.
  intros H Hin.
  assert (existsb (ShapeType_eqb shape) l = true); [|congruence].
  apply existsb_exists. exists shape. split; [assumption | now destruct shape].
Qed.

(** C9, as the code has it.  The returned list has at most [maxVoicings]
    entries.  It is cut from the voicings of the library positions in the
    fret range, which are in [sortByDifficulty] order (an open string first,
    then fewer barres, then the lower baseFret), followed by the voicings of
    at most five template positions: one for each shape of a selection of
    C, A, G, E, D, in that order, every selected shape being a label that no
    library position in range carries.  Nothing removes a repeated shape
    label and nothing sorts by baseFret. *)
Theorem voicings_are_ordered_library_then_templates
    (T : Tonal) (D : ChordsDb) (root quality : string)
    (options : CagedSystemEnhanced.Options) :
  0 <= CagedSystemEnhanced.maxVoicings options ->
  let result := CagedSystemEnhanced.getValidatedCAGEDVoicings root quality options in
  let notes := MusicTheory.getChordNotes root quality in
  let db := ChordDatabase.getChordVoicingsFromDB root quality in
  let inRange :=
    ChordDatabase.filterVoicingsByPosition
      db (CagedSystemEnhanced.minFret options) (CagedSystemEnhanced.maxFret options) in
  let library := ChordDatabase.sortByDifficulty inRange in
  (List.length result <= Z.to_nat (CagedSystemEnhanced.maxVoicings options))%nat /\
  Permutation library inRange /\
  StronglySorted (fun a b => ChordDatabase.difficultyCompare a b <= 0) library /\
  exists generated shapes,
    (exists keep, shapes = filter keep [ShC; ShA; ShG; ShE; ShD]) /\
    Forall2 (fun shape pos =>
               ~ In shape (map (fun p => CagedSystemEnhanced.determineCAGEDShape
                                           (frets p) (baseFret p)) library) /\
               exists qm out,
                 CagedShapes.transposeShape root shape qm true = Ok out /\
                 pos = CagedSystemEnhanced.absoluteFretsToChordPosition out shape qm)
            shapes generated /\
    (List.length generated <= 5)%nat /\
    (notes <> [] -> db <> [] ->
     let voicings :=
       map (CagedSystemEnhanced.enhance root quality notes) (library ++ generated) in
     result = slice0 (if CagedSystemEnhanced.onlyValidated options
                      then filter CagedSystemEnhanced.ev_validated voicings
                      else voicings)
                     (CagedSystemEnhanced.maxVoicings options)).
Proof.
  intros Hmax result notes db inRange library.
  assert (Hlen : (List.length result <= Z.to_nat (CagedSystemEnhanced.maxVoicings options))%nat).
  { subst result. unfold CagedSystemEnhanced.getValidatedCAGEDVoicings.
    destruct (_ =? _)%nat; [simpl; lia|].
    destruct (_ =? _)%nat; [simpl; lia|].
    now apply slice0_length. }
  split; [exact Hlen|].
  split; [apply Array_sort_perm|].
  split; [apply sortByDifficulty_sorted|].
  destruct (collectPositions_in_order root quality (CagedSystemEnhanced.minFret options)
              (CagedSystemEnhanced.maxFret options) db)
    as (generated & keep & Hsplit & Hgen).
  exists generated, (filter keep CagedSystemEnhanced.allShapes).
  split; [exists keep; reflexivity|].
  split.
  { eapply Forall2_impl; [|exact Hgen]. cbv beta.
    intros shape pos (Habsent & qm & out & _ & Hout & Hpos).
    split; [now apply existsb_ShapeType_false|]. now exists qm, out. }
  split.
  { rewrite <- (Forall2_length Hgen).
    pose proof (filter_length_le keep CagedSystemEnhanced.allShapes) as Hle.
    cbn [CagedSystemEnhanced.allShapes List.length] in Hle. exact Hle. }
  intros Hnotes Hdb voicings. subst result voicings.
  unfold CagedSystemEnhanced.getValidatedCAGEDVoicings.
  fold notes. fold db.
  rewrite (proj2 (length_zero_iff_nil notes) Hnotes).
  rewrite (proj2 (length_zero_iff_nil db) Hdb).
  rewrite Hsplit. reflexivity.
Qed.

Lemma voicings_are_ordered_library_then_templates_witness :
  let options := CagedSystemEnhanced.defaultOptions in
  let result :=
    CagedSystemEnhanced.getValidatedCAGEDVoicings
      (T := TonalModel.tonal) (D := SampleDb.db) "C" "major" options in
  let notes := MusicTheory.getChordNotes (T := TonalModel.tonal) "C" "major" in
  let db := ChordDatabase.getChordVoicingsFromDB (D := SampleDb.db) "C" "major" in
  let inRange := ChordDatabase.filterVoicingsByPosition db 0 15 in
  let library := ChordDatabase.sortByDifficulty inRange in
  (List.length result <= Z.to_nat 10)%nat /\
  Permutation library inRange /\
  StronglySorted (fun a b => ChordDatabase.difficultyCompare a b <= 0) library /\
  exists generated shapes,
    (exists keep, shapes = filter keep [ShC; ShA; ShG; ShE; ShD]) /\
    Forall2 (fun shape pos =>
               ~ In shape (map (fun p => CagedSystemEnhanced.determineCAGEDShape
                                           (frets p) (baseFret p)) library) /\
               exists qm out,
                 CagedShapes.transposeShape (T := TonalModel.tonal) "C" shape qm true = Ok out /\
                 pos = CagedSystemEnhanced.absoluteFretsToChordPosition out shape qm)
            shapes generated /\
    (List.length generated <= 5)%nat /\
    (notes <> [] -> db <> [] ->
     let voicings :=
       map (CagedSystemEnhanced.enhance (T := TonalModel.tonal) "C" "major" notes)
           (library ++ generated) in
     result = slice0 (if CagedSystemEnhanced.onlyValidated options
                      then filter CagedSystemEnhanced.ev_validated voicings
                      else voicings)
                     10).
Proof.
  apply (voicings_are_ordered_library_then_templates
           TonalModel.tonal SampleDb.db "C" "major" CagedSystemEnhanced.defaultOptions).
  simpl. lia.
Defined.

(** C9 fails as stated.  With a library that holds the open C chord and the
    barre at fret 8 for C major, the code returns five voicings of which two
    are labelled E (the library barre and the G template, which the
    classifier reads as E), with baseFrets 1, 8, 3, 5, 10 in that order. *)
Lemma C_major_repeats_a_label_and_is_not_sorted_by_baseFret :
  let result :=
    CagedSystemEnhanced.getValidatedCAGEDVoicings
      (T := TonalModel.tonal) (D := SampleDb.db) "C" "major"
      CagedSystemEnhanced.defaultOptions in
  map (fun v => (CagedSystemEnhanced.ev_cagedShape v, CagedSystemEnhanced.ev_baseFret v))
      result
  = [(ShC, 1); (ShE, 8); (ShA, 3); (ShE, 5); (ShD, 10)] /\
  ~ NoDup (map CagedSystemEnhanced.ev_cagedShape result) /\
  ~ Sorted Z.le (map CagedSystemEnhanced.ev_baseFret result).
Proof.
  split; [reflexivity|]. split.
  - vm_compute. intros H.
    inversion H as [|? ? _ H1]; subst. inversion H1 as [|? ? Hnot _]; subst.
    apply Hnot. right. now left.
  - vm_compute. intros H.
    inversion H as [|? ? H1 _]; subst. inversion H1 as [|? ? _ Hhd]; subst.
    inversion Hhd as [|? ? Hle]; subst. apply Hle. reflexivity.
Qed.

(* ------------------------------------------------------------------ *)
(** ** cagedSystem.ts: the plain generator *)

Lemma getNoteIndex_range (note : string) :
  CagedSystem.getNoteIndex note = -1 \/ 0 <= CagedSystem.getNoteIndex note < 12.
Proof.
  unfold CagedSystem.getNoteIndex, indexOf.
  destruct (indexOf_from_range
              match CagedSystem.flatToSharp note with Some n => n | None => note end
              CagedSystem.noteNames 0) as [H|H]; [now left | right].
  change (Z.of_nat (List.length CagedSystem.noteNames)) with 12 in H. lia.
Qed.

Lemma transposeShape_frets (baseShape : list Z) (semitones rootString rootFret : Z) :
  CagedSystem.tr_frets (CagedSystem.transposeShape baseShape semitones rootString rootFret)
  = map (fun f =>
           if (if existsb (fun f => f =? 0) baseShape && (semitones >? 0)
               then f >=? 0 else f >? 0)
           then f + semitones else f)
        baseShape.
Proof.
  unfold CagedSystem.transposeShape.
  destruct (existsb (fun f => f =? 0) baseShape && (semitones >? 0)); reflexivity.
Qed.

Section Generator.
Import CagedSystem.
Variable baseShapes : ShapeType -> BaseShape.
Hypothesis base_frets :
  forall shape, List.length (b_frets (baseShapes shape)) = 6%nat /\
                Forall (fun f => -1 <= f) (b_frets (baseShapes shape)).
Variable rootIndex : Z.
Hypothesis root_range : 0 <= rootIndex < 12.

Lemma semitones_nonneg (shape : ShapeType) :
  0 <= Z.rem (rootIndex - getNoteIndex (shapeName shape) + 12) 12.
Proof.
  apply Z.rem_nonneg; [lia|].
  assert (getNoteIndex (shapeName shape) <= 9) by (destruct shape; vm_compute; discriminate).
  lia.
Qed.

(** A transposed base shape that the loop does not skip as too high is a
    well-formed fret array: six values, none below -1, none above 15. *)
Lemma kept_frets_wellFormed (shape : ShapeType) :
  let base := baseShapes shape in
  let semitones := Z.rem (rootIndex - getNoteIndex (shapeName shape) + 12) 12 in
  let frets :=
    tr_frets (transposeShape (b_frets base) semitones (b_rootString base) (b_rootFret base)) in
  match filter (fun f => f >? 0) frets with
  | [] => false
  | f :: more => Math_max f more >? 15
  end = false ->
  Spec.wellFormedFrets frets.
Proof.
  intros base semitones frets Hkept.
  pose proof (semitones_nonneg shape) as Hs. fold semitones in Hs.
  destruct (base_frets shape) as [Hlen Hlow]. fold base in Hlen, Hlow.
  assert (Hmap : Forall (fun f => -1 <= f) frets).
  { subst frets. rewrite transposeShape_frets. apply Forall_map.
    eapply Forall_impl; [|exact Hlow]. cbv beta. intros f Hf.
    destruct (if _ && _ then _ else _); lia. }
  split; [subst frets; now rewrite transposeShape_frets, length_map|].
  rewrite Forall_forall in *. intros x Hx. split; [now apply Hmap|].
  destruct (Z.ltb_spec 0 x) as [Hpos|]; [|lia].
  assert (Hin : In x (filter (fun f => f >? 0) frets)).
  { apply filter_In. split; [assumption | now apply Z.gtb_lt]. }
  destruct (filter (fun f => f >? 0) frets) as [|f more]; [destruct Hin|].
  destruct (Math_max_spec more f) as [H1 H2].
  rewrite Z.gtb_ltb in Hkept. apply Z.ltb_ge in Hkept.
  destruct Hin as [<-|Hin]; [lia | specialize (H2 x Hin); lia].
Qed.

Lemma voicingLoop_wellFormed (cagedOrder : list ShapeType) :
  forall voicings,
    (forall v, In v voicings -> Spec.wellFormedFrets (cv_frets v)) ->
    forall v, In v (voicingLoop baseShapes rootIndex cagedOrder voicings) ->
              Spec.wellFormedFrets (cv_frets v).
Proof.
  induction cagedOrder as [|shape rest IH]; intros voicings Hacc v Hv; [now apply Hacc|].
  cbn [voicingLoop] in Hv. cbv zeta in Hv.
  pose proof (kept_frets_wellFormed shape) as Hkept. cbv zeta in Hkept.
  destruct (match filter _ _ with [] => false | f :: more => Math_max f more >? 15 end).
  - now apply (IH voicings).
  - specialize (Hkept eq_refl).
    match type of Hv with
    | In v (if _ then ?acc else _) =>
        assert (Hacc' : forall w, In w acc -> Spec.wellFormedFrets (cv_frets w))
    end.
    { intros w Hw. apply in_app_or in Hw. destruct Hw as [Hw|[<-|[]]]; [now apply Hacc|].
      exact Hkept. }
    destruct (5 <=? _)%nat; [now apply Hacc' | now apply (IH _ Hacc')].
Qed.

End Generator.

Lemma generateCAGEDVoicings_wellFormed (rootNote quality : string)
    (voicings : list CagedSystem.ChordVoicing) :
  CagedSystem.generateCAGEDVoicings rootNote quality = Ok voicings ->
  forall v, In v voicings -> Spec.wellFormedFrets (CagedSystem.cv_frets v).
Proof.
  unfold CagedSystem.generateCAGEDVoicings.
  destruct (getNoteIndex_range rootNote) as [E|Hr]; [now rewrite E|].
  destruct (Z.eqb_spec (CagedSystem.getNoteIndex rootNote) (-1)); [lia|].
  assert (Hloop : forall baseShapes order,
    (forall shape, List.length (CagedSystem.b_frets (baseShapes shape)) = 6%nat /\
                   Forall (fun f => -1 <= f) (CagedSystem.b_frets (baseShapes shape))) ->
    forall v,
      In v (CagedSystem.voicingLoop baseShapes (CagedSystem.getNoteIndex rootNote) order []) ->
      Spec.wellFormedFrets (CagedSystem.cv_frets v)).
  { intros baseShapes order Hbase v Hv.
    eapply voicingLoop_wellFormed; try eassumption. intros w []. }
  assert (Hok : forall table,
    In table [CagedSystem.baseMajorShapes; CagedSystem.baseMinorShapes;
              CagedSystem.baseMaj7Shapes; CagedSystem.baseMin7Shapes;
              CagedSystem.baseDom7Shapes; CagedSystem.baseSus2Shapes;
              CagedSystem.baseSus4Shapes] ->
    forall shape,
      List.length (CagedSystem.b_frets (table shape)) = 6%nat /\
      Forall (fun f => -1 <= f) (CagedSystem.b_frets (table shape))).
  { intros table Ht shape. simpl in Ht.
    repeat (destruct Ht as [<-|Ht];
            [destruct shape; (split; [reflexivity|]);
             repeat (apply Forall_cons; [lia|]); apply Forall_nil|]).
    destruct Ht. }
  cbv zeta.
  repeat match goal with
         | |- context [if ?b then _ else _] => destruct b
         end;
    cbv beta iota;
    match goal with
    | |- Ok (CagedSystem.voicingLoop ?table ?r ?order []) = Ok _ -> _ =>
        intros H;
        assert (E : voicings = CagedSystem.voicingLoop table r order []) by congruence;
        subst voicings; clear H
    end;
    apply Hloop; apply Hok; simpl; tauto.
Qed.

(** C6, as the code has it.  Every voicing that [generateCAGEDVoicings]
    returns has six fret values in [-1, 24].  A voicing that
    [getValidatedCAGEDVoicings] returns either carries the frets and baseFret
    of a chords-db position for the chord, which are passed on as the library
    gives them, or was built from a template and has six fret values in
    [-1, 24]. *)
Theorem returned_voicings_have_six_frets_in_range :
  (forall (T : Tonal) (D : ChordsDb) (root quality : string)
          (options : CagedSystemEnhanced.Options)
          (v : CagedSystemEnhanced.EnhancedChordVoicing),
      In v (CagedSystemEnhanced.getValidatedCAGEDVoicings root quality options) ->
      (exists pos, In pos (ChordDatabase.getChordVoicingsFromDB root quality) /\
                   CagedSystemEnhanced.ev_frets v = frets pos /\
                   CagedSystemEnhanced.ev_baseFret v = baseFret pos) \/
      Spec.wellFormedFrets (CagedSystemEnhanced.ev_frets v)) /\
  (forall (rootNote quality : string) (voicings : list CagedSystem.ChordVoicing),
      CagedSystem.generateCAGEDVoicings rootNote quality = Ok voicings ->
      forall v, In v voicings -> Spec.wellFormedFrets (CagedSystem.cv_frets v)).
Proof.
  split; [|exact generateCAGEDVoicings_wellFormed].
  intros T D root quality options v Hin.
  destruct (getValidatedCAGEDVoicings_In root quality options v Hin)
    as (_ & pos & Hpos & -> & _).
  cbn [CagedSystemEnhanced.enhance CagedSystemEnhanced.ev_frets
       CagedSystemEnhanced.ev_baseFret].
  destruct (collectPositions_split root quality (CagedSystemEnhanced.minFret options)
              (CagedSystemEnhanced.maxFret options)
              (ChordDatabase.getChordVoicingsFromDB root quality))
    as (generated & Hsplit & _ & Hgen).
  rewrite Hsplit in Hpos. apply in_app_or in Hpos. destruct Hpos as [Hlib|Hg].
  - left. exists pos. split; [|now split]. eapply library_In; eassumption.
  - right. destruct (Hgen pos Hg) as (qm & shape & out & _ & _ & Hout & Hlow & _ & ->).
    destruct (transposeShape_shape _ _ _ _ _ Hout) as [Hlen Hhi].
    assert (Hboth : Forall (fun f => -1 <= f <= 14) out).
    { rewrite Forall_forall in *. intros f Hf.
      specialize (Hlow f Hf). specialize (Hhi f Hf). lia. }
    split.
    + rewrite position_frets, length_map. exact Hlen.
    + pose proof (position_frets_bounds out shape qm 14 Hboth) as Hr.
      eapply Forall_impl; [|exact Hr]. cbv beta. intros; lia.
Qed.

Lemma returned_voicings_have_six_frets_in_range_witness :
  (let v := CagedSystemEnhanced.enhance (T := TonalModel.tonal) "C" "major"
              ["C"; "E"; "G"]%string
              (CagedSystemEnhanced.absoluteFretsToChordPosition
                 [-1; -1; 10; 12; 13; 12] ShD major) in
   (exists pos, In pos (ChordDatabase.getChordVoicingsFromDB (D := SampleDb.db) "C" "major") /\
                CagedSystemEnhanced.ev_frets v = frets pos /\
                CagedSystemEnhanced.ev_baseFret v = baseFret pos) \/
   Spec.wellFormedFrets (CagedSystemEnhanced.ev_frets v))
  /\
  (forall v, In v (CagedSystem.voicingLoop CagedSystem.baseMin7Shapes 6
                     CagedSystem.cagedOrderMinor []) ->
             Spec.wellFormedFrets (CagedSystem.cv_frets v)).
Proof.
  split.
  - apply (proj1 returned_voicings_have_six_frets_in_range
             TonalModel.tonal SampleDb.db "C" "major" CagedSystemEnhanced.defaultOptions).
    vm_compute. do 4 right. left. reflexivity.
  - apply (proj2 returned_voicings_have_six_frets_in_range "F#" "m7"). reflexivity.
Defined.

(** C6 fails as stated.  The positions of chords-db are not checked for
    their number of values: an entry for C major that lists five strings
    sounds C, E and G, passes validation and is returned with its five fret
    values. *)
Lemma library_voicing_with_five_frets_is_returned :
  exists v,
    In v (CagedSystemEnhanced.getValidatedCAGEDVoicings
            (T := TonalModel.tonal) (D := SampleDb.shortDb) "C" "major"
            CagedSystemEnhanced.defaultOptions) /\
    CagedSystemEnhanced.ev_validated v = true /\
    CagedSystemEnhanced.ev_frets v = [-1; 3; 2; 0; 1] /\
    ~ Spec.wellFormedFrets (CagedSystemEnhanced.ev_frets v).
Proof.
  exists (CagedSystemEnhanced.enhance (T := TonalModel.tonal) "C" "major"
            ["C"; "E"; "G"]%string SampleDb.C_five_values).
  split; [vm_compute; left; reflexivity|].
  do 2 (split; [reflexivity|]).
  intros [Hlen _]. discriminate Hlen.
Qed.

(** C10.  [getChordShape] catches the only [throw] of the generator, so it
    returns for every pair of strings, and what it returns has six entries:
    six zeros when the root is not a note name or when no voicing was
    generated, otherwise the frets of the first generated voicing. *)
Theorem getChordShape_always_six_frets (rootNote quality : string) :
  List.length (CagedSystem.getChordShape rootNote quality) = 6%nat /\
  (CagedSystem.getNoteIndex rootNote = -1 <->
   exists msg, CagedSystem.generateCAGEDVoicings rootNote quality = Throw msg) /\
  (CagedSystem.getNoteIndex rootNote = -1 ->
   CagedSystem.getChordShape rootNote quality = [0; 0; 0; 0; 0; 0]) /\
  (CagedSystem.generateCAGEDVoicings rootNote quality = Ok [] ->
   CagedSystem.getChordShape rootNote quality = [0; 0; 0; 0; 0; 0]) /\
  (forall v rest,
      CagedSystem.generateCAGEDVoicings rootNote quality = Ok (v :: rest) ->
      CagedSystem.getChordShape rootNote quality = CagedSystem.cv_frets v).
Proof.
  assert (Hthrow : CagedSystem.getNoteIndex rootNote = -1 <->
                   exists msg, CagedSystem.generateCAGEDVoicings rootNote quality = Throw msg).
  { unfold CagedSystem.generateCAGEDVoicings.
    destruct (Z.eqb_spec (CagedSystem.getNoteIndex rootNote) (-1)) as [E|E].
    - split; [eauto | intros _; exact E].
    - split; [contradiction|].
      intros [msg H].
      repeat match type of H with
             | context [if ?b then _ else _] => destruct b
             end; discriminate. }
  split.
  - unfold CagedSystem.getChordShape.
    destruct (CagedSystem.generateCAGEDVoicings rootNote quality) as [voicings|] eqn:E;
      [|reflexivity].
    destruct voicings as [|v rest]; [reflexivity|].
    apply (generateCAGEDVoicings_wellFormed _ _ _ E v). now left.
  - split; [exact Hthrow|]. split; [|split].
    + intros H. apply Hthrow in H. destruct H as [msg H].
      unfold CagedSystem.getChordShape. now rewrite H.
    + intros H. unfold CagedSystem.getChordShape. now rewrite H.
    + intros v rest H. unfold CagedSystem.getChordShape. now rewrite H.
Qed.

Lemma getChordShape_always_six_frets_witness :
  CagedSystem.getChordShape "H" "major" = [0; 0; 0; 0; 0; 0] /\
  CagedSystem.getChordShape "Bb" "sus4" = [-1; 13; 13; 10; 11; 11].
Proof.
  destruct (getChordShape_always_six_frets "H" "major") as (_ & _ & Hbad & _).
  destruct (getChordShape_always_six_frets "Bb" "sus4") as (_ & _ & _ & _ & Hfirst).
  split.
  - apply Hbad. reflexivity.
  - rewrite (Hfirst _ _ eq_refl). reflexivity.
Defined.

(* ------------------------------------------------------------------ *)
(** ** Shape Classifier *)





(** C8.  The classifier looks at the frets made absolute (muted and open
    strings unchanged, a fretted string moved up by [baseFret - 1] when
    [baseFret] is above 1); when that leaves strings 0 and 1 muted and
    string 2 played, the answer is D.  The open D major chord is such a
    pattern. *)
Theorem muted_low_strings_classify_as_D :
  (forall (frets : list Z) (baseFret : Z) (i : nat) (f : Z),
      nth_error frets i = Some f ->
      nth_error (CagedSystemEnhanced.normalizeFrets frets baseFret) i
      = Some (if (f =? -1) || (f =? 0) || (baseFret <=? 1) then f
              else f + (baseFret - 1))) /\
  (forall (frets : list Z) (baseFret : Z) (played : Z),
      let absoluteFrets := CagedSystemEnhanced.normalizeFrets frets baseFret in
      nth_error absoluteFrets 0 = Some (-1) ->
      nth_error absoluteFrets 1 = Some (-1) ->
      nth_error absoluteFrets 2 = Some played -> 0 <= played ->
      CagedSystemEnhanced.determineCAGEDShape frets baseFret = ShD) /\
  CagedSystemEnhanced.determineCAGEDShape [-1; -1; 0; 2; 3; 2] 1 = ShD.
Proof.
  split; [|split; [|reflexivity]].
  - intros frets baseFret i f Hf. unfold CagedSystemEnhanced.normalizeFrets.
    rewrite Z.gtb_ltb.
    destruct (Z.ltb_spec 1 baseFret), (Z.leb_spec baseFret 1); try lia.
    + rewrite nth_error_map, Hf. cbn [option_map]. f_equal.
      destruct (Z.eqb_spec f (-1)), (Z.eqb_spec f 0); cbn [orb]; lia.
    + rewrite Hf. f_equal. now rewrite !orb_true_r.
  - intros frets baseFret played absoluteFrets H0 H1 H2 Hplayed.
    unfold CagedSystemEnhanced.determineCAGEDShape. fold absoluteFrets.
    destruct absoluteFrets as [|x0 [|x1 [|x2 rest]]]; try discriminate.
    cbn [nth_error] in H0, H1, H2.
    injection H0 as ->. injection H1 as ->. injection H2 as ->.
    destruct played as [|p|p]; [reflexivity | reflexivity | lia].
Qed.

Lemma muted_low_strings_classify_as_D_witness :
  CagedSystemEnhanced.determineCAGEDShape [-1; -1; 1; 3; 4; 3] 10 = ShD.
Proof.
  apply (proj1 (proj2 muted_low_strings_classify_as_D) [-1; -1; 1; 3; 4; 3] 10 10);
    try reflexivity. lia.
Defined.

(* ================================================================== *)
(** * Further properties of the code *)

(* ------------------------------------------------------------------ *)
(** ** cagedShapes.ts *)

Lemma Forall2_mapi {X Y : Type} (R : X -> Y -> Prop) (f : X -> nat -> Y) (l : list X) :
  (forall x i, R x (f x i)) -> Forall2 R l (mapi f l).
Proof.
  intros H. unfold mapi. generalize 0%nat.
  induction l as [|x l IH]; intros k; simpl; constructor; auto.
Qed.

Lemma soundsOnlyb_sound (intervals : list Z) (rootPc : Z) (frets : list Z) :
  Harmony.soundsOnlyb intervals rootPc frets = true ->
  Harmony.soundsOnly intervals rootPc frets.
Proof.
  unfold Harmony.soundsOnlyb. intros H i fret Hi Hfret.
  rewrite forallb_forall in H.
  assert (Hin : In ((fret <? 0)
                    || existsb (Z.eqb ((Spec.fretPitchClass i fret - rootPc) mod 12)) intervals)
                   (mapi (fun fret i =>
                            (fret <? 0)
                            || existsb (Z.eqb ((Spec.fretPitchClass i fret - rootPc) mod 12))
                                       intervals) frets)).
  { apply (nth_error_In _ i). rewrite mapi_nth_error, Hi. reflexivity. }
  specialize (H _ Hin). apply orb_true_iff in H. destruct H as [H|H].
  - apply Z.ltb_lt in H. lia.
  - apply existsb_exists in H. destruct H as (x & Hx & E).
    apply Z.eqb_eq in E. now rewrite E.
Qed.

(** At every root the ten templates, moved by the offset, put only tones of
    the requested triad on the strings that stay on the fretboard. *)
Lemma templates_sound_the_triad (pc : Z) (shape : ShapeType) (quality : Quality) :
  0 <= pc < 12 ->
  Harmony.soundsOnly (Harmony.triad quality) pc (Spec.transposeBySpec pc shape quality).
Proof.
  intros H. apply soundsOnlyb_sound.
  assert (Hpc : pc = 0 \/ pc = 1 \/ pc = 2 \/ pc = 3 \/ pc = 4 \/ pc = 5 \/ pc = 6 \/
                pc = 7 \/ pc = 8 \/ pc = 9 \/ pc = 10 \/ pc = 11) by lia.
  repeat (destruct Hpc as [-> | Hpc]; [destruct shape, quality; vm_compute; reflexivity|]).
  subst pc. destruct shape, quality; vm_compute; reflexivity.
Qed.

Lemma validateString_kept {T : Tonal} (sound : OpenStringsSound T)
    (notes : list string) (fret : Z) (i : nat) :
  (i < 6)%nat -> 0 <= fret ->
  In (Some (Spec.fretPitchClass i fret)) (map Note_chroma notes) ->
  CagedShapes.validateString notes fret i = fret.
Proof.
  intros Hi Hfret Hin. unfold CagedShapes.validateString.
  destruct (Z.eqb_spec fret (-1)) as [|Hne]; [lia|].
  destruct (Z.ltb_spec fret 0) as [|_]; [lia|].
  assert (Hnotes :
    exists openNote,
      nth_error MusicTheory.STANDARD_TUNING i = Some openNote /\
      Spec.tuningPitchClass i = indexOf CagedShapes.chromatic openNote /\
      MusicTheory.fretsToNotes (array_set (repeat (-1) 6) i fret)
                               MusicTheory.STANDARD_TUNING
      = [Note_transpose (Some openNote) (Interval_fromSemitones fret)]).
  { apply Z.eqb_neq in Hne.
    do 6 (destruct i as [|i];
          [eexists; split; [reflexivity|]; split; [reflexivity|];
           cbn; rewrite Hne; reflexivity|]).
    lia. }
  destruct Hnotes as (openNote & Hopen & Hpc & ->).
  rewrite (sound i openNote fret Hopen Hfret).
  apply in_map_iff in Hin. destruct Hin as (t & Ht & Hint).
  assert (Ex : existsb (fun theoreticalNote =>
                          chroma_eqb (Note_chroma theoreticalNote)
                                     (Some ((indexOf CagedShapes.chromatic openNote + fret) mod 12)))
                       notes = true).
  { apply existsb_exists. exists t. split; [assumption|].
    rewrite Ht. unfold Spec.fretPitchClass. rewrite Hpc. cbn. apply Z.eqb_refl. }
  now rewrite Ex.
Qed.

Lemma transposeShape_unknown_root {T : Tonal}
    (root : string) (shape : ShapeType) (quality : Quality) (validate : bool) :
  indexOf CagedShapes.chromatic (CagedShapes.normalizeNoteName root) = -1 ->
  CagedShapes.transposeShape root shape quality validate
  = Throw ("Invalid note: " ++ root ++ " or string tuning: "
           ++ nth (CagedShapes.rootString (CagedShapes.CAGED_SHAPES shape quality))
                  CagedShapes.stringTuning "")%string.
Proof.
  intros E. unfold CagedShapes.transposeShape, CagedShapes.getNoteOnString.
  rewrite E. rewrite orb_true_r. destruct shape, quality; reflexivity.
Qed.

Lemma transposeShape_known_root {T : Tonal}
    (root : string) (shape : ShapeType) (quality : Quality) (validate : bool) :
  indexOf CagedShapes.chromatic (CagedShapes.normalizeNoteName root) <> -1 ->
  exists out,
    CagedShapes.transposeShape root shape quality validate = Ok out /\
    List.length out = 6%nat.
Proof.
  intros E.
  assert (Hpc : Spec.pitchClassOf root
                = Some (indexOf CagedShapes.chromatic (CagedShapes.normalizeNoteName root))).
  { unfold Spec.pitchClassOf. apply Z.eqb_neq in E. now rewrite E. }
  destruct validate.
  - rewrite (transposeShape_validated _ _ _ _ Hpc). eexists. split; [reflexivity|].
    destruct (_ =? _)%nat; rewrite ?mapi_length; apply transposeBySpec_length.
  - rewrite (transposeShape_unvalidated _ _ _ _ Hpc). eexists. split; [reflexivity|].
    apply transposeBySpec_length.
Qed.

(** X1.  [transposeShape] never returns a partial array: when the root is in
    neither note table it throws the error that names the note and the root
    string's open note, whatever the flag; otherwise it returns six
    entries. *)
Theorem transposeShape_throws_or_returns_six
    (T : Tonal) (root : string) (shape : ShapeType) (quality : Quality) (validate : bool) :
  let template := CagedShapes.CAGED_SHAPES shape quality in
  if indexOf CagedShapes.chromatic (CagedShapes.normalizeNoteName root) =? -1 then
    CagedShapes.transposeShape root shape quality validate
    = Throw ("Invalid note: " ++ root ++ " or string tuning: "
             ++ nth (CagedShapes.rootString template) CagedShapes.stringTuning "")%string
  else
    exists out,
      CagedShapes.transposeShape root shape quality validate = Ok out /\
      List.length out = 6%nat.
Proof.
  intros template.
  destruct (Z.eqb_spec (indexOf CagedShapes.chromatic (CagedShapes.normalizeNoteName root)) (-1))
    as [E|E].
  - now apply transposeShape_unknown_root.
  - now apply transposeShape_known_root.
Qed.

(** X2.  The validation pass only mutes: string by string the validated
    array holds the unvalidated fret or -1, and a string muted before is
    muted after. *)
Theorem validation_only_mutes
    (T : Tonal) (root : string) (shape : ShapeType) (quality : Quality)
    (plain checked : list Z) :
  CagedShapes.transposeShape root shape quality false = Ok plain ->
  CagedShapes.transposeShape root shape quality true = Ok checked ->
  Forall2 (fun p c => c = p \/ (c = -1 /\ p <> -1)) plain checked.
Proof.
  intros Hplain Hchecked.
  destruct (transposeShape_Ok_root _ _ _ _ _ Hplain) as [pc Hpc].
  rewrite (transposeShape_unvalidated _ _ _ _ Hpc) in Hplain.
  rewrite (transposeShape_validated _ _ _ _ Hpc) in Hchecked.
  injection Hplain as <-. injection Hchecked as <-.
  destruct (_ =? _)%nat.
  - induction (Spec.transposeBySpec pc shape quality); constructor; auto.
  - apply Forall2_mapi. intros f i.
    destruct (validateString_muted_or_kept
                (MusicTheory.getChordNotes root (qualityName quality)) f i) as [H|[H _]];
      rewrite H; [|now left].
    destruct (Z.eq_dec f (-1)); [left; congruence | right; now split].
Qed.

Lemma validation_only_mutes_witness :
  Forall2 (fun p c => c = p \/ (c = -1 /\ p <> -1))
          [0; -1; -3; -3; -3; 0] [0; -1; -1; -1; -1; 0].
Proof.
  apply (validation_only_mutes TonalModel.tonal "E" ShG major); reflexivity.
Defined.

(** X3.  Without validation the transposed shape carries the requested root
    on the template's root string, at a fret from 0 to 11, and every string
    the template plays is moved by the same interval: its pitch class is the
    template's pitch class on that string plus the distance from the
    template's own root to the requested one. *)
Theorem transposition_moves_every_string_to_the_root
    (T : Tonal) (root : string) (shape : ShapeType) (quality : Quality)
    (pc : Z) (out : list Z) :
  Spec.pitchClassOf root = Some pc ->
  CagedShapes.transposeShape root shape quality false = Ok out ->
  let template := CagedShapes.CAGED_SHAPES shape quality in
  let rootString := CagedShapes.rootString template in
  let nativePc := Spec.fretPitchClass rootString (CagedShapes.rootFret template) in
  (exists fret, nth_error out rootString = Some fret /\ 0 <= fret <= 11 /\
                Spec.fretPitchClass rootString fret = pc) /\
  (forall (i : nat) (entry : Z),
      nth_error (CagedShapes.t_frets template) i = Some entry -> entry <> -1 ->
      exists fret, nth_error out i = Some fret /\
                   Spec.fretPitchClass i fret
                   = (Spec.fretPitchClass i entry + (pc - nativePc)) mod 12).
Proof.
  intros Hpc Hout template rootString nativePc.
  pose proof (pitchClassOf_range _ _ Hpc) as Hr.
  rewrite (transposeShape_unvalidated _ _ _ _ Hpc) in Hout. injection Hout as <-.
  unfold Spec.transposeBySpec. fold template. fold rootString.
  split.
  - exists (Spec.findFretForPitchClass pc rootString).
    split; [|split; [apply findFret_range|]].
    + rewrite nth_error_map. subst rootString template.
      destruct shape, quality;
        cbn [CagedShapes.CAGED_SHAPES CagedShapes.rootString CagedShapes.t_frets
             CagedShapes.rootFret nth_error option_map];
        f_equal; case_Ztest; lia.
    + unfold Spec.fretPitchClass, Spec.findFretForPitchClass.
      assert (0 <= Spec.tuningPitchClass rootString < 12).
      { subst rootString template. destruct shape, quality; vm_compute;
          (split; [intro; discriminate | reflexivity]). }
      Z.div_mod_to_equations. lia.
  - intros i entry Hentry Hplay.
    rewrite nth_error_map, Hentry. cbn [option_map].
    destruct (Z.eqb_spec entry (-1)) as [|_]; [contradiction|].
    eexists. split; [reflexivity|].
    subst nativePc. unfold Spec.fretPitchClass, Spec.findFretForPitchClass.
    Z.div_mod_to_equations. lia.
Qed.

Lemma transposition_moves_every_string_to_the_root_witness :
  (exists fret, nth_error [-1; 1; 3; 3; 2; 1] 1 = Some fret /\ 0 <= fret <= 11 /\
                Spec.fretPitchClass 1 fret = 10) /\
  (forall (i : nat) (entry : Z),
      nth_error [-1; 0; 2; 2; 1; 0] i = Some entry -> entry <> -1 ->
      exists fret, nth_error [-1; 1; 3; 3; 2; 1] i = Some fret /\
                   Spec.fretPitchClass i fret
                   = (Spec.fretPitchClass i entry + (10 - Spec.fretPitchClass 1 0)) mod 12).
Proof.
  apply (transposition_moves_every_string_to_the_root
           TonalModel.tonal "Bb" ShA minor 10 [-1; 1; 3; 3; 2; 1]); reflexivity.
Defined.

(** X4.  The templates are right at every root: each entry of the
    unvalidated transposition that is on the fretboard (fret 0 or above)
    sounds the root, the third or the fifth of the requested triad. *)
Theorem unvalidated_frets_sound_the_triad
    (T : Tonal) (root : string) (shape : ShapeType) (quality : Quality)
    (pc : Z) (out : list Z) :
  Spec.pitchClassOf root = Some pc ->
  CagedShapes.transposeShape root shape quality false = Ok out ->
  Harmony.soundsOnly (Harmony.triad quality) pc out.
Proof.
  intros Hpc Hout.
  rewrite (transposeShape_unvalidated _ _ _ _ Hpc) in Hout. injection Hout as <-.
  apply templates_sound_the_triad. eapply pitchClassOf_range; eassumption.
Qed.

Lemma unvalidated_frets_sound_the_triad_witness :
  Harmony.soundsOnly (Harmony.triad minor) 1 [-1; -1; 11; 13; 14; 12].
Proof.
  apply (unvalidated_frets_sound_the_triad TonalModel.tonal "Db" ShD minor 1); reflexivity.
Defined.

(** X5.  When the oracle's notes contain the three tones of the requested
    triad, the validation pass mutes the strings that fell below the nut and
    nothing else. *)
Theorem validation_mutes_exactly_the_negative_frets
    (T : Tonal) (sound : OpenStringsSound T)
    (root : string) (shape : ShapeType) (quality : Quality) (pc : Z) (plain : list Z) :
  Spec.pitchClassOf root = Some pc ->
  (forall interval, In interval (Harmony.triad quality) ->
     In (Some ((pc + interval) mod 12)) (Spec.chordTones root (qualityName quality))) ->
  CagedShapes.transposeShape root shape quality false = Ok plain ->
  CagedShapes.transposeShape root shape quality true
  = Ok (map (fun fret => if fret <? 0 then -1 else fret) plain).
Proof.
  intros Hpc Horacle Hplain.
  pose proof (pitchClassOf_range _ _ Hpc) as Hr.
  rewrite (transposeShape_validated _ _ _ _ Hpc). cbv zeta.
  rewrite (transposeShape_unvalidated _ _ _ _ Hpc) in Hplain. injection Hplain as <-.
  set (notes := MusicTheory.getChordNotes root (qualityName quality)) in *.
  assert (Hne : (List.length notes =? 0)%nat = false).
  { apply length_zero_iff_nil. intros E.
    assert (In (Some ((pc + 0) mod 12)) (Spec.chordTones root (qualityName quality))).
    { apply Horacle. destruct quality; now left. }
    unfold Spec.chordTones in H. fold notes in H. rewrite E in H. destruct H. }
  rewrite Hne. f_equal. apply nth_error_ext. intros i.
  rewrite mapi_nth_error, nth_error_map.
  destruct (nth_error (Spec.transposeBySpec pc shape quality) i) as [f|] eqn:E;
    [|reflexivity].
  cbn [option_map]. f_equal.
  destruct (Z.ltb_spec f 0) as [Hneg|Hpos]; [now apply validateString_negative|].
  assert (Hi : (i < 6)%nat).
  { rewrite <- (transposeBySpec_length pc shape quality). apply nth_error_Some. congruence. }
  apply (validateString_kept sound); try assumption.
  pose proof (templates_sound_the_triad pc shape quality Hr i f E Hpos) as Htone.
  specialize (Horacle _ Htone). unfold Spec.chordTones in Horacle. fold notes in Horacle.
  replace (Spec.fretPitchClass i f)
    with ((pc + (Spec.fretPitchClass i f - pc) mod 12) mod 12); [assumption|].
  assert (0 <= Spec.fretPitchClass i f < 12).
  { unfold Spec.fretPitchClass. apply Z.mod_pos_bound. lia. }
  Z.div_mod_to_equations. lia.
Qed.

Lemma validation_mutes_exactly_the_negative_frets_witness :
  CagedShapes.transposeShape (T := TonalModel.tonal) "F" ShC minor true
  = Ok (map (fun fret => if fret <? 0 then -1 else fret) [-1; 8; 6; 5; 6; 8]).
Proof.
  apply (validation_mutes_exactly_the_negative_frets
           TonalModel.tonal TonalModel_sound "F" ShC minor 5).
  - reflexivity.
  - intros interval Hin. vm_compute in Hin. vm_compute.
    destruct Hin as [<-|[<-|[<-|[]]]]; auto.
  - reflexivity.
Defined.

(* ------------------------------------------------------------------ *)
(** ** Note and quality names *)

(** Case analysis on every comparison of the string [q] with a literal. *)
Ltac string_cases q :=
  repeat match goal with
         | |- context [String.eqb q ?l] =>
             destruct (String.eqb_spec q l) as [->|?]; [try reflexivity|]
         end.

Ltac string_tests_false q :=
  repeat match goal with
         | H : q <> ?l |- context [String.eqb q ?l] =>
             rewrite (proj2 (String.eqb_neq q l) H)
         end.

Lemma getNoteIndex_is_chromatic_index (note : string) :
  CagedSystem.getNoteIndex note
  = indexOf CagedShapes.chromatic (CagedShapes.normalizeNoteName note).
Proof.
  unfold CagedSystem.getNoteIndex, CagedSystem.flatToSharp, CagedShapes.normalizeNoteName.
  string_cases note. reflexivity.
Qed.

(** X6.  The two note tables agree: [generateCAGEDVoicings] of cagedSystem.ts
    throws for exactly the root names for which [transposeShape] of
    cagedShapes.ts throws, and for every other name both work from the same
    pitch class. *)
Theorem both_generators_accept_the_same_roots
    (T : Tonal) (root quality : string) (shape : ShapeType) (q : Quality) (validate : bool) :
  ((exists msg, CagedSystem.generateCAGEDVoicings root quality = Throw msg) <->
   (exists msg, CagedShapes.transposeShape root shape q validate = Throw msg)) /\
  (forall pc, Spec.pitchClassOf root = Some pc -> CagedSystem.getNoteIndex root = pc).
Proof.
  split.
  - destruct (Z.eqb_spec (CagedSystem.getNoteIndex root) (-1)) as [E|E].
    + split; intros _.
      * eexists. apply transposeShape_unknown_root.
        now rewrite <- getNoteIndex_is_chromatic_index.
      * unfold CagedSystem.generateCAGEDVoicings. rewrite E. cbn. eauto.
    + split.
      * intros [msg H]. exfalso. unfold CagedSystem.generateCAGEDVoicings in H.
        apply Z.eqb_neq in E. rewrite E in H. cbv zeta in H.
        repeat match type of H with
               | context [if ?b then _ else _] => destruct b
               end; discriminate.
      * intros [msg H]. rewrite getNoteIndex_is_chromatic_index in E.
        destruct (transposeShape_known_root root shape q validate E) as (out & Hout & _).
        congruence.
  - intros pc Hpc. rewrite getNoteIndex_is_chromatic_index.
    unfold Spec.pitchClassOf in Hpc.
    destruct (_ =? -1); [discriminate | congruence].
Qed.

Lemma both_generators_accept_the_same_roots_witness :
  ((exists msg, CagedSystem.generateCAGEDVoicings "Ab" "sus2" = Throw msg) <->
   (exists msg, CagedShapes.transposeShape (T := TonalModel.tonal) "Ab" ShD minor true
                = Throw msg)) /\
  CagedSystem.getNoteIndex "Ab" = 8.
Proof.
  destruct (both_generators_accept_the_same_roots
              TonalModel.tonal "Ab" "sus2" ShD minor true) as [H1 H2].
  split; [exact H1|]. apply H2. reflexivity.
Defined.

Lemma mapQualityToSuffix_idempotent (quality : string) :
  ChordDatabase.mapQualityToSuffix (ChordDatabase.mapQualityToSuffix quality)
  = ChordDatabase.mapQualityToSuffix quality.
Proof.
  remember (ChordDatabase.mapQualityToSuffix quality) as r eqn:Hr.
  unfold ChordDatabase.mapQualityToSuffix in Hr.
  repeat match type of Hr with
         | context [String.eqb quality ?l] =>
             destruct (String.eqb_spec quality l) as [->|?]; [subst r; reflexivity|]
         end.
  subst r. unfold ChordDatabase.mapQualityToSuffix.
  string_tests_false quality. reflexivity.
Qed.

Lemma normalizeNoteForDB_idempotent (note : string) :
  ChordDatabase.normalizeNoteForDB (ChordDatabase.normalizeNoteForDB note)
  = ChordDatabase.normalizeNoteForDB note.
Proof.
  remember (ChordDatabase.normalizeNoteForDB note) as r eqn:Hr.
  unfold ChordDatabase.normalizeNoteForDB in Hr.
  repeat match type of Hr with
         | context [String.eqb note ?l] =>
             destruct (String.eqb_spec note l) as [->|?]; [subst r; reflexivity|]
         end.
  subst r. unfold ChordDatabase.normalizeNoteForDB.
  string_tests_false note. reflexivity.
Qed.

(** X7.  The names the lookup derives are already normal: the chords-db key
    of a note and the suffix of a quality are fixed points of their
    normalizers, so looking a chord up under its normalized names returns
    the same positions; and a sharp-normalized note name is not changed by
    [normalizeNoteName] again. *)
Theorem lookup_names_are_normal_forms (D : ChordsDb) (note quality : string) :
  ChordDatabase.getChordVoicingsFromDB
    (ChordDatabase.normalizeNoteForDB note) (ChordDatabase.mapQualityToSuffix quality)
  = ChordDatabase.getChordVoicingsFromDB note quality /\
  CagedShapes.normalizeNoteName (CagedShapes.normalizeNoteName note)
  = CagedShapes.normalizeNoteName note.
Proof.
  split.
  - unfold ChordDatabase.getChordVoicingsFromDB.
    now rewrite mapQualityToSuffix_idempotent, normalizeNoteForDB_idempotent.
  - remember (CagedShapes.normalizeNoteName note) as r eqn:Hr.
    unfold CagedShapes.normalizeNoteName in Hr.
    repeat match type of Hr with
           | context [String.eqb note ?l] =>
               destruct (String.eqb_spec note l) as [->|?]; [subst r; reflexivity|]
           end.
    subst r. unfold CagedShapes.normalizeNoteName.
    string_tests_false note. reflexivity.
Qed.

(* ------------------------------------------------------------------ *)
(** ** Positions: relative frets and baseFret *)

Section PositionFormat.
Import CagedSystemEnhanced ChordDatabase.
Variables (absoluteFrets : list Z) (shape : ShapeType) (quality : Quality).

Let position := absoluteFretsToChordPosition absoluteFrets shape quality.

(** The conversion back is exact for every array, negative entries
    included. *)
Lemma position_roundtrip_any : toAbsoluteFrets position = absoluteFrets.
Proof.
  unfold toAbsoluteFrets. subst position. rewrite position_frets.
  destruct (position_baseFret absoluteFrets shape quality) as [HB Hmin].
  set (B := baseFret (absoluteFretsToChordPosition absoluteFrets shape quality)) in *.
  destruct (Z.leb_spec B 1) as [Hle|Hgt].
  - rewrite <- (map_id absoluteFrets) at 2. apply map_ext_in. intros f Hf.
    repeat case_Ztest; lia.
  - rewrite map_map. rewrite <- (map_id absoluteFrets) at 2. apply map_ext_in.
    intros f Hf. specialize (Hmin f Hf). cbv beta.
    destruct (Z.eqb_spec f (-1)) as [->|H1]; [reflexivity|].
    destruct (Z.eqb_spec f 0) as [->|H2]; [reflexivity|].
    destruct (Z.eqb_spec B 1); [lia|].
    repeat case_Ztest; lia.
Qed.

Lemma classifier_reads_absolute_frets (relative : list Z) (base : Z) :
  determineCAGEDShape relative base
  = determineCAGEDShape (toAbsoluteFrets (mkChordPosition relative [] [] base [])) 1.
Proof.
  unfold determineCAGEDShape, toAbsoluteFrets, normalizeFrets.
  cbn [frets baseFret].
  change (1 >? 1) with false. cbv iota. rewrite Z.gtb_ltb.
  destruct (Z.ltb_spec 1 base), (Z.leb_spec base 1); try lia; reflexivity.
Qed.

End PositionFormat.

(** X8.  Round trip: turning an absolute fret pattern into a position
    (relative frets and baseFret) and back with [toAbsoluteFrets] returns
    the pattern, for every array; and the classifier gives the position the
    label it gives the absolute pattern. *)
Theorem position_round_trip
    (absoluteFrets : list Z) (shape : ShapeType) (quality : Quality) :
  let position :=
    CagedSystemEnhanced.absoluteFretsToChordPosition absoluteFrets shape quality in
  ChordDatabase.toAbsoluteFrets position = absoluteFrets /\
  CagedSystemEnhanced.determineCAGEDShape (frets position) (baseFret position)
  = CagedSystemEnhanced.determineCAGEDShape absoluteFrets 1.
Proof.
  intros position. split; [apply position_roundtrip_any|].
  rewrite classifier_reads_absolute_frets.
  change (ChordDatabase.toAbsoluteFrets
            (mkChordPosition (frets position) [] [] (baseFret position) []))
    with (ChordDatabase.toAbsoluteFrets position).
  subst position. now rewrite position_roundtrip_any.
Qed.

(** X9.  The position format: baseFret is at least 1 and is 1 when no string
    is fretted; muted and open strings keep their value; a fretted string
    gets [fret - baseFret + 1], which is at least 1; and when any string is
    fretted, some string sits at relative fret 1. *)
Theorem position_is_relative_to_the_lowest_fretted_string
    (absoluteFrets : list Z) (shape : ShapeType) (quality : Quality) :
  let position :=
    CagedSystemEnhanced.absoluteFretsToChordPosition absoluteFrets shape quality in
  1 <= baseFret position /\
  List.length (frets position) = List.length absoluteFrets /\
  (forall i f, nth_error absoluteFrets i = Some f ->
     nth_error (frets position) i
     = Some (if (f =? -1) || (f =? 0) then f else f - baseFret position + 1)) /\
  (forall f, In f absoluteFrets -> 0 < f -> 1 <= f - baseFret position + 1) /\
  ((forall f, In f absoluteFrets -> f <= 0) -> baseFret position = 1) /\
  ((exists f, In f absoluteFrets /\ 0 < f) -> In 1 (frets position)).
Proof.
  intros position.
  destruct (position_baseFret absoluteFrets shape quality) as [HB Hmin].
  fold position in HB, Hmin.
  split; [exact HB|].
  split; [subst position; now rewrite position_frets, length_map|].
  split.
  { intros i f Hf. subst position. rewrite position_frets, nth_error_map, Hf.
    cbn [option_map]. f_equal.
    destruct (Z.eqb_spec f (-1)) as [->|H1]; [reflexivity|].
    destruct (Z.eqb_spec f 0) as [->|H2]; [reflexivity|].
    cbn [orb]. case_Ztest; lia. }
  split; [intros f Hf Hpos; specialize (Hmin f Hf Hpos); lia|].
  split.
  - intros Hnone. subst position.
    unfold CagedSystemEnhanced.absoluteFretsToChordPosition. cbn [baseFret].
    destruct (filter (fun f => f >? 0) absoluteFrets) as [|p rest] eqn:E; [reflexivity|].
    assert (Hp : In p (filter (fun f => f >? 0) absoluteFrets)) by (rewrite E; now left).
    apply filter_In in Hp. destruct Hp as [Hp Hgt].
    apply Z.gtb_lt in Hgt. specialize (Hnone p Hp). lia.
  - intros (f0 & Hf0 & Hpos0).
    assert (Hbase : In (baseFret position) absoluteFrets /\ 0 < baseFret position).
    { subst position.
      unfold CagedSystemEnhanced.absoluteFretsToChordPosition. cbn [baseFret].
      destruct (filter (fun f => f >? 0) absoluteFrets) as [|p rest] eqn:E.
      - assert (In f0 []) as []. rewrite <- E. apply filter_In.
        split; [assumption | now apply Z.gtb_lt].
      - destruct (Math_min_spec rest p) as (_ & _ & H3).
        rewrite <- E in H3. apply filter_In in H3. destruct H3 as [H3 H4].
        apply Z.gtb_lt in H4. now split. }
    destruct Hbase as [Hin Hpos].
    subst position. rewrite position_frets. apply in_map_iff.
    exists (baseFret (CagedSystemEnhanced.absoluteFretsToChordPosition
                        absoluteFrets shape quality)).
    split; [|assumption].
    set (B := baseFret _) in *.
    destruct (Z.eqb_spec B (-1)); [lia|]. destruct (Z.eqb_spec B 0); [lia|].
    destruct (Z.eqb_spec B 1); lia.
Qed.

Lemma position_is_relative_to_the_lowest_fretted_string_witness :
  let position :=
    CagedSystemEnhanced.absoluteFretsToChordPosition [-1; 3; 5; 5; 5; 3] ShA major in
  frets position = [-1; 1; 3; 3; 3; 1] /\ baseFret position = 3 /\ In 1 (frets position).
Proof.
  destruct (position_is_relative_to_the_lowest_fretted_string [-1; 3; 5; 5; 5; 3] ShA major)
    as (_ & _ & _ & _ & _ & H).
  split; [reflexivity|]. split; [reflexivity|].
  apply H. exists 3. split; [cbn; tauto | lia].
Defined.

(* ------------------------------------------------------------------ *)
(** ** chordDatabase.ts: sorting and filtering *)

Lemma StronglySorted_weaken {X : Type} (R R' : X -> X -> Prop) (l : list X) :
  (forall a b, R a b -> R' a b) -> StronglySorted R l -> StronglySorted R' l.
Proof.
  intros HR. induction 1 as [|x l Hl IH Hx]; constructor; [assumption|].
  eapply Forall_impl; [|exact Hx]. auto.
Qed.

Lemma Array_sort_of_sorted {X : Type} (cmp : X -> X -> Z) (l : list X) :
  StronglySorted (fun a b => cmp a b <= 0) l -> Array_sort cmp l = l.
Proof.
  unfold Array_sort. induction 1 as [|x l Hl IH Hx]; simpl; [reflexivity|].
  rewrite IH. destruct l as [|y l']; [reflexivity|]. simpl.
  inversion Hx as [|? ? Hxy _]; subst.
  destruct (Z.leb_spec (cmp x y) 0); [reflexivity | lia].
Qed.

Lemma difficultyCompare_reads (a b : ChordPosition) :
  ChordDatabase.difficultyCompare a b <= 0 ->
  let hasOpen v := existsb (fun f => f =? 0) (frets v) in
  (hasOpen a = true /\ hasOpen b = false) \/
  (hasOpen a = hasOpen b /\
   ((List.length (barres a) < List.length (barres b))%nat \/
    (List.length (barres a) = List.length (barres b) /\ baseFret a <= baseFret b))).
Proof.
  unfold ChordDatabase.difficultyCompare. cbv zeta.
  destruct (existsb _ (frets a)), (existsb _ (frets b)); simpl; try lia; try tauto;
    destruct (Nat.eqb_spec (List.length (barres a)) (List.length (barres b)));
    simpl; intros H; right; (split; [reflexivity|]); lia.
Qed.

(** X11.  [sortByDifficulty] rearranges its input so that every voicing
    stands before each later one in the order: an open string first, then
    fewer barres, then the lower baseFret.  The voicings [getOpenVoicings]
    selects are therefore the front of the sorted list. *)
Theorem sortByDifficulty_order (voicings : list ChordPosition) :
  let sorted := ChordDatabase.sortByDifficulty voicings in
  let hasOpen v := existsb (fun f => f =? 0) (frets v) in
  Permutation sorted voicings /\
  StronglySorted
    (fun a b =>
       (hasOpen a = true /\ hasOpen b = false) \/
       (hasOpen a = hasOpen b /\
        ((List.length (barres a) < List.length (barres b))%nat \/
         (List.length (barres a) = List.length (barres b) /\ baseFret a <= baseFret b))))
    sorted /\
  sorted = ChordDatabase.getOpenVoicings sorted ++ filter (fun v => negb (hasOpen v)) sorted.
Proof.
  intros sorted hasOpen.
  assert (Hs : StronglySorted
    (fun a b =>
       (hasOpen a = true /\ hasOpen b = false) \/
       (hasOpen a = hasOpen b /\
        ((List.length (barres a) < List.length (barres b))%nat \/
         (List.length (barres a) = List.length (barres b) /\ baseFret a <= baseFret b))))
    sorted).
  { eapply StronglySorted_weaken; [|apply sortByDifficulty_sorted].
    intros a b. apply difficultyCompare_reads. }
  split; [apply Array_sort_perm|]. split; [exact Hs|].
  unfold ChordDatabase.getOpenVoicings. fold hasOpen.
  clearbody sorted. induction Hs as [|x l Hl IH Hx]; [reflexivity|].
  cbn [filter]. destruct (hasOpen x) eqn:Ex; cbn [negb app].
  - f_equal. exact IH.
  - assert (Hnone : Forall (fun b => hasOpen b = false) l).
    { eapply Forall_impl; [|exact Hx]. cbv beta.
      intros b [[H _]|[H _]]; congruence. }
    assert (E1 : filter hasOpen l = []).
    { clear -Hnone. induction Hnone as [|b l Hb _ IH]; [reflexivity|].
      cbn. now rewrite Hb. }
    assert (E2 : filter (fun v => negb (hasOpen v)) l = l).
    { clear -Hnone. induction Hnone as [|b l Hb _ IH]; [reflexivity|].
      cbn. rewrite Hb. cbn. now rewrite IH. }
    now rewrite E1, E2.
Qed.

(** X12.  Sorting is stable enough to be idempotent: a list that is already
    in difficulty order comes back unchanged, ties included, so sorting
    twice is sorting once. *)
Theorem sortByDifficulty_idempotent (voicings : list ChordPosition) :
  (StronglySorted (fun a b => ChordDatabase.difficultyCompare a b <= 0) voicings ->
   ChordDatabase.sortByDifficulty voicings = voicings) /\
  ChordDatabase.sortByDifficulty (ChordDatabase.sortByDifficulty voicings)
  = ChordDatabase.sortByDifficulty voicings.
Proof.
  split.
  - apply Array_sort_of_sorted.
  - apply Array_sort_of_sorted. apply sortByDifficulty_sorted.
Qed.

Lemma sortByDifficulty_idempotent_witness :
  ChordDatabase.sortByDifficulty [SampleDb.C_open; SampleDb.C_with_F; SampleDb.C_barre8]
  = [SampleDb.C_open; SampleDb.C_with_F; SampleDb.C_barre8].
Proof.
  apply (proj1 (sortByDifficulty_idempotent _)).
  repeat constructor; vm_compute; discriminate.
Defined.

Lemma Math_max_In (l : list Z) : forall x, In (Math_max x l) (x :: l).
Proof.
  unfold Math_max. induction l as [|z l IH]; intros x; simpl; [now left|].
  destruct (IH (Z.max x z)) as [H|H]; [|now right; right].
  rewrite <- H. destruct (Z.max_spec x z) as [[_ ->]|[_ ->]]; [right; now left | now left].
Qed.

Lemma filterVoicingsByPosition_keeps (v : ChordPosition) (lo hi : Z) :
  match filter (fun f => f >? 0) (frets v) with
  | [] => true
  | f :: rest => (Math_max f rest >=? lo) && (Math_max f rest <=? hi)
  end = true <->
  (forall f, In f (frets v) -> f <= 0) \/
  ((exists f, In f (frets v) /\ 0 < f /\ lo <= f) /\
   (forall f, In f (frets v) -> 0 < f -> f <= hi)).
Proof.
  assert (Hfil : forall f, In f (filter (fun f => f >? 0) (frets v)) <->
                           In f (frets v) /\ 0 < f).
  { intros f. rewrite filter_In, Z.gtb_lt. tauto. }
  destruct (filter (fun f => f >? 0) (frets v)) as [|p rest] eqn:E.
  - split; [intros _; left | reflexivity].
    intros f Hf. destruct (Z.ltb_spec 0 f); [|assumption].
    destruct (proj2 (Hfil f) (conj Hf H)).
  - destruct (Math_max_spec rest p) as [H1 H2]. pose proof (Math_max_In rest p) as H3.
    rewrite andb_true_iff, Z.geb_leb, !Z.leb_le. split.
    + intros [Hlo Hhi]. right. split.
      * exists (Math_max p rest). apply Hfil in H3. destruct H3. repeat split; assumption.
      * intros f Hf Hpos. assert (Hin : In f (p :: rest)) by (apply Hfil; now split).
        destruct Hin as [<-|Hin]; [lia | specialize (H2 f Hin); lia].
    + intros [Hnone|[(f & Hf & Hpos & Hlo) Hall]].
      * assert (Hp : In p (p :: rest)) by now left.
        apply Hfil in Hp. destruct Hp as [Hp Hpos]. specialize (Hnone p Hp). lia.
      * split.
        -- assert (Hin : In f (p :: rest)) by (apply Hfil; now split).
           destruct Hin as [<-|Hin]; [lia | specialize (H2 f Hin); lia].
        -- apply Hfil in H3. destruct H3 as [H3 H4]. now apply Hall.
Qed.

(** X13.  [filterVoicingsByPosition] keeps a voicing exactly when it has no
    fretted string, or its highest fretted value, as written in the position
    (relative to baseFret), lies between minFret and maxFret.  The baseFret
    plays no part, and filtering twice is filtering once. *)
Theorem filterVoicingsByPosition_reads_relative_frets
    (voicings : list ChordPosition) (minFret maxFret : Z) :
  (forall v,
     In v (ChordDatabase.filterVoicingsByPosition voicings minFret maxFret) <->
     In v voicings /\
     ((forall f, In f (frets v) -> f <= 0) \/
      ((exists f, In f (frets v) /\ 0 < f /\ minFret <= f) /\
       (forall f, In f (frets v) -> 0 < f -> f <= maxFret)))) /\
  (forall v b,
     ChordDatabase.filterVoicingsByPosition [v] minFret maxFret = [v] <->
     ChordDatabase.filterVoicingsByPosition
       [mkChordPosition (frets v) (fingers v) (barres v) b (midi v)] minFret maxFret
     = [mkChordPosition (frets v) (fingers v) (barres v) b (midi v)]) /\
  ChordDatabase.filterVoicingsByPosition
    (ChordDatabase.filterVoicingsByPosition voicings minFret maxFret) minFret maxFret
  = ChordDatabase.filterVoicingsByPosition voicings minFret maxFret.
Proof.
  split; [|split].
  - intros v. unfold ChordDatabase.filterVoicingsByPosition.
    rewrite filter_In. now rewrite filterVoicingsByPosition_keeps.
  - intros v b. unfold ChordDatabase.filterVoicingsByPosition. cbn [filter frets].
    destruct (match filter (fun f => f >? 0) (frets v) with
              | [] => true
              | f :: rest => (Math_max f rest >=? minFret) && (Math_max f rest <=? maxFret)
              end); split; intros H; (reflexivity || discriminate).
  - unfold ChordDatabase.filterVoicingsByPosition.
    induction voicings as [|v l IH]; [reflexivity|]. cbn [filter].
    match goal with |- context [if ?c then v :: _ else _] => destruct c eqn:E end.
    + cbn [filter]. rewrite E. f_equal. exact IH.
    + exact IH.
Qed.

Lemma filterVoicingsByPosition_reads_relative_frets_witness :
  In SampleDb.C_barre8
     (ChordDatabase.filterVoicingsByPosition [SampleDb.C_open; SampleDb.C_barre8] 0 5).
Proof.
  apply (proj1 (filterVoicingsByPosition_reads_relative_frets
                  [SampleDb.C_open; SampleDb.C_barre8] 0 5) SampleDb.C_barre8).
  split; [cbn; tauto|]. right. split.
  - exists 3. cbn. split; [tauto | lia].
  - intros f Hf _. cbn in Hf. intuition lia.
Defined.

(* ------------------------------------------------------------------ *)
(** ** cagedSystem.ts: what the generator produces *)

Lemma labels_eqb_eq (a b : list ShapeType) : Harmony.labels_eqb a b = true -> a = b.
Proof.
  revert b. induction a as [|x a IH]; intros [|y b]; simpl; try discriminate; [reflexivity|].
  intros H. apply andb_true_iff in H. destruct H as [H1 H2].
  f_equal; [destruct x, y; simpl in H1; congruence | now apply IH].
Qed.

(** For each of the twelve pitch classes and each way the quality tests can
    go, the generator is run and its output checked. *)
Lemma generator_checked (rootNote quality : string) :
  CagedSystem.getNoteIndex rootNote <> -1 ->
  exists voicings,
    CagedSystem.generateCAGEDVoicings rootNote quality = Ok voicings /\
    Harmony.generatorFacts quality (CagedSystem.getNoteIndex rootNote) voicings = true.
Proof.
  intros Hne.
  destruct (getNoteIndex_range rootNote) as [E|Hr]; [contradiction|].
  unfold CagedSystem.generateCAGEDVoicings.
  apply Z.eqb_neq in Hne. rewrite Hne. clear Hne.
  unfold Harmony.generatorFacts, Harmony.voicingFacts, Harmony.chordTypeIntervals,
    Harmony.expectedLabels.
  revert Hr. generalize (CagedSystem.getNoteIndex rootNote). intros r Hr.
  assert (Hcases : r = 0 \/ r = 1 \/ r = 2 \/ r = 3 \/ r = 4 \/ r = 5 \/ r = 6 \/
                   r = 7 \/ r = 8 \/ r = 9 \/ r = 10 \/ r = 11) by lia.
  clear Hr. cbv zeta.
  repeat match goal with
         | |- context [String.eqb quality ?l] =>
             destruct (String.eqb_spec quality l) as [->|?];
             [ repeat (destruct Hcases as [-> | Hcases];
                       [eexists; split; [reflexivity | vm_compute; reflexivity]|]);
               subst r; eexists; split; [reflexivity | vm_compute; reflexivity] |]
         end.
  repeat (destruct Hcases as [-> | Hcases];
          [eexists; split; [reflexivity | vm_compute; reflexivity]|]).
  subst r. eexists. split; [reflexivity | vm_compute; reflexivity].
Qed.

Lemma generatorFacts_each (quality : string) (r : Z)
    (voicings : list CagedSystem.ChordVoicing) (v : CagedSystem.ChordVoicing) :
  Harmony.generatorFacts quality r voicings = true -> In v voicings ->
  Harmony.voicingFacts quality r v = true.
Proof.
  unfold Harmony.generatorFacts. intros H Hv.
  apply andb_true_iff in H. destruct H as [H _].
  rewrite forallb_forall in H. now apply H.
Qed.

(** X14.  Moving a base shape up by a non-negative number of semitones adds
    that number to every played string and leaves muted strings alone,
    whichever of the two branches runs; the position is the root fret plus
    the semitones; and a barre is reported, at the fret equal to the
    semitones, exactly when a shape with an open string is moved up. *)
Theorem base_shape_is_shifted_uniformly
    (baseShape : list Z) (semitones rootString rootFret : Z) :
  0 <= semitones ->
  let moved := CagedSystem.transposeShape baseShape semitones rootString rootFret in
  CagedSystem.tr_frets moved
  = map (fun f => if f >=? 0 then f + semitones else f) baseShape /\
  CagedSystem.tr_position moved = rootFret + semitones /\
  CagedSystem.tr_barrePositions moved
  = if existsb (fun f => f =? 0) baseShape && (semitones >? 0)
    then Some [semitones] else None.
Proof.
  intros Hs moved. subst moved. split; [|split].
  - rewrite transposeShape_frets.
    destruct (existsb (fun f => f =? 0) baseShape) eqn:Eopen; cbn [andb].
    + destruct (Z.gtb_spec semitones 0) as [Hpos|Hzero]; [reflexivity|].
      apply map_ext. intros f. repeat case_Ztest; lia.
    + apply map_ext_in. intros f Hf.
      destruct (Z.eq_dec f 0) as [->|Hne].
      * assert (existsb (fun f => f =? 0) baseShape = true); [|congruence].
        apply existsb_exists. exists 0. now split.
      * repeat case_Ztest; lia.
  - unfold CagedSystem.transposeShape.
    destruct (existsb (fun f => f =? 0) baseShape && (semitones >? 0)); reflexivity.
  - unfold CagedSystem.transposeShape.
    destruct (existsb (fun f => f =? 0) baseShape) eqn:Eopen; cbn [andb]; [|reflexivity].
    destruct (semitones >? 0); [|reflexivity].
    apply existsb_exists in Eopen. destruct Eopen as (z & Hz & Ez).
    apply Z.eqb_eq in Ez. subst z.
    assert (Hin : In 0 (filter (fun f => f >=? 0) baseShape)).
    { apply filter_In. split; [assumption | reflexivity]. }
    destruct (filter (fun f => f >=? 0) baseShape) as [|p rest] eqn:E; [destruct Hin|].
    destruct (Math_min_spec rest p) as (H1 & H2 & H3).
    assert (Hlow : 0 <= Math_min p rest).
    { rewrite <- E in H3. apply filter_In in H3. destruct H3 as [_ H3].
      rewrite Z.geb_leb in H3. now apply Z.leb_le in H3. }
    assert (Hzero : Math_min p rest = 0).
    { destruct Hin as [Hp|Hin]; [lia | specialize (H2 0 Hin); lia]. }
    cbn [fst snd]. rewrite Hzero. reflexivity.
Qed.

Lemma base_shape_is_shifted_uniformly_witness :
  let moved := CagedSystem.transposeShape [3; 2; 0; 0; 0; 3] 5 6 3 in
  CagedSystem.tr_frets moved = [8; 7; 5; 5; 5; 8] /\
  CagedSystem.tr_position moved = 8 /\
  CagedSystem.tr_barrePositions moved = Some [5].
Proof.
  apply (base_shape_is_shifted_uniformly [3; 2; 0; 0; 0; 3] 5 6 3). lia.
Defined.

(** X15.  For a root that is a note name the generator returns one voicing
    per shape, in the CAGED order of the quality (A, G, E, D, C for the
    minor family, C, A, G, E, D otherwise): five voicings, except for F# m7,
    where the G shape would reach fret 16 and is left out.  A quality string
    the code does not know gets the major shapes. *)
Theorem generator_returns_one_voicing_per_shape
    (rootNote quality : string) (voicings : list CagedSystem.ChordVoicing) :
  CagedSystem.generateCAGEDVoicings rootNote quality = Ok voicings ->
  map CagedSystem.cv_cagedShape voicings
  = Harmony.expectedLabels quality (CagedSystem.getNoteIndex rootNote) /\
  (4 <= List.length voicings <= 5)%nat /\
  NoDup (map CagedSystem.cv_cagedShape voicings).
Proof.
  intros H.
  assert (Hne : CagedSystem.getNoteIndex rootNote <> -1).
  { intros E. unfold CagedSystem.generateCAGEDVoicings in H. rewrite E in H. discriminate. }
  destruct (generator_checked rootNote quality Hne) as (vs & Hvs & Hfacts).
  assert (vs = voicings) by congruence. subst vs.
  unfold Harmony.generatorFacts in Hfacts. apply andb_true_iff in Hfacts.
  destruct Hfacts as [_ Hlabels]. apply labels_eqb_eq in Hlabels.
  split; [exact Hlabels|].
  rewrite <- (length_map CagedSystem.cv_cagedShape voicings), Hlabels.
  unfold Harmony.expectedLabels.
  repeat match goal with
         | |- context [if ?b then _ else _] => destruct b
         end;
    (split; [cbn; lia|]);
    repeat (constructor; [cbn; intuition discriminate|]); constructor.
Qed.

Lemma generator_returns_one_voicing_per_shape_witness :
  exists voicings,
    CagedSystem.generateCAGEDVoicings "Gb" "min7" = Ok voicings /\
    map CagedSystem.cv_cagedShape voicings = [ShA; ShE; ShD; ShC].
Proof.
  eexists. split; [reflexivity|].
  apply (generator_returns_one_voicing_per_shape "Gb" "min7"). reflexivity.
Defined.

(** X16.  [getChordShape] returns the six zeros only for a root that is not
    a note name: for every note name some voicing is generated and its
    frets are not all zero. *)
Theorem getChordShape_fallback_means_invalid_root (rootNote quality : string) :
  CagedSystem.getChordShape rootNote quality = [0; 0; 0; 0; 0; 0] <->
  CagedSystem.getNoteIndex rootNote = -1.
Proof.
  split.
  - intros Hzero. destruct (Z.eq_dec (CagedSystem.getNoteIndex rootNote) (-1)) as [|Hne];
      [assumption|exfalso].
    destruct (generator_checked rootNote quality Hne) as (vs & Hvs & Hfacts).
    unfold CagedSystem.getChordShape in Hzero. rewrite Hvs in Hzero.
    destruct vs as [|v rest].
    + unfold Harmony.generatorFacts in Hfacts. apply andb_true_iff in Hfacts.
      destruct Hfacts as [_ Hlabels]. apply labels_eqb_eq in Hlabels.
      unfold Harmony.expectedLabels in Hlabels. cbn [map] in Hlabels.
      repeat match type of Hlabels with
             | context [if ?b then _ else _] => destruct b
             end; discriminate.
    + pose proof (generatorFacts_each _ _ _ v Hfacts (or_introl eq_refl)) as Hv.
      unfold Harmony.voicingFacts in Hv. apply andb_true_iff in Hv.
      destruct Hv as [_ Hv]. rewrite Hzero in Hv. discriminate.
  - intros E. unfold CagedSystem.getChordShape, CagedSystem.generateCAGEDVoicings.
    now rewrite E.
Qed.

(** X17.  For a quality that names one of the seven chord types the
    generator has base shapes for, every voicing it returns is a voicing of
    the requested chord: each played string sounds one of the chord's tones
    above the root.  A quality that names any other chord (dim, aug, ...) is
    answered with voicings of the major triad on the root, not of the chord
    asked for.  In both cases the shape's root string is fretted at the
    reported position, and that fret sounds the root. *)
Theorem generated_voicings_sound_the_chord
    (rootNote quality : string) (voicings : list CagedSystem.ChordVoicing)
    (v : CagedSystem.ChordVoicing) :
  CagedSystem.generateCAGEDVoicings rootNote quality = Ok voicings ->
  In v voicings ->
  let rootIndex := CagedSystem.getNoteIndex rootNote in
  let rootString := Harmony.rootStringIndex (CagedSystem.cv_cagedShape v) in
  (forall intervals,
      Harmony.chordTypeIntervals quality = Some intervals ->
      Harmony.soundsOnly intervals rootIndex (CagedSystem.cv_frets v)) /\
  (Harmony.chordTypeIntervals quality = None ->
   Harmony.soundsOnly [0; 4; 7] rootIndex (CagedSystem.cv_frets v)) /\
  nth_error (CagedSystem.cv_frets v) rootString = Some (CagedSystem.cv_position v) /\
  Spec.fretPitchClass rootString (CagedSystem.cv_position v) = rootIndex /\
  (forall table,
      In table [CagedSystem.baseMajorShapes; CagedSystem.baseMinorShapes;
                CagedSystem.baseMaj7Shapes; CagedSystem.baseMin7Shapes;
                CagedSystem.baseDom7Shapes; CagedSystem.baseSus2Shapes;
                CagedSystem.baseSus4Shapes] ->
      Harmony.stringIndex (CagedSystem.b_rootString (table (CagedSystem.cv_cagedShape v)))
      = rootString).
Proof.
  intros H Hv rootIndex rootString.
  assert (Hne : CagedSystem.getNoteIndex rootNote <> -1).
  { intros E. unfold CagedSystem.generateCAGEDVoicings in H. rewrite E in H. discriminate. }
  destruct (generator_checked rootNote quality Hne) as (vs & Hvs & Hfacts).
  assert (vs = voicings) by congruence. subst vs.
  pose proof (generatorFacts_each _ _ _ v Hfacts Hv) as Hfact.
  unfold Harmony.voicingFacts in Hfact. fold rootIndex rootString in Hfact.
  apply andb_true_iff in Hfact. destruct Hfact as [Hfact _].
  apply andb_true_iff in Hfact. destruct Hfact as [Hsound Hroot].
  split.
  { intros intervals E. rewrite E in Hsound. now apply soundsOnlyb_sound. }
  split.
  { intros E. rewrite E in Hsound. now apply soundsOnlyb_sound. }
  destruct (nth_error (CagedSystem.cv_frets v) rootString) as [fret|]; [|discriminate].
  apply andb_true_iff in Hroot. destruct Hroot as [E1 E2].
  apply Z.eqb_eq in E1. apply Z.eqb_eq in E2. subst fret.
  split; [reflexivity|]. split; [exact E2|].
  intros table Ht. subst rootString. cbn [In] in Ht.
  repeat (destruct Ht as [<-|Ht]; [destruct (CagedSystem.cv_cagedShape v); reflexivity|]).
  destruct Ht.
Qed.

Lemma generated_voicings_sound_the_chord_witness :
  exists v,
    CagedSystem.cv_frets v = [-1; -1; 4; 6; 5; 6] /\
    Harmony.soundsOnly [0; 4; 7; 10] 6 (CagedSystem.cv_frets v) /\
    nth_error (CagedSystem.cv_frets v) 2 = Some (CagedSystem.cv_position v) /\
    Spec.fretPitchClass 2 (CagedSystem.cv_position v) = 6.
Proof.
  destruct (CagedSystem.generateCAGEDVoicings "F#" "7") as [voicings|] eqn:E;
    [|discriminate].
  vm_compute in E. injection E as <-.
  eexists. split; [|
    destruct (generated_voicings_sound_the_chord "F#" "7" _ _ eq_refl
                (or_intror (or_intror (or_intror (or_intror (or_introl eq_refl))))))
      as (H1 & _ & H2 & H3 & _); repeat split;
      [exact (H1 _ eq_refl) | exact H2 | exact H3]].
  reflexivity.
Defined.

Lemma getChordShape_fallback_means_invalid_root_witness :
  CagedSystem.getNoteIndex "Cb" = -1.
Proof.
  apply (proj1 (getChordShape_fallback_means_invalid_root "Cb" "maj7")). reflexivity.
Defined.

(* ------------------------------------------------------------------ *)
(** ** cagedSystemEnhanced.ts: the callers of the Assembler *)

Lemma slice0_filter_length {X : Type} (f : X -> bool) (l : list X) (n : Z) :
  (List.length (slice0 (filter f l) n) <= List.length (slice0 l n))%nat.
Proof.
  assert (Hf : (List.length (filter f l) <= List.length l)%nat).
  { induction l as [|x l IH]; simpl; [lia|]. destruct (f x); simpl; lia. }
  unfold slice0. destruct (n <? 0); rewrite !length_firstn; lia.
Qed.

Lemma slice0_prefix {X : Type} (l : list X) (n m : Z) :
  0 <= n <= m -> slice0 l n = firstn (Z.to_nat n) (slice0 l m).
Proof.
  intros H. unfold slice0.
  destruct (Z.ltb_spec n 0), (Z.ltb_spec m 0); try lia.
  rewrite firstn_firstn. f_equal. lia.
Qed.

Section Callers.
Import CagedSystemEnhanced ChordDatabase.
Context {T : Tonal} {D : ChordsDb}.
Variables (root quality : string).

(** The untruncated list of voicings behind a call, or nothing after one of
    the two early returns. *)
Lemma getValidatedCAGEDVoicings_slice (options : Options) :
  exists voicings,
    (forall maxV only,
        getValidatedCAGEDVoicings root quality
          (mkOptions maxV (minFret options) (maxFret options) only)
        = slice0 (if only then filter ev_validated voicings else voicings) maxV).
Proof.
  destruct (List.length (MusicTheory.getChordNotes root quality) =? 0)%nat eqn:E1.
  { exists []. intros maxV only. unfold getValidatedCAGEDVoicings. rewrite E1.
    unfold slice0. destruct only, (maxV <? 0); now rewrite ?firstn_nil. }
  destruct (List.length (getChordVoicingsFromDB root quality) =? 0)%nat eqn:E2.
  { exists []. intros maxV only. unfold getValidatedCAGEDVoicings. rewrite E1, E2.
    unfold slice0. destruct only, (maxV <? 0); now rewrite ?firstn_nil. }
  eexists. intros maxV only. unfold getValidatedCAGEDVoicings. rewrite E1, E2.
  cbn [minFret maxFret onlyValidated maxVoicings]. reflexivity.
Qed.

Lemma pushByShape_fold (l : list EnhancedChordVoicing) :
  forall acc,
    let grouped := fold_left pushByShape l acc in
    let labelled shape := filter (fun v => ShapeType_eqb (ev_cagedShape v) shape) l in
    grp_C grouped = grp_C acc ++ labelled ShC /\
    grp_A grouped = grp_A acc ++ labelled ShA /\
    grp_G grouped = grp_G acc ++ labelled ShG /\
    grp_E grouped = grp_E acc ++ labelled ShE /\
    grp_D grouped = grp_D acc ++ labelled ShD.
Proof.
  induction l as [|v l IH]; intros acc; cbn [fold_left filter].
  - now rewrite !app_nil_r.
  - destruct (IH (pushByShape acc v)) as (HC & HA & HG & HE & HD).
    cbv zeta in *. rewrite HC, HA, HG, HE, HD. unfold pushByShape.
    destruct (ev_cagedShape v); cbn [grp_C grp_A grp_G grp_E grp_D ShapeType_eqb];
      rewrite <- ?app_assoc; repeat split; reflexivity.
Qed.

End Callers.

Lemma getValidatedCAGEDVoicings_prefix {T : Tonal} {D : ChordsDb}
    (root quality : string) (minF maxF n m : Z) (only : bool) :
  0 <= n <= m ->
  CagedSystemEnhanced.getValidatedCAGEDVoicings root quality
    (CagedSystemEnhanced.mkOptions n minF maxF only)
  = firstn (Z.to_nat n)
      (CagedSystemEnhanced.getValidatedCAGEDVoicings root quality
         (CagedSystemEnhanced.mkOptions m minF maxF only)).
Proof.
  intros Hnm.
  destruct (getValidatedCAGEDVoicings_slice root quality
              (CagedSystemEnhanced.mkOptions 0 minF maxF true)) as [voicings H].
  cbn [CagedSystemEnhanced.minFret CagedSystemEnhanced.maxFret] in H.
  rewrite !H. now apply slice0_prefix.
Qed.

(** X18.  For the same fret range, asking for validated voicings only never
    returns more voicings than asking for all of them (the repository's test
    expects as much), and a smaller maximum returns a prefix of what a
    larger one returns. *)
Theorem fewer_voicings_when_validated_and_prefix_when_truncated
    (T : Tonal) (D : ChordsDb) (root quality : string) (minF maxF : Z) :
  (forall maxV,
      (List.length (CagedSystemEnhanced.getValidatedCAGEDVoicings root quality
                      (CagedSystemEnhanced.mkOptions maxV minF maxF true))
       <= List.length (CagedSystemEnhanced.getValidatedCAGEDVoicings root quality
                         (CagedSystemEnhanced.mkOptions maxV minF maxF false)))%nat) /\
  (forall n m only, 0 <= n <= m ->
      CagedSystemEnhanced.getValidatedCAGEDVoicings root quality
        (CagedSystemEnhanced.mkOptions n minF maxF only)
      = firstn (Z.to_nat n)
          (CagedSystemEnhanced.getValidatedCAGEDVoicings root quality
             (CagedSystemEnhanced.mkOptions m minF maxF only))).
Proof.
  destruct (getValidatedCAGEDVoicings_slice root quality
              (CagedSystemEnhanced.mkOptions 0 minF maxF true)) as [voicings H].
  cbn [CagedSystemEnhanced.minFret CagedSystemEnhanced.maxFret] in H.
  split.
  - intros maxV. rewrite !H. apply slice0_filter_length.
  - intros n m only Hnm. now apply getValidatedCAGEDVoicings_prefix.
Qed.

Lemma fewer_voicings_when_validated_and_prefix_when_truncated_witness :
  CagedSystemEnhanced.getValidatedCAGEDVoicings
    (T := TonalModel.tonal) (D := SampleDb.db) "C" "major"
    (CagedSystemEnhanced.mkOptions 2 0 15 true)
  = firstn 2
      (CagedSystemEnhanced.getValidatedCAGEDVoicings
         (T := TonalModel.tonal) (D := SampleDb.db) "C" "major"
         (CagedSystemEnhanced.mkOptions 10 0 15 true)).
Proof.
  apply (proj2 (fewer_voicings_when_validated_and_prefix_when_truncated
                  TonalModel.tonal SampleDb.db "C" "major" 0 15) 2 10 true).
  lia.
Defined.

(** X19.  [getCommonVoicing] is the first voicing of the default call of
    [getValidatedCAGEDVoicings], and [null] exactly when that call returns
    nothing. *)
Theorem getCommonVoicing_is_the_first_default_voicing
    (T : Tonal) (D : ChordsDb) (root quality : string) :
  CagedSystemEnhanced.getCommonVoicing root quality
  = hd_error (CagedSystemEnhanced.getValidatedCAGEDVoicings root quality
                CagedSystemEnhanced.defaultOptions).
Proof.
  unfold CagedSystemEnhanced.getCommonVoicing, CagedSystemEnhanced.defaultOptions.
  rewrite (getValidatedCAGEDVoicings_prefix root quality 0 15 1 10 true ltac:(lia)).
  destruct (CagedSystemEnhanced.getValidatedCAGEDVoicings root quality
              (CagedSystemEnhanced.mkOptions 10 0 15 true)) as [|v rest]; reflexivity.
Qed.

(** X20.  [getVoicingsByShape] sorts the validated voicings (at most 50,
    frets 0 to 15) into five lists without losing, repeating or reordering
    any: the list of a shape holds exactly the voicings carrying that label,
    in the order of the call. *)
Theorem getVoicingsByShape_partitions
    (T : Tonal) (D : ChordsDb) (root quality : string) :
  let allVoicings :=
    CagedSystemEnhanced.getValidatedCAGEDVoicings root quality
      (CagedSystemEnhanced.mkOptions 50 0 15 true) in
  let labelled shape :=
    filter (fun v => ShapeType_eqb (CagedSystemEnhanced.ev_cagedShape v) shape) allVoicings in
  let grouped := CagedSystemEnhanced.getVoicingsByShape root quality in
  CagedSystemEnhanced.grp_C grouped = labelled ShC /\
  CagedSystemEnhanced.grp_A grouped = labelled ShA /\
  CagedSystemEnhanced.grp_G grouped = labelled ShG /\
  CagedSystemEnhanced.grp_E grouped = labelled ShE /\
  CagedSystemEnhanced.grp_D grouped = labelled ShD /\
  (List.length (CagedSystemEnhanced.grp_C grouped)
   + List.length (CagedSystemEnhanced.grp_A grouped)
   + List.length (CagedSystemEnhanced.grp_G grouped)
   + List.length (CagedSystemEnhanced.grp_E grouped)
   + List.length (CagedSystemEnhanced.grp_D grouped)
   = List.length allVoicings)%nat.
Proof.
  intros allVoicings labelled grouped.
  destruct (pushByShape_fold allVoicings (CagedSystemEnhanced.mkByShape [] [] [] [] []))
    as (HC & HA & HG & HE & HD).
  cbn [CagedSystemEnhanced.grp_C CagedSystemEnhanced.grp_A CagedSystemEnhanced.grp_G
       CagedSystemEnhanced.grp_E CagedSystemEnhanced.grp_D app] in *.
  change (fold_left CagedSystemEnhanced.pushByShape allVoicings
            (CagedSystemEnhanced.mkByShape [] [] [] [] [])) with grouped in *.
  repeat (split; [assumption|]).
  rewrite HC, HA, HG, HE, HD. clear. cbv beta.
  induction allVoicings as [|v l IH]; [reflexivity|].
  cbn [filter]. destruct (CagedSystemEnhanced.ev_cagedShape v);
    cbn [ShapeType_eqb List.length]; lia.
Qed.

Lemma in_concat_mapi_from_intro {X Y : Type} (g : X -> nat -> list Y) (y : Y) (l : list X) :
  forall k i x, nth_error l i = Some x -> In y (g x (k + i)%nat) ->
                In y (List.concat (mapi_from k g l)).
Proof.
  induction l as [|x0 l IH]; intros k [|i] x Hi Hy; simpl in *; try discriminate.
  - injection Hi as ->. rewrite Nat.add_0_r in Hy. apply in_or_app. now left.
  - apply in_or_app. right. apply (IH (S k) i x Hi). now rewrite Nat.add_succ_l, <- Nat.add_succ_r.
Qed.

Lemma fretsToNotes_In_intro {T : Tonal} (frets : list Z) (tuning : list string)
    (i : nat) (fret : Z) :
  nth_error frets i = Some fret -> fret <> -1 ->
  In (Note_transpose (nth_error tuning i) (Interval_fromSemitones fret))
     (MusicTheory.fretsToNotes frets tuning).
Proof.
  intros Hi Hne. unfold MusicTheory.fretsToNotes, mapi.
  apply (in_concat_mapi_from_intro _ _ _ 0%nat i fret Hi).
  cbv beta. rewrite Nat.add_0_l.
  destruct (Z.eqb_spec fret (-1)); [contradiction | now left].
Qed.

(** X21.  [validateChordVoicing] asks for presence only: once a fret pattern
    is valid for the expected notes, any pattern that plays the same frets
    on the same strings, whatever it adds on the others, is valid too. *)
Theorem more_strings_never_invalidate
    (T : Tonal) (frets frets' : list Z) (expectedNotes tuning : list string) :
  MusicTheory.validateChordVoicing frets expectedNotes tuning = true ->
  (forall i fret, nth_error frets i = Some fret -> fret <> -1 ->
                  nth_error frets' i = Some fret) ->
  MusicTheory.validateChordVoicing frets' expectedNotes tuning = true.
Proof.
  unfold MusicTheory.validateChordVoicing.
  destruct (List.length expectedNotes =? 0)%nat; [discriminate|].
  intros H Hsame. rewrite forallb_forall in *. intros note Hnote.
  specialize (H note Hnote). apply existsb_exists in H.
  destruct H as (played & Hplayed & Heq).
  apply fretsToNotes_In in Hplayed. destruct Hplayed as (i & fret & Hi & Hne & ->).
  apply existsb_exists. eexists. split; [|exact Heq].
  apply fretsToNotes_In_intro; auto.
Qed.

Lemma more_strings_never_invalidate_witness :
  MusicTheory.validateChordVoicing (T := TonalModel.tonal) [-1; 3; 2; 0; 1; 1]
    ["C"; "E"; "G"]%string MusicTheory.STANDARD_TUNING = true.
Proof.
  apply (more_strings_never_invalidate TonalModel.tonal [-1; 3; 2; 0; -1; -1]).
  - reflexivity.
  - intros i fret Hi Hne.
    do 6 (destruct i as [|i]; [cbn in Hi |- *; congruence|]).
    destruct i; discriminate.
Defined.

(** X22.  [validateCustomVoicing] reports an unknown chord as invalid with
    an empty note list, never validates a pattern whose strings are all
    muted, and when it says valid every note of the chord is sounded by a
    non-muted string. *)
Theorem validateCustomVoicing_outcomes
    (T : Tonal) (D : ChordsDb) (frets : list Z) (root quality : string) :
  let outcome := CagedSystemEnhanced.validateCustomVoicing frets root quality in
  let notes := MusicTheory.getChordNotes root quality in
  (notes = [] ->
   outcome = CagedSystemEnhanced.mkCustomValidation
               false [] ("Unknown chord: " ++ root ++ quality)%string) /\
  (Forall (fun f => f = -1) frets -> CagedSystemEnhanced.isValid outcome = false) /\
  (CagedSystemEnhanced.isValid outcome = true ->
   notes <> [] /\ CagedSystemEnhanced.cv_theoreticalNotes outcome = notes /\
   forall note, In note notes -> Spec.soundsNote frets note).
Proof.
  intros outcome notes. subst outcome. unfold CagedSystemEnhanced.validateCustomVoicing.
  fold notes. split; [|split].
  - intros ->. reflexivity.
  - intros Hmuted. destruct (List.length notes =? 0)%nat eqn:E; [reflexivity|].
    cbn [CagedSystemEnhanced.isValid].
    destruct (MusicTheory.validateChordVoicing frets notes MusicTheory.STANDARD_TUNING) eqn:Ev;
      [|reflexivity].
    apply length_zero_iff_nil in E. destruct notes as [|note rest]; [contradiction|].
    destruct (validateChordVoicing_true frets (note :: rest) Ev note (or_introl eq_refl))
      as (i & fret & Hi & Hne & _).
    rewrite Forall_forall in Hmuted. specialize (Hmuted fret (nth_error_In _ _ Hi)).
    contradiction.
  - destruct (List.length notes =? 0)%nat eqn:E; [discriminate|].
    cbn [CagedSystemEnhanced.isValid CagedSystemEnhanced.cv_theoreticalNotes].
    intros Ev. apply length_zero_iff_nil in E.
    split; [assumption|]. split; [reflexivity|].
    now apply validateChordVoicing_true.
Qed.

Lemma validateCustomVoicing_outcomes_witness :
  CagedSystemEnhanced.isValid
    (CagedSystemEnhanced.validateCustomVoicing (T := TonalModel.tonal)
       [-1; -1; -1; -1; -1; -1] "A" "minor") = false.
Proof.
  apply (proj1 (proj2 (validateCustomVoicing_outcomes
                         TonalModel.tonal SampleDb.db [-1; -1; -1; -1; -1; -1] "A" "minor"))).
  repeat constructor.
Defined.

(** X24.  Templates alone never produce a result: when chords-db has no
    object for the note's key, or no chord with the quality's suffix under
    it, the lookup is empty, [chordExistsInDB] is false, the count is 0, and
    [getValidatedCAGEDVoicings] returns nothing whatever the options, also
    for a major or minor chord; [getCommonVoicing] is then [null].  The
    Assembler also returns nothing when the oracle has no notes. *)
Theorem no_library_entry_no_voicing
    (T : Tonal) (D : ChordsDb) (root quality : string)
    (options : CagedSystemEnhanced.Options) :
  (guitar_chords (ChordDatabase.normalizeNoteForDB root) = None \/
   (exists chords,
      guitar_chords (ChordDatabase.normalizeNoteForDB root) = Some chords /\
      forall c, In c chords -> suffix c <> ChordDatabase.mapQualityToSuffix quality) ->
   ChordDatabase.getChordVoicingsFromDB root quality = [] /\
   ChordDatabase.chordExistsInDB root quality = false /\
   ChordDatabase.getVoicingCount root quality = 0%nat /\
   CagedSystemEnhanced.getValidatedCAGEDVoicings root quality options = [] /\
   CagedSystemEnhanced.getCommonVoicing root quality = None) /\
  (MusicTheory.getChordNotes root quality = [] ->
   CagedSystemEnhanced.getValidatedCAGEDVoicings root quality options = [] /\
   CagedSystemEnhanced.getCommonVoicing root quality = None).
Proof.
  split.
  - intros H.
    assert (Edb : ChordDatabase.getChordVoicingsFromDB root quality = []).
    { unfold ChordDatabase.getChordVoicingsFromDB.
      destruct H as [E|(chords & E & Hnone)]; rewrite E; [reflexivity|].
      destruct (find _ chords) as [c|] eqn:Ef; [|reflexivity].
      apply find_some in Ef. destruct Ef as [Hc Heq].
      apply String.eqb_eq in Heq. destruct (Hnone c Hc Heq). }
    assert (Hempty : forall opts,
      CagedSystemEnhanced.getValidatedCAGEDVoicings root quality opts = []).
    { intros opts. unfold CagedSystemEnhanced.getValidatedCAGEDVoicings. rewrite Edb.
      now destruct (_ =? _)%nat. }
    split; [exact Edb|].
    unfold ChordDatabase.chordExistsInDB, ChordDatabase.getVoicingCount. rewrite Edb.
    repeat split; [apply Hempty|].
    unfold CagedSystemEnhanced.getCommonVoicing. now rewrite Hempty.
  - intros E.
    assert (Hempty : forall opts,
      CagedSystemEnhanced.getValidatedCAGEDVoicings root quality opts = []).
    { intros opts. unfold CagedSystemEnhanced.getValidatedCAGEDVoicings. now rewrite E. }
    split; [apply Hempty|].
    unfold CagedSystemEnhanced.getCommonVoicing. now rewrite Hempty.
Qed.

Lemma no_library_entry_no_voicing_witness :
  ChordDatabase.getChordVoicingsFromDB (D := SampleDb.db) "C" "minor" = [] /\
  ChordDatabase.chordExistsInDB (D := SampleDb.db) "C" "minor" = false /\
  ChordDatabase.getVoicingCount (D := SampleDb.db) "C" "minor" = 0%nat /\
  CagedSystemEnhanced.getValidatedCAGEDVoicings
    (T := TonalModel.tonal) (D := SampleDb.db) "C" "minor" CagedSystemEnhanced.defaultOptions
  = [] /\
  CagedSystemEnhanced.getCommonVoicing (T := TonalModel.tonal) (D := SampleDb.db) "C" "minor"
  = None.
Proof.
  apply (proj1 (no_library_entry_no_voicing TonalModel.tonal SampleDb.db "C" "minor"
                  CagedSystemEnhanced.defaultOptions)).
  right. eexists. split; [reflexivity|].
  intros c [<-|[]]. discriminate.
Defined.

(* ------------------------------------------------------------------ *)
(** ** The classifier and the lowest played string *)

Lemma playedStrings_head (l : list Z) :
  forall (k i : nat) (f : Z) (rest : list (nat * Z)),
    List.concat (mapi_from k (fun fret idx => if fret >=? 0 then [(idx, fret)] else []) l)
    = (i, f) :: rest ->
    (k <= i)%nat /\ nth_error l (i - k) = Some f /\ 0 <= f /\
    forall j x, (j < i - k)%nat -> nth_error l j = Some x -> x < 0.
Proof.
  induction l as [|x l IH]; intros k i f rest H; simpl in H; [discriminate|].
  destruct (Z.geb_spec x 0) as [Hx|Hx].
  - injection H as -> -> _. rewrite Nat.sub_diag. repeat split; auto. intros j y Hj. lia.
  - simpl in H. destruct (IH _ _ _ _ H) as (Hk & Hn & Hf & Hbefore).
    split; [lia|].
    replace (i - k)%nat with (S (i - S k)) by lia.
    split; [exact Hn|]. split; [exact Hf|].
    intros [|j] y Hj Hy; simpl in Hy.
    + injection Hy as <-. lia.
    + apply (Hbefore j y); [lia | assumption].
Qed.

(** X23.  The label follows the lowest played string of the absolute frets:
    E or G when it is the low E string, C or A when it is the A string, D
    when it is the D string, and E when it is a higher string or when
    nothing is played. *)
Theorem label_follows_the_lowest_played_string (relative : list Z) (base : Z) :
  let label := CagedSystemEnhanced.determineCAGEDShape relative base in
  match Harmony.lowestPlayedString (CagedSystemEnhanced.normalizeFrets relative base) with
  | Some 0%nat => label = ShE \/ label = ShG
  | Some 1%nat => label = ShC \/ label = ShA
  | Some 2%nat => label = ShD
  | Some _ => label = ShE
  | None => label = ShE
  end.
Proof.
  intros label. subst label.
  unfold Harmony.lowestPlayedString, CagedSystemEnhanced.determineCAGEDShape.
  set (abs := CagedSystemEnhanced.normalizeFrets relative base).
  destruct (CagedSystemEnhanced.playedStringsOf abs) as [|[i f] rest] eqn:E; [reflexivity|].
  cbn [fst].
  unfold CagedSystemEnhanced.playedStringsOf, mapi in E.
  destruct (playedStrings_head abs 0 i f rest E) as (_ & Hi & Hf & Hbefore).
  rewrite Nat.sub_0_r in Hi, Hbefore.
  set (count := List.length ((i, f) :: rest)).
  set (highest := fst (last ((i, f) :: rest) (i, f))).
  set (hasOpen := existsb (fun f0 => f0 =? 0) abs).
  clearbody count highest hasOpen. clear E.
  destruct i as [|[|[|i]]].
  - rewrite Hi. cbn [js_eq Nat.eqb andb].
    assert (E1 : (f =? -1) = false) by (apply Z.eqb_neq; lia).
    rewrite E1. cbn [andb]. rewrite ?andb_false_r. cbn [andb].
    repeat match goal with
           | |- context [if ?b then _ else _] => destruct b
           end; auto.
  - destruct abs as [|x0 [|x1 tl]]; try discriminate.
    cbn [nth_error] in *. injection Hi as ->.
    cbn [js_eq js_gt js_ge js_lt2 Nat.eqb andb].
    assert (E1 : (f =? -1) = false) by (apply Z.eqb_neq; lia).
    rewrite E1, ?andb_false_r. cbn [andb]. rewrite ?andb_false_r. cbn [andb].
    repeat match goal with
           | |- context [if ?b then _ else _] => destruct b
           end; auto.
  - destruct abs as [|x0 [|x1 [|x2 tl]]]; try discriminate.
    cbn [nth_error] in *. injection Hi as ->.
    pose proof (Hbefore 1%nat x1 ltac:(lia) eq_refl) as H1.
    cbn [js_eq js_gt js_ge js_lt2 Nat.eqb andb].
    assert (E2 : (f >=? 0) = true) by (rewrite Z.geb_leb; now apply Z.leb_le).
    assert (E3 : (x1 >? 0) = false) by (rewrite Z.gtb_ltb; apply Z.ltb_ge; lia).
    rewrite E2, E3, ?andb_false_r, ?andb_true_r. cbn [andb].
    rewrite ?andb_false_r. cbn [andb].
    repeat match goal with
           | |- context [if ?b then _ else _] => destruct b
           end; auto.
  - destruct abs as [|x0 [|x1 [|x2 tl]]]; try discriminate.
    pose proof (Hbefore 1%nat x1 ltac:(lia) eq_refl) as H1.
    pose proof (Hbefore 2%nat x2 ltac:(lia) eq_refl) as H2.
    cbn [nth_error js_eq js_gt js_ge js_lt2 Nat.eqb andb].
    assert (E2 : (x2 >=? 0) = false) by (rewrite Z.geb_leb; apply Z.leb_gt; lia).
    assert (E3 : (x1 >? 0) = false) by (rewrite Z.gtb_ltb; apply Z.ltb_ge; lia).
    rewrite E2, E3, ?andb_false_r. cbn [andb]. rewrite ?andb_false_r. cbn [andb].
    repeat match goal with
           | |- context [if ?b then _ else _] => destruct b
           end; auto.
Qed.

(* ------------------------------------------------------------------ *)
(** ** Barre detection *)

Section FretCounts.
Import CagedSystemEnhanced.

Lemma fretCount_countFret (m : list (Z * Z)) (k k' : Z) :
  Harmony.fretCount (countFret m k) k'
  = if k =? k' then Harmony.fretCount m k + 1 else Harmony.fretCount m k'.
Proof.
  induction m as [|[k0 c] m IH]; cbn [countFret Harmony.fretCount].
  - destruct (Z.eqb_spec k k'); reflexivity.
  - destruct (Z.eqb_spec k0 k) as [->|Hne]; cbn [Harmony.fretCount].
    + repeat case_Ztest; subst; try reflexivity; try contradiction; lia.
    + rewrite IH. repeat case_Ztest; subst; try reflexivity; try contradiction; lia.
Qed.

Lemma countFret_keys (m : list (Z * Z)) (k k' : Z) :
  In k' (map fst (countFret m k)) <-> k' = k \/ In k' (map fst m).
Proof.
  induction m as [|[k0 c] m IH]; cbn [countFret map fst In].
  - intuition.
  - destruct (Z.eqb_spec k0 k) as [->|Hne]; cbn [map fst In]; [intuition|].
    rewrite IH. intuition.
Qed.

Lemma countFret_NoDup (m : list (Z * Z)) (k : Z) :
  NoDup (map fst m) -> NoDup (map fst (countFret m k)).
Proof.
  induction m as [|[k0 c] m IH]; cbn [countFret map fst]; intros H.
  - repeat constructor. intros [].
  - inversion H as [|? ? Hnot Hrest]; subst.
    destruct (Z.eqb_spec k0 k) as [->|Hne]; cbn [map fst]; [now constructor|].
    constructor; [|now apply IH].
    rewrite countFret_keys. intros [E|Hin]; [congruence | contradiction].
Qed.

Lemma countFret_entries (m : list (Z * Z)) (k : Z) :
  0 < k ->
  (forall k' c, In (k', c) m -> 0 < k' /\ 1 <= c) ->
  forall k' c, In (k', c) (countFret m k) -> 0 < k' /\ 1 <= c.
Proof.
  intros Hk. induction m as [|[k0 c0] m IH]; cbn [countFret]; intros Hm k' c Hin.
  - destruct Hin as [[= <- <-]|[]]. lia.
  - destruct (Z.eqb_spec k0 k) as [->|Hne].
    + destruct Hin as [[= <- <-]|Hin].
      * specialize (Hm k c0 (or_introl eq_refl)). lia.
      * apply Hm. now right.
    + destruct Hin as [[= <- <-]|Hin].
      * apply Hm. now left.
      * apply IH; [|assumption]. intros; apply Hm; now right.
Qed.

Lemma fretCount_In (m : list (Z * Z)) (k c : Z) :
  NoDup (map fst m) -> (In (k, c) m <-> (In k (map fst m) /\ Harmony.fretCount m k = c)).
Proof.
  induction m as [|[k0 c0] m IH]; cbn [map fst In Harmony.fretCount]; intros H.
  - tauto.
  - inversion H as [|? ? Hnot Hrest]; subst. specialize (IH Hrest).
    destruct (Z.eqb_spec k0 k) as [->|Hne].
    + split.
      * intros [[= ->]|Hin]; [tauto|].
        exfalso. apply Hnot. apply in_map_iff. exists (k, c). now split.
      * intros [_ ->]. now left.
    + split.
      * intros [[= E _]|Hin]; [contradiction|]. apply IH in Hin. tauto.
      * intros [[E|Hin] Hc]; [contradiction|]. right. apply IH. tauto.
Qed.

(** The map after counting the positive entries of [l]: every key is
    positive and counted at least once, and a positive fret is counted as
    often as it occurs. *)
Lemma fretCounts_fold (l : list Z) :
  forall m,
    NoDup (map fst m) ->
    (forall k c, In (k, c) m -> 0 < k /\ 1 <= c) ->
    let m' := fold_left (fun m fret => if fret >? 0 then countFret m fret else m) l m in
    NoDup (map fst m') /\
    (forall k c, In (k, c) m' -> 0 < k /\ 1 <= c) /\
    (forall k, 0 < k ->
       Harmony.fretCount m' k = Harmony.fretCount m k + Z.of_nat (count_occ Z.eq_dec l k)) /\
    (forall k, In k (map fst m') <-> In k (map fst m) \/ (0 < k /\ In k l)).
Proof.
  induction l as [|x l IH]; intros m Hnd Hent; cbn [fold_left count_occ].
  - split; [assumption|]. split; [assumption|].
    split; [intros; cbn; lia | intros k; cbn [In]; tauto].
  - destruct (Z.gtb_spec x 0) as [Hx|Hx].
    + destruct (IH (countFret m x) (countFret_NoDup m x Hnd)
                   (countFret_entries m x Hx Hent)) as (H1 & H2 & H3 & H4).
      cbv zeta in *. split; [exact H1|]. split; [exact H2|]. split.
      * intros k Hk. rewrite (H3 k Hk), fretCount_countFret.
        destruct (Z.eq_dec x k) as [->|Hne].
        -- rewrite Z.eqb_refl.
           destruct (Z.eq_dec k k); [lia | contradiction].
        -- destruct (Z.eqb_spec x k); [contradiction|].
           destruct (Z.eq_dec x k); [contradiction | lia].
      * intros k. rewrite H4, countFret_keys. cbn [In].
        split; [intros [[->|H]|[Hk H]] | intros [H|[Hk [->|H]]]]; auto.
    + destruct (IH m Hnd Hent) as (H1 & H2 & H3 & H4).
      cbv zeta in *. split; [exact H1|]. split; [exact H2|]. split.
      * intros k Hk. rewrite (H3 k Hk).
        destruct (Z.eq_dec x k); [lia | reflexivity].
      * intros k. rewrite H4. cbn [In].
        split; [intros [H|[Hk H]] | intros [H|[Hk [->|H]]]]; auto; lia.
Qed.

End FretCounts.

Lemma count_occ_map_on (g : Z -> Z) (l : list Z) (f : Z) :
  (forall x, In x l -> g x = g f -> x = f) ->
  count_occ Z.eq_dec (map g l) (g f) = count_occ Z.eq_dec l f.
Proof.
  induction l as [|x l IH]; intros Hinj; cbn [map count_occ]; [reflexivity|].
  rewrite IH by (intros y Hy; apply Hinj; now right).
  destruct (Z.eq_dec (g x) (g f)) as [E|E], (Z.eq_dec x f) as [E'|E']; try reflexivity.
  - exfalso. apply E'. apply Hinj; [now left | assumption].
  - exfalso. apply E. now rewrite E'.
Qed.

Lemma barre_list (unrel : Z -> Z) (m : list (Z * Z)) :
  let barreOf := fun '(fret, count) => if count >=? 2 then [unrel fret] else [] in
  (forall b, In b (List.concat (map barreOf m)) <->
             exists r c, In (r, c) m /\ 2 <= c /\ b = unrel r) /\
  ((forall r r', unrel r = unrel r' -> r = r') ->
   NoDup (map fst m) -> NoDup (List.concat (map barreOf m))).
Proof.
  intros barreOf.
  assert (Hin : forall m b, In b (List.concat (map barreOf m)) <->
                            exists r c, In (r, c) m /\ 2 <= c /\ b = unrel r).
  { clear m. induction m as [|[r0 c0] m IH]; intros b; cbn [map List.concat In].
    - split; [intros [] | intros (r & c & [] & _)].
    - rewrite in_app_iff, IH. unfold barreOf at 1.
      destruct (Z.geb_spec c0 2) as [Hc|Hc]; cbn [In].
      + split.
        * intros [[<-|[]]|(r & c & H & H')]; [exists r0, c0; auto | exists r, c; tauto].
        * intros (r & c & [[= <- <-]|H] & Hc' & ->); [left; now left|].
          right. exists r, c. auto.
      + split.
        * intros [[]|(r & c & H & H')]. exists r, c. tauto.
        * intros (r & c & [[= <- <-]|H] & Hc' & ->); [lia|].
          right. exists r, c. auto. }
  split; [apply Hin|].
  intros Hinj. induction m as [|[r0 c0] m IH]; cbn [map List.concat fst]; intros Hnd.
  - constructor.
  - inversion Hnd as [|? ? Hnot Hrest]; subst. specialize (IH Hrest).
    unfold barreOf at 1. destruct (c0 >=? 2); cbn [app]; [|assumption].
    constructor; [|assumption].
    intros Hb. apply Hin in Hb. destruct Hb as (r & c & Hrc & _ & E).
    apply Hinj in E. subst r. apply Hnot. apply in_map_iff. exists (r0, c). now split.
Qed.

(** X10.  The barres of a position built from absolute frets are exactly the
    frets pressed on two or more strings, as absolute fret numbers, each
    listed once; open and muted strings never make a barre. *)
Theorem barres_are_the_frets_pressed_twice
    (absoluteFrets : list Z) (shape : ShapeType) (quality : Quality) :
  let position :=
    CagedSystemEnhanced.absoluteFretsToChordPosition absoluteFrets shape quality in
  NoDup (barres position) /\
  forall b, In b (barres position) <->
            0 < b /\ (2 <= count_occ Z.eq_dec absoluteFrets b)%nat.
Proof.
  intros position.
  destruct (position_baseFret absoluteFrets shape quality) as [HB Hmin].
  fold position in HB, Hmin.
  set (B := baseFret position) in *.
  set (relf := fun fret =>
                 if fret =? -1 then -1
                 else if fret =? 0 then 0
                 else if B =? 1 then fret
                 else fret - B + 1).
  set (unrel := fun fret => if B =? 1 then fret else B + fret - 1).
  set (m := fold_left (fun m fret => if fret >? 0 then CagedSystemEnhanced.countFret m fret else m)
                      (map relf absoluteFrets) []).
  assert (Hbarres : barres position
                    = List.concat (map (fun '(fret, count) =>
                                          if count >=? 2 then [unrel fret] else []) m)).
  { reflexivity. }
  destruct (fretCounts_fold (map relf absoluteFrets) [] (NoDup_nil _)
              ltac:(intros k c []))
    as (Hnd & Hent & Hcount & Hkeys).
  fold m in Hnd, Hent, Hcount, Hkeys. cbn [Harmony.fretCount map In] in Hcount, Hkeys.
  destruct (barre_list unrel m) as [Hin Hnodup]. cbv zeta in Hin, Hnodup.
  assert (Hrel_pos : forall f, 0 < f -> B <= f -> relf f = f - B + 1 /\ 1 <= relf f).
  { intros f Hf HBf. subst relf. cbv beta. repeat case_Ztest; lia. }
  assert (Hrel_neg : forall f, f <= 0 -> relf f <= 0).
  { intros f Hf. subst relf. cbv beta. repeat case_Ztest; lia. }
  assert (Hunrel : forall f, 0 < f -> B <= f -> unrel (relf f) = f).
  { intros f Hf HBf. destruct (Hrel_pos f Hf HBf) as [-> _].
    subst unrel. cbv beta. case_Ztest; lia. }
  assert (Hsame : forall f, In f absoluteFrets -> 0 < f ->
            count_occ Z.eq_dec (map relf absoluteFrets) (relf f)
            = count_occ Z.eq_dec absoluteFrets f).
  { intros f Hf Hpos. apply count_occ_map_on. intros x Hx E.
    destruct (Hrel_pos f Hpos (Hmin f Hf Hpos)) as [Ef Hf1].
    destruct (Z.ltb_spec 0 x) as [Hxpos|Hxneg].
    - destruct (Hrel_pos x Hxpos (Hmin x Hx Hxpos)) as [Ex _]. lia.
    - pose proof (Hrel_neg x Hxneg). lia. }
  rewrite Hbarres. split.
  - apply Hnodup; [|exact Hnd].
    intros r r'. subst unrel. cbv beta. case_Ztest; lia.
  - intros b. rewrite Hin. split.
    + intros (r & c & Hrc & Hc & ->).
      destruct (Hent r c Hrc) as [Hr _].
      assert (Hkey : In r (map fst m)) by (apply in_map_iff; exists (r, c); now split).
      apply Hkeys in Hkey. destruct Hkey as [[]|[_ Hkey]].
      apply in_map_iff in Hkey. destruct Hkey as (f & <- & Hf).
      assert (Hpos : 0 < f).
      { destruct (Z.ltb_spec 0 f); [assumption|]. pose proof (Hrel_neg f ltac:(lia)). lia. }
      rewrite (Hunrel f Hpos (Hmin f Hf Hpos)). split; [assumption|].
      apply (fretCount_In m _ _ Hnd) in Hrc. destruct Hrc as [_ Hrc].
      rewrite (Hcount _ Hr), (Hsame f Hf Hpos) in Hrc. lia.
    + intros [Hpos Hc].
      assert (Hf : In b absoluteFrets) by (apply (count_occ_In Z.eq_dec); lia).
      destruct (Hrel_pos b Hpos (Hmin b Hf Hpos)) as [_ Hr1].
      exists (relf b), (Harmony.fretCount m (relf b)).
      split; [|split].
      * apply (fretCount_In m _ _ Hnd). split; [|reflexivity].
        apply Hkeys. right. split; [lia|]. now apply in_map.
      * rewrite (Hcount (relf b) ltac:(lia)), (Hsame b Hf Hpos). lia.
      * symmetry. apply Hunrel; [assumption | now apply Hmin].
Qed.

(* ------------------------------------------------------------------ *)
(** ** Labels of transposed templates *)

(** X26.  Off the open position the classifier does not give every
    transposed template its own label.  For an unvalidated transposition
    with no fret below the nut (offset at least 0), read as absolute frets:
    the E, A and D templates keep their label at every root; the C template
    is labelled C only at offset 0 and A everywhere else; the G template is
    labelled G only at offset 0 and E everywhere else. *)
Theorem labels_of_transposed_templates
    (T : Tonal) (root : string) (shape : ShapeType) (quality : Quality)
    (pc : Z) (out : list Z) :
  Spec.pitchClassOf root = Some pc ->
  CagedShapes.transposeShape root shape quality false = Ok out ->
  let template := CagedShapes.CAGED_SHAPES shape quality in
  let offset :=
    Spec.findFretForPitchClass pc (CagedShapes.rootString template)
    - CagedShapes.rootFret template in
  0 <= offset ->
  CagedSystemEnhanced.determineCAGEDShape out 1
  = match shape with
    | ShC => if offset =? 0 then ShC else ShA
    | ShG => if offset =? 0 then ShG else ShE
    | ShE => ShE
    | ShA => ShA
    | ShD => ShD
    end.
Proof.
  intros Hpc Hout template offset.
  pose proof (pitchClassOf_range _ _ Hpc) as Hr.
  rewrite (transposeShape_unvalidated _ _ _ _ Hpc) in Hout. injection Hout as <-.
  subst offset template. clear Hpc.
  assert (Hcases : pc = 0 \/ pc = 1 \/ pc = 2 \/ pc = 3 \/ pc = 4 \/ pc = 5 \/ pc = 6 \/
                   pc = 7 \/ pc = 8 \/ pc = 9 \/ pc = 10 \/ pc = 11) by lia.
  clear Hr.
  repeat (destruct Hcases as [-> | Hcases];
          [destruct shape, quality; vm_compute;
           first [ intros _; reflexivity | intros H; exfalso; apply H; reflexivity ]|]).
  subst pc. destruct shape, quality; vm_compute;
    first [ intros _; reflexivity | intros H; exfalso; apply H; reflexivity ].
Qed.

Lemma labels_of_transposed_templates_witness :
  CagedSystemEnhanced.determineCAGEDShape [8; 7; 5; 5; 5; 8] 1 = ShE /\
  CagedSystemEnhanced.determineCAGEDShape [-1; 5; 4; 2; 3; 2] 1 = ShA.
Proof.
  split.
  - apply (labels_of_transposed_templates TonalModel.tonal "C" ShG major 0);
      [reflexivity | reflexivity | vm_compute; discriminate].
  - apply (labels_of_transposed_templates TonalModel.tonal "D" ShC major 2);
      [reflexivity | reflexivity | vm_compute; discriminate].
Defined.

(* ------------------------------------------------------------------ *)
(** ** Barres, open strings and difficulty *)

Lemma filter_partition_perm {X : Type} (f g : X -> bool) (l : list X) :
  (forall x, g x = negb (f x)) -> Permutation l (filter f l ++ filter g l).
Proof.
  intros H. induction l as [|x l IH]; cbn [filter]; [constructor|].
  rewrite (H x). destruct (f x); cbn [negb app].
  - now constructor.
  - apply Permutation_cons_app. exact IH.
Qed.

(** X25.  [filterVoicingsByBarres] with a maximum of 0 and
    [getBarreVoicings] split a list of positions between them.  Only a
    position of the first part that [getOpenVoicings] also selects can be a
    beginner voicing, and it is one when its baseFret is at most 12; a
    position with two or more barres or a baseFret above 12 is advanced. *)
Theorem barres_and_open_strings_decide_the_difficulty
    (voicings : list ChordPosition) (v : ChordPosition) :
  Permutation voicings
    (ChordDatabase.filterVoicingsByBarres voicings 0 ++ ChordDatabase.getBarreVoicings voicings) /\
  (CagedSystemEnhanced.calculateDifficulty v (baseFret v) = beginner <->
   ChordDatabase.getOpenVoicings (ChordDatabase.filterVoicingsByBarres [v] 0) = [v] /\
   baseFret v <= 12) /\
  (CagedSystemEnhanced.calculateDifficulty v (baseFret v) = advanced <->
   12 < baseFret v \/ ChordDatabase.filterVoicingsByBarres [v] 1 = []).
Proof.
  split; [|split].
  - apply filter_partition_perm. intros x.
    destruct (barres x); reflexivity.
  - unfold CagedSystemEnhanced.calculateDifficulty, ChordDatabase.getOpenVoicings,
      ChordDatabase.filterVoicingsByBarres.
    destruct (Z.gtb_spec (baseFret v) 12) as [Hb|Hb];
      destruct (barres v) as [|b0 [|b1 bs]] eqn:Eb;
      cbn [List.length Nat.ltb Nat.leb negb orb andb filter];
      rewrite ?Eb; cbn [List.length Z.of_nat Z.leb Z.compare filter];
      try (split; [discriminate | intros [H ?]; first [lia | discriminate]]).
    destruct (existsb (fun f => f =? 0) (frets v)) eqn:Eo; cbn [andb filter]; rewrite ?Eo.
    + split; [split; [reflexivity | lia] | reflexivity].
    + split; [discriminate | intros [H ?]; discriminate].
    + rewrite andb_false_r. split; [discriminate | intros [H ?]; discriminate].
  - unfold CagedSystemEnhanced.calculateDifficulty, ChordDatabase.filterVoicingsByBarres.
    destruct (Z.gtb_spec (baseFret v) 12) as [Hb|Hb];
      destruct (barres v) as [|b0 [|b1 bs]] eqn:Eb;
      cbn [List.length Nat.ltb Nat.leb negb orb andb filter];
      rewrite ?Eb; cbn [List.length Z.of_nat Pos.of_succ_nat Z.leb Z.compare Pos.compare
                          Pos.compare_cont Pos.succ filter];
      try (split; [intros _; left; lia | reflexivity]).
    + destruct (existsb _ (frets v)); cbn [andb];
        (split; [discriminate | intros [H|H]; [lia | discriminate]]).
    + destruct (existsb _ (frets v)); cbn [andb];
        (split; [discriminate | intros [H|H]; [lia | discriminate]]).
    + assert (E : (Z.of_nat (S (S (List.length bs))) <=? 1) = false)
        by (apply Z.leb_gt; lia).
      change (Z.pos (Pos.succ (Pos.of_succ_nat (List.length bs))))
        with (Z.of_nat (S (S (List.length bs)))).
      rewrite E. split; [intros _; now right | reflexivity].
Qed.
